(** * Video-processing job pipeline: a shallow embedding and its properties

    The development follows three source modules of the Django application
    [video_app]:

    - [yolo_processor.py]  (class [YOLOProcessor]: frame source, detector
      wrapper and frame processor),
    - [minio_client.py]    (class [MinIOClient]: the blob-store gateway),
    - [tasks.py]           (the three Celery job entry points),

    over the record types of [models.py].  Python code that threads effects
    (database rows, files, the blob store, clocks, resource handles) is
    written in a state-and-exception monad [M]; the capabilities the code
    takes from libraries it does not implement (OpenCV decoding, the YOLO
    model, the S3 transport, the JSON codec, clocks and random sources) are
    fields of an environment record [Env]. *)

From Stdlib Require Import Ascii String ZArith QArith Qround Lia Lqa.
From stdpp Require Import base decidable option list strings pretty gmap infinite sorting.

Local Open Scope string_scope.
Local Open Scope Z_scope.

(** ** Python exceptions *)

(** The exception classes the modelled code raises, catches or lets pass.
    All of them derive from [Exception]. *)
Inductive ExnClass : Type :=
  | DoesNotExist          (* Video.DoesNotExist *)
  | IntegrityError        (* django.db.IntegrityError *)
  | NameError
  | FileNotFoundError
  | ValueError
  | ZeroDivisionError
  | KeyError
  | TypeError
  | S3Error               (* minio.error.S3Error *)
  | CoreValidationError   (* django.core.exceptions.ValidationError *)
  | OtherError.           (* any other subclass of Exception *)

Global Instance ExnClass_eq_dec : EqDecision ExnClass.
Proof. solve_decision. Defined.

Record Exn : Type := MkExn { exn_class : ExnClass; exn_msg : string }.

(** [str(e)] *)
Definition str_exn (e : Exn) : string := exn_msg e.

Inductive outcome (A : Type) : Type :=
  | Ret (a : A)
  | Raise (e : Exn).
Global Arguments Ret {A} a.
Global Arguments Raise {A} e.

Definition is_Ret {A} (o : outcome A) : bool :=
  match o with Ret _ => true | Raise _ => false end.

(** ** [posixpath] and string formatting

    [os.path.basename], [os.path.splitext] and [os.path.join] follow the
    definitions of CPython's [posixpath]/[genericpath]. *)

Module PosixPath.

(** [s.rfind(c)]: index of the last occurrence of [c], or -1. *)
Fixpoint rfind (c : ascii) (s : string) : Z :=
  match s with
  | EmptyString => -1
  | String a r =>
      let i := rfind c r in
      if 0 <=? i then i + 1
      else if decide (a = c) then 0 else -1
  end.

(** [s[n:]] and [s[:n]] for [0 <= n]. *)
Fixpoint drop (n : nat) (s : string) : string :=
  match n, s with
  | O, _ => s
  | S n', String _ r => drop n' r
  | S _, EmptyString => EmptyString
  end.

Fixpoint take (n : nat) (s : string) : string :=
  match n, s with
  | O, _ => EmptyString
  | S n', String a r => String a (take n' r)
  | S _, EmptyString => EmptyString
  end.

(** [s[i:i+1]] *)
Definition char_at (i : nat) (s : string) : string := take 1 (drop i s).

(** [i = p.rfind('/') + 1; return p[i:]] *)
Definition basename (p : string) : string :=
  drop (Z.to_nat (rfind "/"%char p + 1)) p.

(** The [while filenameIndex < dotIndex] loop of [genericpath._splitext]:
    [true] when some character in [[idx, idx + n)] is not a dot. *)
Fixpoint has_non_dot (n : nat) (idx : nat) (p : string) : bool :=
  match n with
  | O => false
  | S n' =>
      if decide (char_at idx p = ".") then has_non_dot n' (S idx) p
      else true
  end.

Definition splitext (p : string) : string * string :=
  let sepIndex := rfind "/"%char p in
  let dotIndex := rfind "."%char p in
  if sepIndex <? dotIndex then
    let filenameIndex := Z.to_nat (sepIndex + 1) in
    if has_non_dot (Z.to_nat dotIndex - filenameIndex) filenameIndex p
    then (take (Z.to_nat dotIndex) p, drop (Z.to_nat dotIndex) p)
    else (p, "")
  else (p, "").

Definition startswith_sep (s : string) : bool :=
  match s with String "/"%char _ => true | _ => false end.

Fixpoint endswith_sep (s : string) : bool :=
  match s with
  | EmptyString => false
  | String a EmptyString => bool_decide (a = "/"%char)
  | String _ r => endswith_sep r
  end.

(** [s == '/' * len(s)] *)
Fixpoint all_sep (s : string) : bool :=
  match s with
  | EmptyString => true
  | String a r => bool_decide (a = "/"%char) && all_sep r
  end.

(** [s.rstrip('/')] *)
Fixpoint rstrip_sep (s : string) : string :=
  match s with
  | EmptyString => EmptyString
  | String a r =>
      match rstrip_sep r with
      | EmptyString => if decide (a = "/"%char) then EmptyString
                       else String a EmptyString
      | r' => String a r'
      end
  end.

(** [i = p.rfind('/') + 1; head = p[:i]], without its trailing
    separators unless it consists of separators only. *)
Definition dirname (p : string) : string :=
  let head := take (Z.to_nat (rfind "/"%char p + 1)) p in
  if negb (bool_decide (head = "")) && negb (all_sep head) then rstrip_sep head
  else head.

(** [os.path.join(a, b)] *)
Definition join (a b : string) : string :=
  if startswith_sep b then b
  else if bool_decide (a = "") || endswith_sep a then a +:+ b
  else a +:+ "/" +:+ b.

End PosixPath.

(** [f"{n:06d}"]: sign, then the decimal digits padded with zeros to a
    total width of six. *)
Fixpoint zeros (n : nat) : string :=
  match n with O => "" | S n' => String "0"%char (zeros n') end.

Definition format_06d (n : Z) : string :=
  if n <? 0 then
    let d := pretty (Z.to_N (- n)) in "-" +:+ zeros (5 - String.length d) +:+ d
  else
    let d := pretty (Z.to_N n) in zeros (6 - String.length d) +:+ d.

(** [f"{n:032x}"], the [hex] attribute of a 128-bit UUID. *)
Definition hex_digit (d : N) : ascii :=
  match d with
  | 0 => "0" | 1 => "1" | 2 => "2" | 3 => "3" | 4 => "4" | 5 => "5"
  | 6 => "6" | 7 => "7" | 8 => "8" | 9 => "9" | 10 => "a" | 11 => "b"
  | 12 => "c" | 13 => "d" | 14 => "e" | _ => "f"
  end%N%char.

Fixpoint hex_go (digits : nat) (n : N) (acc : string) : string :=
  match digits with
  | O => acc
  | S k => hex_go k (n / 16)%N (String (hex_digit (n mod 16)%N) acc)
  end.

Definition uuid_hex (u : N) : string := hex_go 32 u "".
Global Arguments uuid_hex : simpl never.

(** ** Data model ([models.py]) *)

Inductive VideoStatus : Type := VPending | VProcessing | VCompleted | VFailed.
Inductive TaskStatus : Type := TPending | TRunning | TCompleted | TFailed.
Inductive TaskType : Type := VideoProcessing | ObjectDetection | FrameExtraction.

Global Instance VideoStatus_eq_dec : EqDecision VideoStatus.
Proof. solve_decision. Defined.
Global Instance TaskStatus_eq_dec : EqDecision TaskStatus.
Proof. solve_decision. Defined.
Global Instance TaskType_eq_dec : EqDecision TaskType.
Proof. solve_decision. Defined.

(** A Python number: the literal [0] is an [int], a quotient is a [float].
    Finite floats are carried as the rationals they denote; the rounding of
    an arithmetic result to the float format is the environment's [rnd64]
    (binary64, Python [float]) or [rnd32] (binary32, numpy [float32]). *)
Inductive PyNum : Type := PInt (z : Z) | PFloat (q : Q).

(** The value of a Python number as a rational ([0 == 0.0] in Python). *)
Definition pynum_value (n : PyNum) : Q :=
  match n with PInt z => inject_Z z | PFloat q => q end.

(** [models.Video]; [v_video_file] is the path of the stored upload. *)
Record Video : Type := MkVideo {
  v_id : string;
  v_title : string;
  v_video_file : string;
  v_uploaded_at : Z;
  v_status : VideoStatus;
  v_processing_started_at : option Z;
  v_processing_completed_at : option Z;
  v_error_message : string;
  v_duration : option PyNum;
  v_frame_count : option Z;
  v_fps : option Q;
  v_resolution : string;
  v_file_size : option Z;
  v_minio_bucket : string;
  v_minio_key : string;
  v_processed_minio_key : string
}.

Definition set_v_status (x : VideoStatus) (r : Video) : Video :=
  {| v_id := v_id r; v_title := v_title r; v_video_file := v_video_file r;
     v_uploaded_at := v_uploaded_at r; v_status := x; v_processing_started_at
     := v_processing_started_at r; v_processing_completed_at :=
     v_processing_completed_at r; v_error_message := v_error_message r;
     v_duration := v_duration r; v_frame_count := v_frame_count r; v_fps :=
     v_fps r; v_resolution := v_resolution r; v_file_size := v_file_size r;
     v_minio_bucket := v_minio_bucket r; v_minio_key := v_minio_key r;
     v_processed_minio_key := v_processed_minio_key r |}.

Definition set_v_processing_started_at (x : option Z) (r : Video) : Video :=
  {| v_id := v_id r; v_title := v_title r; v_video_file := v_video_file r;
     v_uploaded_at := v_uploaded_at r; v_status := v_status r;
     v_processing_started_at := x; v_processing_completed_at :=
     v_processing_completed_at r; v_error_message := v_error_message r;
     v_duration := v_duration r; v_frame_count := v_frame_count r; v_fps :=
     v_fps r; v_resolution := v_resolution r; v_file_size := v_file_size r;
     v_minio_bucket := v_minio_bucket r; v_minio_key := v_minio_key r;
     v_processed_minio_key := v_processed_minio_key r |}.

Definition set_v_processing_completed_at (x : option Z) (r : Video) : Video :=
  {| v_id := v_id r; v_title := v_title r; v_video_file := v_video_file r;
     v_uploaded_at := v_uploaded_at r; v_status := v_status r;
     v_processing_started_at := v_processing_started_at r;
     v_processing_completed_at := x; v_error_message := v_error_message r;
     v_duration := v_duration r; v_frame_count := v_frame_count r; v_fps :=
     v_fps r; v_resolution := v_resolution r; v_file_size := v_file_size r;
     v_minio_bucket := v_minio_bucket r; v_minio_key := v_minio_key r;
     v_processed_minio_key := v_processed_minio_key r |}.

Definition set_v_error_message (x : string) (r : Video) : Video :=
  {| v_id := v_id r; v_title := v_title r; v_video_file := v_video_file r;
     v_uploaded_at := v_uploaded_at r; v_status := v_status r;
     v_processing_started_at := v_processing_started_at r;
     v_processing_completed_at := v_processing_completed_at r; v_error_message
     := x; v_duration := v_duration r; v_frame_count := v_frame_count r; v_fps
     := v_fps r; v_resolution := v_resolution r; v_file_size := v_file_size r;
     v_minio_bucket := v_minio_bucket r; v_minio_key := v_minio_key r;
     v_processed_minio_key := v_processed_minio_key r |}.

Definition set_v_duration (x : option PyNum) (r : Video) : Video :=
  {| v_id := v_id r; v_title := v_title r; v_video_file := v_video_file r;
     v_uploaded_at := v_uploaded_at r; v_status := v_status r;
     v_processing_started_at := v_processing_started_at r;
     v_processing_completed_at := v_processing_completed_at r; v_error_message
     := v_error_message r; v_duration := x; v_frame_count := v_frame_count r;
     v_fps := v_fps r; v_resolution := v_resolution r; v_file_size :=
     v_file_size r; v_minio_bucket := v_minio_bucket r; v_minio_key :=
     v_minio_key r; v_processed_minio_key := v_processed_minio_key r |}.

Definition set_v_frame_count (x : option Z) (r : Video) : Video :=
  {| v_id := v_id r; v_title := v_title r; v_video_file := v_video_file r;
     v_uploaded_at := v_uploaded_at r; v_status := v_status r;
     v_processing_started_at := v_processing_started_at r;
     v_processing_completed_at := v_processing_completed_at r; v_error_message
     := v_error_message r; v_duration := v_duration r; v_frame_count := x;
     v_fps := v_fps r; v_resolution := v_resolution r; v_file_size :=
     v_file_size r; v_minio_bucket := v_minio_bucket r; v_minio_key :=
     v_minio_key r; v_processed_minio_key := v_processed_minio_key r |}.

Definition set_v_fps (x : option Q) (r : Video) : Video :=
  {| v_id := v_id r; v_title := v_title r; v_video_file := v_video_file r;
     v_uploaded_at := v_uploaded_at r; v_status := v_status r;
     v_processing_started_at := v_processing_started_at r;
     v_processing_completed_at := v_processing_completed_at r; v_error_message
     := v_error_message r; v_duration := v_duration r; v_frame_count :=
     v_frame_count r; v_fps := x; v_resolution := v_resolution r; v_file_size
     := v_file_size r; v_minio_bucket := v_minio_bucket r; v_minio_key :=
     v_minio_key r; v_processed_minio_key := v_processed_minio_key r |}.

Definition set_v_resolution (x : string) (r : Video) : Video :=
  {| v_id := v_id r; v_title := v_title r; v_video_file := v_video_file r;
     v_uploaded_at := v_uploaded_at r; v_status := v_status r;
     v_processing_started_at := v_processing_started_at r;
     v_processing_completed_at := v_processing_completed_at r; v_error_message
     := v_error_message r; v_duration := v_duration r; v_frame_count :=
     v_frame_count r; v_fps := v_fps r; v_resolution := x; v_file_size :=
     v_file_size r; v_minio_bucket := v_minio_bucket r; v_minio_key :=
     v_minio_key r; v_processed_minio_key := v_processed_minio_key r |}.

Definition set_v_file_size (x : option Z) (r : Video) : Video :=
  {| v_id := v_id r; v_title := v_title r; v_video_file := v_video_file r;
     v_uploaded_at := v_uploaded_at r; v_status := v_status r;
     v_processing_started_at := v_processing_started_at r;
     v_processing_completed_at := v_processing_completed_at r; v_error_message
     := v_error_message r; v_duration := v_duration r; v_frame_count :=
     v_frame_count r; v_fps := v_fps r; v_resolution := v_resolution r;
     v_file_size := x; v_minio_bucket := v_minio_bucket r; v_minio_key :=
     v_minio_key r; v_processed_minio_key := v_processed_minio_key r |}.

Definition set_v_processed_minio_key (x : string) (r : Video) : Video :=
  {| v_id := v_id r; v_title := v_title r; v_video_file := v_video_file r;
     v_uploaded_at := v_uploaded_at r; v_status := v_status r;
     v_processing_started_at := v_processing_started_at r;
     v_processing_completed_at := v_processing_completed_at r; v_error_message
     := v_error_message r; v_duration := v_duration r; v_frame_count :=
     v_frame_count r; v_fps := v_fps r; v_resolution := v_resolution r;
     v_file_size := v_file_size r; v_minio_bucket := v_minio_bucket r;
     v_minio_key := v_minio_key r; v_processed_minio_key := x |}.

(** [models.ProcessingTask] *)
Record ProcessingTask : Type := MkTask {
  t_id : string;
  t_video : string;
  t_task_type : TaskType;
  t_celery_task_id : string;
  t_status : TaskStatus;
  t_created_at : Z;
  t_started_at : option Z;
  t_completed_at : option Z;
  t_error_message : string;
  t_progress : Z
}.

Definition set_t_status (x : TaskStatus) (r : ProcessingTask) : ProcessingTask :=
  {| t_id := t_id r; t_video := t_video r; t_task_type := t_task_type r;
     t_celery_task_id := t_celery_task_id r; t_status := x; t_created_at :=
     t_created_at r; t_started_at := t_started_at r; t_completed_at :=
     t_completed_at r; t_error_message := t_error_message r; t_progress :=
     t_progress r |}.

Definition set_t_completed_at (x : option Z) (r : ProcessingTask) : ProcessingTask :=
  {| t_id := t_id r; t_video := t_video r; t_task_type := t_task_type r;
     t_celery_task_id := t_celery_task_id r; t_status := t_status r;
     t_created_at := t_created_at r; t_started_at := t_started_at r;
     t_completed_at := x; t_error_message := t_error_message r; t_progress :=
     t_progress r |}.

Definition set_t_error_message (x : string) (r : ProcessingTask) : ProcessingTask :=
  {| t_id := t_id r; t_video := t_video r; t_task_type := t_task_type r;
     t_celery_task_id := t_celery_task_id r; t_status := t_status r;
     t_created_at := t_created_at r; t_started_at := t_started_at r;
     t_completed_at := t_completed_at r; t_error_message := x; t_progress :=
     t_progress r |}.

Definition set_t_progress (x : Z) (r : ProcessingTask) : ProcessingTask :=
  {| t_id := t_id r; t_video := t_video r; t_task_type := t_task_type r;
     t_celery_task_id := t_celery_task_id r; t_status := t_status r;
     t_created_at := t_created_at r; t_started_at := t_started_at r;
     t_completed_at := t_completed_at r; t_error_message := t_error_message r;
     t_progress := x |}.

(** [models.ProcessedFrame]; the pair [(pf_video, pf_frame_number)] is
    [unique_together]. *)
Record ProcessedFrame : Type := MkProcessedFrame {
  pf_video : string;
  pf_frame_number : Z;
  pf_objects_detected : Z;
  pf_processing_time : option Q;
  pf_minio_key : string
}.

(** [models.DetectedObject] *)
Record DetectedObject : Type := MkDetectedObject {
  do_video : string;
  do_frame_number : Z;
  do_object_class : string;
  do_confidence : Q;
  do_bbox_x : Q;
  do_bbox_y : Q;
  do_bbox_width : Q;
  do_bbox_height : Q;
  do_detected_at : Z
}.

(** ** Values exchanged with the detector and the frame processor *)

Record BBox : Type := MkBBox {
  bb_x : Q; bb_y : Q; bb_width : Q; bb_height : Q
}.

(** One entry of the [detections] list built by [_process_frame]. *)
Record Detection : Type := MkDetection {
  det_class : string; det_confidence : Q; det_bbox : BBox
}.

(** A decoded frame.  Pixel buffers are opaque; [Annotated f ds] is the
    buffer [f] after [_draw_detections] drew the boxes and labels of [ds]. *)
Inductive Frame : Type :=
  | RawFrame (pixels : N)
  | Annotated (base : Frame) (overlays : list Detection).

(** One element of [result.boxes]: [box.xyxy[0]], [int(box.cls[0])] and
    [float(box.conf[0])]. *)
Record RawBox : Type := MkRawBox {
  box_x1 : Q; box_y1 : Q; box_x2 : Q; box_y2 : Q;
  box_cls : Z; box_conf : Q
}.

(** The dictionary returned by [_process_frame]. *)
Record FrameResult : Type := MkFrameResult {
  fr_frame_number : Z;
  fr_objects : list Detection;
  fr_processing_time : Q;
  fr_object_count : Z
}.

(** [results['video_metadata']] of [process_video]. *)
Record StreamMetadata : Type := MkStreamMetadata {
  sm_fps : Q; sm_frame_count : Z; sm_width : Z; sm_height : Z;
  sm_duration : PyNum
}.

(** The dictionary returned by [process_video]. *)
Record Results : Type := MkResults {
  res_total_frames : Z;
  res_processed_frames : Z;
  res_detections : list FrameResult;
  res_processing_time : PyNum;
  res_video_metadata : StreamMetadata
}.

(** The dictionary returned by [YOLOProcessor.get_video_metadata]. *)
Record VideoMetadata : Type := MkVideoMetadata {
  md_fps : Q; md_frame_count : Z; md_width : Z; md_height : Z;
  md_duration : PyNum; md_resolution : string; md_file_size : Z
}.

(** A key of a Python dictionary: a string, or an integer (which
    [json.dump] accepts and writes as a string). *)
Inductive jkey : Type :=
  | KStr (s : string)
  | KInt (z : Z).

(** A structured document: the Python values [json.dump] accepts. *)
#[local] Unset Elimination Schemes.
Inductive json : Type :=
  | JNull
  | JBool (b : bool)
  | JInt (z : Z)
  | JFloat (q : Q)
  | JStr (s : string)
  | JArr (items : list json)
  | JObj (members : list (jkey * json)).
#[local] Set Elimination Schemes.

(** ** The world the jobs run in *)

(** Contents of a local file or of a stored object. *)
Inductive File : Type :=
  | FText (text : string)
  | FVideo (frames : list Frame)     (* written through a [cv2.VideoWriter] *)
  | FImage (frame : Frame)           (* written by [cv2.imwrite] *)
  | FBlob (size : Z).                (* an uploaded container, opaque *)

(** What OpenCV reports for an opened container: the four properties read
    through [cap.get], the outcomes of successive [cap.read()] calls
    ([None] is [ret = False]; past the end of the list every read fails),
    and the outcome of [cap.set(CAP_PROP_POS_FRAMES, n); cap.read()]. *)
Record VideoFile : Type := MkVideoFile {
  vf_fps : Q;
  vf_frame_count : Z;
  vf_width : Z;
  vf_height : Z;
  vf_reads : list (option Frame);
  vf_seek : Z → option Frame
}.

Record State : Type := MkState {
  st_videos : gmap string Video;
  st_tasks : gmap string ProcessingTask;
  st_frames : list ProcessedFrame;
  st_objects : list DetectedObject;
  st_fs : gmap string File;
  st_store : gmap (string * string) File;
  st_ticks : nat;
  st_caps : nat;
  st_writers : nat;
  st_progress_log : list (string * Z);
  st_video : option Video;
  st_task_record : option ProcessingTask
}.

Definition upd_st_videos (f : (gmap string Video) → (gmap string Video)) (r : State) : State :=
  {| st_videos := f (st_videos r); st_tasks := st_tasks r; st_frames :=
     st_frames r; st_objects := st_objects r; st_fs := st_fs r; st_store :=
     st_store r; st_ticks := st_ticks r; st_caps := st_caps r; st_writers :=
     st_writers r; st_progress_log := st_progress_log r; st_video := st_video
     r; st_task_record := st_task_record r |}.

Definition upd_st_tasks (f : (gmap string ProcessingTask) → (gmap string ProcessingTask)) (r : State) : State :=
  {| st_videos := st_videos r; st_tasks := f (st_tasks r); st_frames :=
     st_frames r; st_objects := st_objects r; st_fs := st_fs r; st_store :=
     st_store r; st_ticks := st_ticks r; st_caps := st_caps r; st_writers :=
     st_writers r; st_progress_log := st_progress_log r; st_video := st_video
     r; st_task_record := st_task_record r |}.

Definition upd_st_frames (f : (list ProcessedFrame) → (list ProcessedFrame)) (r : State) : State :=
  {| st_videos := st_videos r; st_tasks := st_tasks r; st_frames := f
     (st_frames r); st_objects := st_objects r; st_fs := st_fs r; st_store :=
     st_store r; st_ticks := st_ticks r; st_caps := st_caps r; st_writers :=
     st_writers r; st_progress_log := st_progress_log r; st_video := st_video
     r; st_task_record := st_task_record r |}.

Definition upd_st_objects (f : (list DetectedObject) → (list DetectedObject)) (r : State) : State :=
  {| st_videos := st_videos r; st_tasks := st_tasks r; st_frames := st_frames
     r; st_objects := f (st_objects r); st_fs := st_fs r; st_store := st_store
     r; st_ticks := st_ticks r; st_caps := st_caps r; st_writers := st_writers
     r; st_progress_log := st_progress_log r; st_video := st_video r;
     st_task_record := st_task_record r |}.

Definition upd_st_fs (f : (gmap string File) → (gmap string File)) (r : State) : State :=
  {| st_videos := st_videos r; st_tasks := st_tasks r; st_frames := st_frames
     r; st_objects := st_objects r; st_fs := f (st_fs r); st_store := st_store
     r; st_ticks := st_ticks r; st_caps := st_caps r; st_writers := st_writers
     r; st_progress_log := st_progress_log r; st_video := st_video r;
     st_task_record := st_task_record r |}.

Definition upd_st_store (f : (gmap (string * string) File) → (gmap (string * string) File)) (r : State) : State :=
  {| st_videos := st_videos r; st_tasks := st_tasks r; st_frames := st_frames
     r; st_objects := st_objects r; st_fs := st_fs r; st_store := f (st_store
     r); st_ticks := st_ticks r; st_caps := st_caps r; st_writers :=
     st_writers r; st_progress_log := st_progress_log r; st_video := st_video
     r; st_task_record := st_task_record r |}.

Definition upd_st_ticks (f : nat → nat) (r : State) : State :=
  {| st_videos := st_videos r; st_tasks := st_tasks r; st_frames := st_frames
     r; st_objects := st_objects r; st_fs := st_fs r; st_store := st_store r;
     st_ticks := f (st_ticks r); st_caps := st_caps r; st_writers :=
     st_writers r; st_progress_log := st_progress_log r; st_video := st_video
     r; st_task_record := st_task_record r |}.

Definition upd_st_caps (f : nat → nat) (r : State) : State :=
  {| st_videos := st_videos r; st_tasks := st_tasks r; st_frames := st_frames
     r; st_objects := st_objects r; st_fs := st_fs r; st_store := st_store r;
     st_ticks := st_ticks r; st_caps := f (st_caps r); st_writers :=
     st_writers r; st_progress_log := st_progress_log r; st_video := st_video
     r; st_task_record := st_task_record r |}.

Definition upd_st_writers (f : nat → nat) (r : State) : State :=
  {| st_videos := st_videos r; st_tasks := st_tasks r; st_frames := st_frames
     r; st_objects := st_objects r; st_fs := st_fs r; st_store := st_store r;
     st_ticks := st_ticks r; st_caps := st_caps r; st_writers := f (st_writers
     r); st_progress_log := st_progress_log r; st_video := st_video r;
     st_task_record := st_task_record r |}.

Definition upd_st_progress_log (f : (list (string * Z)) → (list (string * Z))) (r : State) : State :=
  {| st_videos := st_videos r; st_tasks := st_tasks r; st_frames := st_frames
     r; st_objects := st_objects r; st_fs := st_fs r; st_store := st_store r;
     st_ticks := st_ticks r; st_caps := st_caps r; st_writers := st_writers r;
     st_progress_log := f (st_progress_log r); st_video := st_video r;
     st_task_record := st_task_record r |}.

Definition upd_st_video (f : (option Video) → (option Video)) (r : State) : State :=
  {| st_videos := st_videos r; st_tasks := st_tasks r; st_frames := st_frames
     r; st_objects := st_objects r; st_fs := st_fs r; st_store := st_store r;
     st_ticks := st_ticks r; st_caps := st_caps r; st_writers := st_writers r;
     st_progress_log := st_progress_log r; st_video := f (st_video r);
     st_task_record := st_task_record r |}.

Definition upd_st_task_record (f : (option ProcessingTask) → (option ProcessingTask)) (r : State) : State :=
  {| st_videos := st_videos r; st_tasks := st_tasks r; st_frames := st_frames
     r; st_objects := st_objects r; st_fs := st_fs r; st_store := st_store r;
     st_ticks := st_ticks r; st_caps := st_caps r; st_writers := st_writers r;
     st_progress_log := st_progress_log r; st_video := st_video r;
     st_task_record := f (st_task_record r) |}.

(** The uniqueness constraints of the tables the jobs insert into. *)
Inductive UniqueConstraint : Type :=
  | TaskId                (* primary key of [ProcessingTask] *)
  | TaskCeleryId          (* [celery_task_id], [unique=True] *)
  | FrameVideoNumber.     (* [unique_together] of [ProcessedFrame] *)

(** Capabilities supplied from outside the repository. *)
Record Env : Type := MkEnv {
  (* clocks and randomness, indexed by the number of draws made so far *)
  now : nat → Z;                       (* [timezone.now()] *)
  wall : nat → Q;                      (* [time.time()] *)
  uuid4 : nat → N;                     (* [uuid.uuid4()], 128 bits *)
  (* Django settings *)
  media_root : string;                 (* [settings.MEDIA_ROOT] *)
  default_bucket : string;             (* [settings.MINIO_BUCKET_NAME] *)
  (* the database *)
  uuid_invalid : string → option string;
                                       (* the text of the [ValidationError] for
                                          an id that [uuid.UUID] rejects *)
  unique_violation : list UniqueConstraint → string;
                                       (* the text of the [IntegrityError] for
                                          the violated constraints *)
  (* the detector *)
  yolo_load : option Exn;              (* [YOLO(model_path)] may raise *)
  model_call : Frame → outcome (list (option (list RawBox)));
  model_names : Z → option string;     (* [self.model.names] *)
  (* OpenCV and the file system *)
  cv_open : string → option VideoFile; (* [None]: [isOpened()] is false *)
  writer_opens : string → bool;        (* whether a [cv2.VideoWriter] on the
                                          path opens; one that does not is
                                          silent about it *)
  makedirs_fault : gmap string File → string → option Exn;
                                       (* [os.makedirs] of a directory not
                                          known to exist may raise *)
  getsize : File → Z;                  (* [os.path.getsize] *)
  tmp_name : gmap string File → string → string;
                                       (* name picked by [NamedTemporaryFile] *)
  tmp_name_absolute : ∀ fs suffix,     (* ... in [tempfile.gettempdir()] *)
    PosixPath.startswith_sep (tmp_name fs suffix) = true;
  (* the S3 transport *)
  minio_connect : option Exn;          (* [MinIOClient()] may raise *)
  s3_put_fault : string → string → option Exn;
  s3_get_fault : string → string → option Exn;
  (* the JSON codec *)
  json_dump : json → outcome string;   (* [json.dump(m, f, indent=2)] *)
  json_load : string → outcome json;   (* [json.load(f)] *)
  (* floating-point rounding *)
  rnd64 : Q → Q;
  rnd32 : Q → Q
}.

(** What the proofs need of a rounding operator: it is monotone and leaves
    small integers unchanged, as round-to-nearest does in both formats. *)
Record RoundingOK (rnd : Q → Q) : Prop := MkRoundingOK {
  rnd_mono : ∀ x y : Q, (x <= y)%Q → (rnd x <= rnd y)%Q;
  rnd_small_int : ∀ z : Z, -16777216 <= z <= 16777216 →
                           (rnd (inject_Z z) == inject_Z z)%Q
}.

(** ** The monad of effectful Python code

    A computation maps the state before to an outcome and the state after;
    the effects made before an exception is raised stay in place. *)
Definition M (A : Type) : Type := State → outcome A * State.

Global Instance M_ret : MRet M := λ A (a : A) (s : State), (Ret a, s).

Global Instance M_bind : MBind M := λ A B (f : A → M B) (m : M A) (s : State),
  match m s with
  | (Ret a, s') => f a s'
  | (Raise e, s') => (Raise e, s')
  end.

Global Instance M_throw : MThrow Exn M := λ A (e : Exn) (s : State), (Raise e, s).

Definition raise {A} (c : ExnClass) (msg : string) : M A :=
  mthrow (MkExn c msg).

Definition gets {A} (f : State → A) : M A := λ s, (Ret (f s), s).

Definition modify (f : State → State) : M unit := λ s, (Ret tt, f s).

Definition lift {A} (o : outcome A) : M A := λ s, (o, s).

(** [try: body  finally: fin] *)
Definition try_finally {A} (body : M A) (fin : M unit) : M A := λ s,
  let '(r, s1) := body s in
  match fin s1 with
  | (Ret _, s2) => (r, s2)
  | (Raise e, s2) => (Raise e, s2)
  end.

(** [try: body  except ...: handler] *)
Definition try_except {A} (body : M A) (handler : Exn → M A) : M A := λ s,
  match body s with
  | (Ret a, s1) => (Ret a, s1)
  | (Raise e, s1) => handler e s1
  end.

(** Run [body] and hand its outcome to the continuation. *)
Definition attempt {A} (body : M A) : M (outcome A) := λ s,
  let '(r, s1) := body s in (Ret r, s1).

(** [for x in xs: body x] *)
Fixpoint for_each {A} (xs : list A) (body : A → M unit) : M unit :=
  match xs with
  | [] => mret tt
  | x :: rest => body x ;; for_each rest body
  end.

(** [for i, x in enumerate(xs): body i x], counting from [i]. *)
Fixpoint for_enumerate {A} (i : Z) (xs : list A) (body : Z → A → M unit) : M unit :=
  match xs with
  | [] => mret tt
  | x :: rest => body i x ;; for_enumerate (i + 1) rest body
  end.

(** Exceptions in pure code: [outcome] is a monad as well. *)
Global Instance outcome_ret : MRet outcome := λ A (a : A), Ret a.
Global Instance outcome_bind : MBind outcome := λ A B (f : A → outcome B) (o : outcome A),
  match o with Ret a => f a | Raise e => Raise e end.

(** [x < y] on floats. *)
Definition Qltb (x y : Q) : bool := negb (Qle_bool y x).

(** [int(x)] for a float [x]: truncation toward zero. *)
Definition py_int (x : Q) : Z := Z.quot (Qnum x) (Z.pos (Qden x)).

(** Truth value of an optional string: [None] and the empty string are false. *)
Definition truthy (o : option string) : bool :=
  match o with
  | Some s => negb (bool_decide (s = ""))
  | None => false
  end.

(** Truth value of a list. *)
Definition nonempty {A} (l : list A) : bool :=
  match l with [] => false | _ :: _ => true end.

(** [o or d] for an optional string [o]. *)
Definition py_or (o : option string) (d : string) : string :=
  match o with
  | Some s => if bool_decide (s = "") then d else s
  | None => d
  end.

Section Primitives.
Context (E : Env).

(** *** Clocks and randomness *)

Definition tick : M nat := λ s, (Ret (st_ticks s), upd_st_ticks S s).
Definition timezone_now : M Z := n ← tick; mret (now E n).
Definition time_time : M Q := n ← tick; mret (wall E n).
Definition uuid_uuid4 : M N := n ← tick; mret (uuid4 E n).

(** *** Files *)

Definition os_path_exists (p : string) : M bool :=
  gets (λ s, bool_decide (is_Some (st_fs s !! p))).

Definition write_file (p : string) (f : File) : M unit :=
  modify (upd_st_fs (<[p := f]>)).

Definition os_unlink (p : string) : M unit :=
  ex ← os_path_exists p;
  if (ex : bool) then modify (upd_st_fs (delete p))
  else raise FileNotFoundError ("No such file or directory: " +:+ p).

(** Whether some file lies directly in the directory [dir]. *)
Definition holds_file (fs : gmap string File) (dir : string) : bool :=
  bool_decide (map_Exists (λ p _, PosixPath.dirname p = dir) fs).

(** [os.makedirs(p, exist_ok=True)].  The empty path cannot be created;
    a directory that holds a file exists already, which [exist_ok]
    accepts; for any other path the outcome is the environment's.
    Directories are not part of the state. *)
Definition os_makedirs (p : string) : M unit :=
  if bool_decide (p = "") then
    raise FileNotFoundError "[Errno 2] No such file or directory: ''"
  else
    fs ← gets st_fs;
    if holds_file fs p then mret tt
    else match makedirs_fault E fs p with
         | Some e => mthrow e
         | None => mret tt
         end.

Definition os_path_getsize (p : string) : M Z :=
  f ← gets (λ s, st_fs s !! p);
  match f with
  | Some file => mret (getsize E file)
  | None => raise FileNotFoundError ("No such file or directory: " +:+ p)
  end.

(** [tempfile.NamedTemporaryFile(suffix=..., delete=False)]: a new, empty
    file; the result is [f.name]. *)
Definition NamedTemporaryFile (suffix : string) : M string :=
  p ← gets (λ s, tmp_name E (st_fs s) suffix);
  write_file p (FText "");;
  mret p.

(** *** OpenCV handles

    [st_caps] and [st_writers] count the capture and writer handles the
    process holds open. *)

Definition cv2_VideoCapture (path : string) : M (option VideoFile) :=
  match cv_open E path with
  | Some vf => modify (upd_st_caps S);; mret (Some vf)
  | None => mret None
  end.

Definition cap_release (cap : option VideoFile) : M unit :=
  match cap with
  | Some _ => modify (upd_st_caps Nat.pred)
  | None => mret tt
  end.

(** [cv2.VideoWriter(path, fourcc, fps, size)]: a writer that cannot
    open the path is returned all the same, and holds no handle. *)
Definition cv2_VideoWriter (path : string) : M unit :=
  if writer_opens E path
  then modify (upd_st_writers S);; write_file path (FVideo [])
  else mret tt.

Definition append_frame (frame : Frame) (f : File) : File :=
  match f with
  | FVideo frames => FVideo (frames ++ [frame])%list
  | other => other
  end.

(** [video_writer.write(frame)]: nothing happens on a writer that did
    not open. *)
Definition writer_write (path : string) (frame : Frame) : M unit :=
  if writer_opens E path
  then modify (upd_st_fs (alter (append_frame frame) path))
  else mret tt.

Definition writer_release (path : string) : M unit :=
  if writer_opens E path then modify (upd_st_writers Nat.pred) else mret tt.

Definition cv2_imwrite (path : string) (frame : Frame) : M unit :=
  write_file path (FImage frame).

(** *** Arithmetic *)

(** [a / b] for an int [a] and a float [b]. *)
Definition truediv (a : Z) (b : Q) : outcome Q :=
  if Qeq_bool b 0 then Raise (MkExn ZeroDivisionError "float division by zero")
  else Ret (rnd64 E (inject_Z a / b)).

(** [a % b] for ints. *)
Definition py_mod (a b : Z) : outcome Z :=
  if decide (b = 0) then Raise (MkExn ZeroDivisionError "integer modulo by zero")
  else Ret (a mod b).

(** [frame_count / fps if fps > 0 else 0] (lines 77 and 262). *)
Definition duration_of (frame_count : Z) (fps : Q) : outcome PyNum :=
  if Qltb 0 fps then q ← truediv frame_count fps; mret (PFloat q)
  else mret (PInt 0).

End Primitives.

(** ** [yolo_processor.py] *)

Module YOLOProcessor.
Section Methods.
Context (E : Env).

(** [YOLOProcessor.__init__]: a failure to load the model is logged and
    raised again. *)
Definition init : M unit :=
  match yolo_load E with
  | Some e => mthrow e
  | None => mret tt
  end.

(** The body of the [for box in boxes] loop. *)
Definition box_to_detection (b : RawBox) : outcome Detection :=
  match model_names E (box_cls b) with
  | None => Raise (MkExn KeyError (pretty (box_cls b)))
  | Some class_name =>
      Ret {| det_class := class_name;
             det_confidence := box_conf b;
             det_bbox := {| bb_x := box_x1 b;
                            bb_y := box_y1 b;
                            bb_width := rnd32 E (box_x2 b - box_x1 b);
                            bb_height := rnd32 E (box_y2 b - box_y1 b) |} |}
  end.

Fixpoint boxes_loop (boxes : list RawBox) (detections : list Detection)
  : outcome (list Detection) :=
  match boxes with
  | [] => mret detections
  | b :: rest => d ← box_to_detection b; boxes_loop rest (detections ++ [d])%list
  end.

Fixpoint results_loop (results : list (option (list RawBox)))
    (detections : list Detection) : outcome (list Detection) :=
  match results with
  | [] => mret detections
  | None :: rest => results_loop rest detections
  | Some boxes :: rest =>
      detections' ← boxes_loop boxes detections; results_loop rest detections'
  end.

Definition _process_frame (frame : Frame) (frame_number : Z) : M FrameResult :=
  start_time ← time_time E;
  results ← lift (model_call E frame);
  detections ← lift (results_loop results []);
  end_time ← time_time E;
  mret {| fr_frame_number := frame_number;
          fr_objects := detections;
          fr_processing_time := rnd64 E (end_time - start_time);
          fr_object_count := Z.of_nat (length detections) |}.

Definition _draw_detections (frame : Frame) (detections : list Detection) : Frame :=
  Annotated frame detections.

Definition add_frame_result (fr : FrameResult) (r : Results) : Results :=
  {| res_total_frames := res_total_frames r;
     res_processed_frames := res_processed_frames r + 1;
     res_detections := (res_detections r ++ [fr])%list;
     res_processing_time := res_processing_time r;
     res_video_metadata := res_video_metadata r |}.

Definition set_processing_time (t : PyNum) (r : Results) : Results :=
  {| res_total_frames := res_total_frames r;
     res_processed_frames := res_processed_frames r;
     res_detections := res_detections r;
     res_processing_time := t;
     res_video_metadata := res_video_metadata r |}.

(** The [while True] loop of [process_video] over the outcomes of
    [cap.read()]. *)
Fixpoint process_loop (output_path : option string) (frame_interval : Z)
    (reads : list (option Frame)) (frame_number : Z) (results : Results)
  : M Results :=
  match reads with
  | [] => mret results
  | None :: _ => mret results
  | Some frame :: rest =>
      r ← lift (py_mod frame_number frame_interval);
      '(results, frame) ←
        (if r =? 0 then
           frame_results ← _process_frame frame frame_number;
           mret (add_frame_result frame_results results,
                 if truthy output_path && nonempty (fr_objects frame_results)
                 then _draw_detections frame (fr_objects frame_results)
                 else frame)
         else mret (results, frame));
      (if truthy output_path
       then writer_write E (default "" output_path) frame
       else mret tt);;
      process_loop output_path frame_interval rest (frame_number + 1) results
  end.

Definition process_video (video_path : string) (output_path : option string)
    (frame_interval : Z) : M Results :=
  ex ← os_path_exists video_path;
  if negb ex then raise FileNotFoundError ("Video file not found: " +:+ video_path)
  else
    cap ← cv2_VideoCapture E video_path;
    match cap with
    | None => raise ValueError ("Could not open video file: " +:+ video_path)
    | Some vf =>
        let fps := vf_fps vf in
        let frame_count := vf_frame_count vf in
        let width := vf_width vf in
        let height := vf_height vf in
        (if truthy output_path
         then cv2_VideoWriter E (default "" output_path)
         else mret tt);;
        duration ← lift (duration_of E frame_count fps);
        let results :=
          {| res_total_frames := frame_count;
             res_processed_frames := 0;
             res_detections := [];
             res_processing_time := PInt 0;
             res_video_metadata :=
               {| sm_fps := fps; sm_frame_count := frame_count;
                  sm_width := width; sm_height := height;
                  sm_duration := duration |} |} in
        start_time ← time_time E;
        results ← try_finally
          (process_loop output_path frame_interval (vf_reads vf) 0 results)
          (cap_release cap;;
           if truthy output_path then writer_release E (default "" output_path)
           else mret tt);
        end_time ← time_time E;
        mret (set_processing_time (PFloat (rnd64 E (end_time - start_time))) results)
    end.

(** [os.path.join(output_dir, f"frame_{frame_number:06d}.jpg")] *)
Definition frame_path (output_dir : string) (frame_number : Z) : string :=
  PosixPath.join output_dir ("frame_" +:+ format_06d frame_number +:+ ".jpg").

Fixpoint extract_loop (output_dir : string) (frame_interval : Z)
    (reads : list (option Frame)) (frame_number : Z) (frame_paths : list string)
  : M (list string) :=
  match reads with
  | [] => mret frame_paths
  | None :: _ => mret frame_paths
  | Some frame :: rest =>
      r ← lift (py_mod frame_number frame_interval);
      frame_paths ←
        (if r =? 0 then
           let p := frame_path output_dir frame_number in
           cv2_imwrite p frame;;
           mret (frame_paths ++ [p])%list
         else mret frame_paths);
      extract_loop output_dir frame_interval rest (frame_number + 1) frame_paths
  end.

Definition extract_frames (video_path output_dir : string) (frame_interval : Z)
  : M (list string) :=
  ex ← os_path_exists video_path;
  if negb ex then raise FileNotFoundError ("Video file not found: " +:+ video_path)
  else
    os_makedirs E output_dir;;
    cap ← cv2_VideoCapture E video_path;
    match cap with
    | None => raise ValueError ("Could not open video file: " +:+ video_path)
    | Some vf =>
        try_finally
          (extract_loop output_dir frame_interval (vf_reads vf) 0 [])
          (cap_release cap)
    end.

Definition get_video_metadata (video_path : string) : M VideoMetadata :=
  ex ← os_path_exists video_path;
  if negb ex then raise FileNotFoundError ("Video file not found: " +:+ video_path)
  else
    cap ← cv2_VideoCapture E video_path;
    match cap with
    | None => raise ValueError ("Could not open video file: " +:+ video_path)
    | Some vf =>
        try_finally
          (let fps := vf_fps vf in
           let frame_count := vf_frame_count vf in
           let width := vf_width vf in
           let height := vf_height vf in
           duration ← lift (duration_of E frame_count fps);
           file_size ← os_path_getsize E video_path;
           mret {| md_fps := fps; md_frame_count := frame_count;
                   md_width := width; md_height := height;
                   md_duration := duration;
                   md_resolution := pretty width +:+ "x" +:+ pretty height;
                   md_file_size := file_size |})
          (cap_release cap)
    end.

End Methods.
End YOLOProcessor.

(** ** [minio_client.py] *)

Module MinIOClient.
Section Methods.
Context (E : Env).

(** [MinIOClient.__init__]: building the client and provisioning the
    buckets; an [S3Error] while provisioning is logged and swallowed. *)
Definition init : M unit :=
  match minio_connect E with
  | Some e => if decide (exn_class e = S3Error) then mret tt else mthrow e
  | None => mret tt
  end.

(** [self.client.fput_object(bucket, name, file_path)] *)
Definition fput_object (bucket_name object_name file_path : string) : M unit :=
  match s3_put_fault E bucket_name object_name with
  | Some e => mthrow e
  | None =>
      f ← gets (λ s, st_fs s !! file_path);
      match f with
      | Some file => modify (upd_st_store (<[(bucket_name, object_name) := file]>))
      | None => raise FileNotFoundError ("No such file or directory: " +:+ file_path)
      end
  end.

(** [self.client.fget_object(bucket, name, file_path)] *)
Definition fget_object (bucket_name object_name file_path : string) : M unit :=
  match s3_get_fault E bucket_name object_name with
  | Some e => mthrow e
  | None =>
      o ← gets (λ s, st_store s !! (bucket_name, object_name));
      match o with
      | Some file => write_file file_path file
      | None => raise S3Error "NoSuchKey"
      end
  end.

Definition upload_file (file_path : string) (bucket_name object_name : option string)
  : M string :=
  ex ← os_path_exists file_path;
  if negb ex then raise FileNotFoundError ("File not found: " +:+ file_path)
  else
    let bucket_name := py_or bucket_name (default_bucket E) in
    let object_name := py_or object_name (PosixPath.basename file_path) in
    try_except
      (object_name ←
         (if bool_decide (object_name = PosixPath.basename file_path) then
            let '(name, ext) := PosixPath.splitext object_name in
            u ← uuid_uuid4 E;
            mret (name +:+ "_" +:+ PosixPath.take 8 (uuid_hex u) +:+ ext)
          else mret object_name);
       fput_object bucket_name object_name file_path;;
       mret (bucket_name +:+ "/" +:+ object_name))
      (λ e, mthrow e).               (* except S3Error: log, raise *)

Definition download_file (bucket_name object_name file_path : string) : M bool :=
  try_except
    (os_makedirs E (PosixPath.dirname file_path);;
     fget_object bucket_name object_name file_path;;
     mret true)
    (λ e, if decide (exn_class e = S3Error) then mret false else mthrow e).

Definition metadata_object_name (video_id : string) : string :=
  "metadata/" +:+ video_id +:+ ".json".

Definition upload_video_metadata (video_id : string) (metadata : json) : M string :=
  temp_path ← NamedTemporaryFile E ".json";
  text ← lift (json_dump E metadata);
  write_file temp_path (FText text);;
  try_finally
    (let object_name := metadata_object_name video_id in
     upload_file temp_path (Some (default_bucket E)) (Some object_name))
    (os_unlink temp_path).

(** [with open(temp_path, 'r') as f: json.load(f)] *)
Definition load_json_file (path : string) : M json :=
  f ← gets (λ s, st_fs s !! path);
  match f with
  | Some (FText text) => lift (json_load E text)
  | Some _ => raise ValueError "not a text file"
  | None => raise FileNotFoundError ("No such file or directory: " +:+ path)
  end.

(** The [finally] clause unlinks the staging file only when [temp_path]
    is bound, that is when [NamedTemporaryFile] returned. *)
Definition get_video_metadata (video_id : string) : M (option json) :=
  let object_name := metadata_object_name video_id in
  created ← attempt (NamedTemporaryFile E "");
  match created with
  | Raise _ => mret None
  | Ret temp_path =>
      try_finally
        (try_except
           (ok ← download_file (default_bucket E) object_name temp_path;
            if (ok : bool) then
              metadata ← load_json_file temp_path;
              mret (Some metadata)
            else mret None)
           (λ _, mret None))
        (os_unlink temp_path)
  end.

End Methods.
End MinIOClient.

(** ** The Django ORM calls used by the jobs *)

Section ORM.
Context (E : Env).

(** [Video.objects.get(id=video_id)].  [st_videos] maps the texts that
    denote the id of a stored video to that video.  The primary key is a
    [UUIDField]: a text that [uuid.UUID] rejects does not reach the
    database, the lookup raises [ValidationError]. *)
Definition Video_objects_get (video_id : string) : M Video :=
  v ← gets (λ s, st_videos s !! video_id);
  match v with
  | Some video => mret video
  | None =>
      match uuid_invalid E video_id with
      | Some text => raise CoreValidationError text
      | None => raise DoesNotExist "Video matching query does not exist."
      end
  end.

(** [video.save()]: the row with the object's primary key is replaced, or
    inserted when there is none. *)
Definition Video_save (v : Video) : M unit :=
  modify (upd_st_videos (<[v_id v := v]>)).

Definition celery_id_taken (celery_task_id : string)
    (tasks : gmap string ProcessingTask) : bool :=
  bool_decide (map_Exists (λ _ t, t_celery_task_id t = celery_task_id) tasks).

(** Every write of a [ProcessingTask] row is recorded, with the progress
    value it carries, in [st_progress_log]. *)
Definition write_task (t : ProcessingTask) (s : State) : State :=
  upd_st_progress_log (λ l, l ++ [(t_id t, t_progress t)])%list
    (upd_st_tasks (<[t_id t := t]>) s).

(** The constraints an insertion into [ProcessingTask] would violate. *)
Definition task_violations (id celery_task_id : string)
    (tasks : gmap string ProcessingTask) : list UniqueConstraint :=
  ((if bool_decide (is_Some (tasks !! id)) then [TaskId] else [])
   ++ (if celery_id_taken celery_task_id tasks then [TaskCeleryId] else []))%list.

(** [ProcessingTask.objects.create(...)]: the primary key defaults to a
    new UUID, [created_at] is set on insertion, [progress] defaults to 0;
    the insertion fails when the key or the [unique] [celery_task_id] is
    already present. *)
Definition ProcessingTask_objects_create (video : Video) (task_type : TaskType)
    (celery_task_id : string) (status : TaskStatus) (started_at : Z)
  : M ProcessingTask :=
  u ← uuid_uuid4 E;
  created_at ← timezone_now E;
  let row := {| t_id := uuid_hex u; t_video := v_id video;
                t_task_type := task_type;
                t_celery_task_id := celery_task_id;
                t_status := status; t_created_at := created_at;
                t_started_at := Some started_at; t_completed_at := None;
                t_error_message := ""; t_progress := 0 |} in
  tasks ← gets st_tasks;
  match task_violations (t_id row) celery_task_id tasks with
  | [] => modify (write_task row);; mret row
  | violated => raise IntegrityError (unique_violation E violated)
  end.

(** [task_record.save()] *)
Definition ProcessingTask_save (t : ProcessingTask) : M unit :=
  modify (write_task t).

Definition frame_taken (video_id : string) (frame_number : Z)
    (rows : list ProcessedFrame) : bool :=
  existsb (λ r, bool_decide (pf_video r = video_id)
                && bool_decide (pf_frame_number r = frame_number)) rows.

(** [ProcessedFrame.objects.create(...)] *)
Definition ProcessedFrame_objects_create (video : Video) (frame_number : Z)
    (objects_detected : Z) (processing_time : Q) : M ProcessedFrame :=
  let row := {| pf_video := v_id video; pf_frame_number := frame_number;
                pf_objects_detected := objects_detected;
                pf_processing_time := Some processing_time;
                pf_minio_key := "" |} in
  rows ← gets st_frames;
  if frame_taken (v_id video) frame_number rows
  then raise IntegrityError (unique_violation E [FrameVideoNumber])
  else modify (upd_st_frames (λ l, l ++ [row])%list);; mret row.

(** [DetectedObject.objects.create(...)] *)
Definition DetectedObject_objects_create (video : Video) (frame_number : Z)
    (obj : Detection) : M DetectedObject :=
  detected_at ← timezone_now E;
  let row := {| do_video := v_id video; do_frame_number := frame_number;
                do_object_class := det_class obj;
                do_confidence := det_confidence obj;
                do_bbox_x := bb_x (det_bbox obj);
                do_bbox_y := bb_y (det_bbox obj);
                do_bbox_width := bb_width (det_bbox obj);
                do_bbox_height := bb_height (det_bbox obj);
                do_detected_at := detected_at |} in
  modify (upd_st_objects (λ l, l ++ [row])%list);; mret row.

(** *** The local variables [video] and [task_record] of a job

    The failure handlers test ['task_record' in locals()] and
    ['video' in locals()], and the objects are mutated in place, so both
    variables live in the state. *)

Definition new_frame : M unit :=
  modify (λ s, upd_st_task_record (λ _, None) (upd_st_video (λ _, None) s)).

Definition bind_video (v : Video) : M unit :=
  modify (upd_st_video (λ _, Some v)).

Definition bind_task_record (t : ProcessingTask) : M unit :=
  modify (upd_st_task_record (λ _, Some t)).

Definition local_video : M Video :=
  o ← gets st_video;
  match o with
  | Some v => mret v
  | None => raise NameError "local variable 'video' referenced before assignment"
  end.

Definition local_task_record : M ProcessingTask :=
  o ← gets st_task_record;
  match o with
  | Some t => mret t
  | None => raise NameError "local variable 'task_record' referenced before assignment"
  end.

(** [video.<field> = x] *)
Definition assign_video (f : Video → Video) : M unit :=
  modify (upd_st_video (fmap f)).

(** [task_record.<field> = x] *)
Definition assign_task_record (f : ProcessingTask → ProcessingTask) : M unit :=
  modify (upd_st_task_record (fmap f)).

Definition video_save : M unit := v ← local_video; Video_save v.

Definition task_record_save : M unit := t ← local_task_record; ProcessingTask_save t.

End ORM.

(** ** [tasks.py] *)

(** [list(range(start, stop, step))] for a positive [step]. *)
Definition py_range (start stop step : Z) : list Z :=
  (λ i, start + i * step) <$> seqZ 0 ((stop - start + step - 1) `div` step).

(** [a / b] for two ints: the quotient rounded once. *)
Definition truediv_int (E : Env) (a b : Z) : outcome Q :=
  if decide (b = 0) then Raise (MkExn ZeroDivisionError "division by zero")
  else Ret (rnd64 E (inject_Z a / inject_Z b)).

(** The summary dictionaries the jobs return (all with
    ['status': 'success']). *)
Inductive TaskSummary : Type :=
  | ProcessSummary (video_id : string) (processed_frames : Z)
      (total_detections : Z) (processing_time : PyNum)
  | ExtractSummary (video_id : string) (extracted_frames : Z)
      (minio_keys : list string)
  | DetectSummary (video_id : string) (processed_frames : Z)
      (detections_count : Z).

Module Tasks.

(** The names bound at module level in [tasks.py]: the imports of lines
    1 to 9, [logger], and the task functions themselves. *)
Definition tasks_globals : list string :=
  ["os"; "time"; "logging"; "shared_task"; "timezone"; "settings";
   "Video"; "DetectedObject"; "ProcessedFrame"; "ProcessingTask";
   "YOLOProcessor"; "MinIOClient"; "logger";
   "process_video_task"; "extract_frames_task";
   "detect_objects_in_frames_task"; "cleanup_temp_files_task";
   "health_check_task"].

(** Evaluating a name that is neither local nor builtin. *)
Definition global_name (globals : list string) (name : string) : M unit :=
  if bool_decide (name ∈ globals) then mret tt
  else raise NameError ("name '" +:+ name +:+ "' is not defined").

Section Jobs.
Context (E : Env).

(** The statements shared by the three [except Exception as e] handlers:
    [if 'task_record' in locals(): ...]. *)
Definition fail_task_record (e : Exn) : M unit :=
  bound ← gets st_task_record;
  match bound with
  | Some _ =>
      assign_task_record (set_t_status TFailed);;
      t ← timezone_now E;
      assign_task_record (set_t_completed_at (Some t));;
      assign_task_record (set_t_error_message (str_exn e));;
      task_record_save
  | None => mret tt
  end.

(** [if 'video' in locals(): ...] of [process_video_task]. *)
Definition fail_video (e : Exn) : M unit :=
  bound ← gets st_video;
  match bound with
  | Some _ =>
      assign_video (set_v_status VFailed);;
      assign_video (set_v_error_message (str_exn e));;
      video_save
  | None => mret tt
  end.

(** The four statements under [# Update task status]. *)
Definition complete_task_record : M unit :=
  assign_task_record (set_t_status TCompleted);;
  t ← timezone_now E;
  assign_task_record (set_t_completed_at (Some t));;
  assign_task_record (set_t_progress 100);;
  task_record_save.

(** [video = Video.objects.get(id=video_id)] followed by
    [task_record = ProcessingTask.objects.create(...)]. *)
Definition load_and_register (task_type : TaskType) (request_id video_id : string)
  : M Video :=
  video ← Video_objects_get E video_id;
  bind_video video;;
  started_at ← timezone_now E;
  task_record ← ProcessingTask_objects_create E video task_type request_id
                  TRunning started_at;
  bind_task_record task_record;;
  mret video.

(** *** [process_video_task] *)

Definition save_frame_result (video : Video) (frame_result : FrameResult) : M unit :=
  let frame_number := fr_frame_number frame_result in
  ProcessedFrame_objects_create E video frame_number
    (fr_object_count frame_result) (fr_processing_time frame_result);;
  for_each (fr_objects frame_result) (λ obj,
    DetectedObject_objects_create E video frame_number obj;; mret tt).

Definition process_video_task_body (request_id video_id : string) : M TaskSummary :=
  video ← load_and_register VideoProcessing request_id video_id;
  assign_video (set_v_status VProcessing);;
  t ← timezone_now E;
  assign_video (set_v_processing_started_at (Some t));;
  video_save;;
  YOLOProcessor.init E;;
  let video_path := v_video_file video in
  metadata ← YOLOProcessor.get_video_metadata E video_path;
  assign_video (set_v_duration (Some (md_duration metadata)));;
  assign_video (set_v_frame_count (Some (md_frame_count metadata)));;
  assign_video (set_v_fps (Some (md_fps metadata)));;
  assign_video (set_v_resolution (md_resolution metadata));;
  assign_video (set_v_file_size (Some (md_file_size metadata)));;
  video_save;;
  let output_dir := PosixPath.join (media_root E) "processed_videos" in
  os_makedirs E output_dir;;
  let filename := PosixPath.basename video_path in
  let '(name, ext) := PosixPath.splitext filename in
  let output_path := PosixPath.join output_dir ("processed_" +:+ name +:+ ext) in
  results ← YOLOProcessor.process_video E video_path (Some output_path) 1;
  for_each (res_detections results) (save_frame_result video);;
  MinIOClient.init E;;
  ex ← os_path_exists output_path;
  (if (ex : bool) then
     minio_key ← MinIOClient.upload_file E output_path (Some "processed-videos") None;
     assign_video (set_v_processed_minio_key minio_key);;
     video_save
   else mret tt);;
  complete_task_record;;
  assign_video (set_v_status VCompleted);;
  t ← timezone_now E;
  assign_video (set_v_processing_completed_at (Some t));;
  video_save;;
  mret (ProcessSummary video_id (res_processed_frames results)
          (Z.of_nat (length (concat (fr_objects <$> res_detections results))))
          (res_processing_time results)).

Definition process_video_task (request_id video_id : string) : M TaskSummary :=
  new_frame;;
  try_except (process_video_task_body request_id video_id)
    (λ e, if decide (exn_class e = DoesNotExist) then mthrow e
          else fail_task_record e;; fail_video e;; mthrow e).

(** *** [extract_frames_task] *)

Fixpoint upload_frames (frame_paths : list string) (uploaded_keys : list string)
  : M (list string) :=
  match frame_paths with
  | [] => mret uploaded_keys
  | frame_path :: rest =>
      minio_key ← MinIOClient.upload_file E frame_path (Some "extracted-frames") None;
      upload_frames rest (uploaded_keys ++ [minio_key])%list
  end.

Definition extract_frames_task_body (request_id video_id : string)
    (frame_interval : Z) : M TaskSummary :=
  video ← load_and_register FrameExtraction request_id video_id;
  YOLOProcessor.init E;;
  let output_dir :=
    PosixPath.join (PosixPath.join (media_root E) "extracted_frames") video_id in
  os_makedirs E output_dir;;
  frame_paths ← YOLOProcessor.extract_frames E (v_video_file video) output_dir
                  frame_interval;
  MinIOClient.init E;;
  uploaded_keys ← upload_frames frame_paths [];
  complete_task_record;;
  mret (ExtractSummary video_id (Z.of_nat (length frame_paths)) uploaded_keys).

Definition extract_frames_task (request_id video_id : string) (frame_interval : Z)
  : M TaskSummary :=
  new_frame;;
  try_except (extract_frames_task_body request_id video_id frame_interval)
    (λ e, if decide (exn_class e = DoesNotExist) then mthrow e
          else fail_task_record e;; mthrow e).

(** *** [detect_objects_in_frames_task] *)

(** [int((i + 1) / len(frame_numbers) * 100)] *)
Definition progress_of (i len : Z) : outcome Z :=
  q ← truediv_int E (i + 1) len;
  mret (py_int (rnd64 E (q * 100))).

(** [cap.set(cv2.CAP_PROP_POS_FRAMES, frame_number); cap.read()] *)
Definition seek_read (cap : option VideoFile) (frame_number : Z) : option Frame :=
  match cap with
  | Some vf => vf_seek vf frame_number
  | None => None
  end.

Fixpoint save_objects (video : Video) (frame_number : Z) (objs : list Detection)
    (detections_count : Z) : M Z :=
  match objs with
  | [] => mret detections_count
  | obj :: rest =>
      DetectedObject_objects_create E video frame_number obj;;
      save_objects video frame_number rest (detections_count + 1)
  end.

(** The [for i, frame_number in enumerate(frame_numbers)] loop; [len] is
    [len(frame_numbers)] of the whole list. *)
Fixpoint detect_loop (cap : option VideoFile) (video : Video) (len : Z)
    (i : Z) (frame_numbers : list Z) (detections_count : Z) : M Z :=
  match frame_numbers with
  | [] => mret detections_count
  | frame_number :: rest =>
      detections_count ←
        match seek_read cap frame_number with
        | Some frame =>
            frame_result ← YOLOProcessor._process_frame E frame frame_number;
            detections_count ← save_objects video frame_number
                                 (fr_objects frame_result) detections_count;
            progress ← lift (progress_of i len);
            assign_task_record (set_t_progress progress);;
            task_record_save;;
            mret detections_count
        | None => mret detections_count
        end;
      detect_loop cap video len (i + 1) rest detections_count
  end.

Definition detect_objects_in_frames_task_body (globals : list string)
    (request_id video_id : string) (frame_numbers : option (list Z))
  : M TaskSummary :=
  video ← load_and_register ObjectDetection request_id video_id;
  YOLOProcessor.init E;;
  metadata ← YOLOProcessor.get_video_metadata E (v_video_file video);
  let total_frames := md_frame_count metadata in
  let frame_numbers :=
    match frame_numbers with
    | None => py_range 0 total_frames 30
    | Some l => l
    end in
  global_name globals "cv2";;
  cap ← cv2_VideoCapture E (v_video_file video);
  detections_count ← try_finally
    (detect_loop cap video (Z.of_nat (length frame_numbers)) 0 frame_numbers 0)
    (cap_release cap);
  complete_task_record;;
  mret (DetectSummary video_id (Z.of_nat (length frame_numbers)) detections_count).

(** The job as a function of the module's global namespace. *)
Definition detect_objects_in_frames_task_in (globals : list string)
    (request_id video_id : string) (frame_numbers : option (list Z))
  : M TaskSummary :=
  new_frame;;
  try_except (detect_objects_in_frames_task_body globals request_id video_id frame_numbers)
    (λ e, if decide (exn_class e = DoesNotExist) then mthrow e
          else fail_task_record e;; mthrow e).

Definition detect_objects_in_frames_task := detect_objects_in_frames_task_in tasks_globals.

(** *** The three job kinds behind one entry point *)

Inductive Job : Type :=
  | RunVideoProcessing (video_id : string)
  | RunFrameExtraction (video_id : string) (frame_interval : Z)
  | RunObjectDetection (video_id : string) (frame_numbers : option (list Z)).

Definition job_kind (j : Job) : TaskType :=
  match j with
  | RunVideoProcessing _ => VideoProcessing
  | RunFrameExtraction _ _ => FrameExtraction
  | RunObjectDetection _ _ => ObjectDetection
  end.

(** Running a job under a module namespace [globals]; the dispatcher
    supplies the execution id [request_id]. *)
Definition run_job_in (globals : list string) (request_id : string) (j : Job)
  : M TaskSummary :=
  match j with
  | RunVideoProcessing video_id => process_video_task request_id video_id
  | RunFrameExtraction video_id frame_interval =>
      extract_frames_task request_id video_id frame_interval
  | RunObjectDetection video_id frame_numbers =>
      detect_objects_in_frames_task_in globals request_id video_id frame_numbers
  end.

Definition run_job := run_job_in tasks_globals.

End Jobs.
End Tasks.

(** The state at the start of one execution: nothing written yet. *)
Definition start_execution (s : State) : State :=
  upd_st_progress_log (λ _, []) s.

(** ** A concrete environment for the examples

    A ten-frame clip at 30 fps, a detector that reports one box per frame,
    exact arithmetic for the two rounding operators, the messages of
    SQLite and of Django for database errors, and a JSON codec for
    documents without floats and without characters that need escaping.
    The functions that vary between the examples are parameters. *)

Module Demo.

Definition clip_path : string := "/media/videos/clip.mp4".

Definition clip : VideoFile :=
  {| vf_fps := 30; vf_frame_count := 10; vf_width := 640; vf_height := 480;
     vf_reads := (λ n, Some (RawFrame (Z.to_N n))) <$> seqZ 0 10;
     vf_seek := λ n, if (0 <=? n) && (n <? 10) then Some (RawFrame (Z.to_N n))
                     else None |}.



Definition person_box : RawBox :=
  {| box_x1 := 10; box_y1 := 20; box_x2 := 110; box_y2 := 220;
     box_cls := 0; box_conf := 9 # 10 |}.

(** A box whose corners are swapped. *)
Definition degenerate_box : RawBox :=
  {| box_x1 := 10; box_y1 := 10; box_x2 := 5; box_y2 := 5;
     box_cls := 0; box_conf := 9 # 10 |}.

Definition detector := Frame → outcome (list (option (list RawBox))).

Definition steady_model : detector := λ _, Ret [Some [person_box]].

Definition degenerate_model : detector := λ _, Ret [Some [degenerate_box]].

(** A detector that fails on the second frame of the clip. *)
Definition flaky_model : detector := λ frame,
  match frame with
  | RawFrame 1 => Raise (MkExn OtherError "CUDA out of memory")
  | _ => Ret [Some [person_box]]
  end.

(** *** The JSON codec of the examples

    [dumps] writes as [json.dump(m, f, indent=2)] does: members and items
    on lines of their own, indented by two spaces per level, and every
    key as a string.  [loads] reads such texts back as [json.load]
    does. *)

Definition dq : string := String "034"%char "".
Definition nl : string := String "010"%char "".

Fixpoint spaces (n : nat) : string :=
  match n with O => "" | S n' => String " "%char (spaces n') end.

Definition indent (level : nat) : string := nl +:+ spaces (2 * level).

(** Characters that are written as they are. *)
Definition plain_char (c : ascii) : bool :=
  let n := nat_of_ascii c in
  (32 <=? n)%nat && (n <? 127)%nat && negb (n =? 34)%nat && negb (n =? 92)%nat.

Fixpoint plain (s : string) : bool :=
  match s with
  | EmptyString => true
  | String c r => plain_char c && plain r
  end.

Fixpoint join_lines (sep : string) (parts : list string) : string :=
  match parts with
  | [] => ""
  | [part] => part
  | part :: rest => part +:+ sep +:+ join_lines sep rest
  end.

Definition refused {A} : outcome A :=
  Raise (MkExn TypeError "Object is not JSON serializable").

Definition quoted (s : string) : outcome string :=
  if plain s then Ret (dq +:+ s +:+ dq) else refused.

Definition dump_key (k : jkey) : outcome string :=
  match k with
  | KStr s => quoted s
  | KInt z => Ret (dq +:+ pretty z +:+ dq)
  end.

Fixpoint dumps (level : nat) (m : json) : outcome string :=
  match m with
  | JNull => Ret "null"
  | JBool true => Ret "true"
  | JBool false => Ret "false"
  | JInt z => Ret (pretty z)
  | JFloat _ => refused
  | JStr s => quoted s
  | JArr [] => Ret "[]"
  | JArr items =>
      parts ← (fix go (l : list json) : outcome (list string) :=
                 match l with
                 | [] => Ret []
                 | x :: r => t ← dumps (S level) x; ts ← go r; Ret (t :: ts)
                 end) items;
      Ret ("[" +:+ indent (S level)
           +:+ join_lines ("," +:+ indent (S level)) parts
           +:+ indent level +:+ "]")
  | JObj [] => Ret "{}"
  | JObj members =>
      parts ← (fix go (l : list (jkey * json)) : outcome (list string) :=
                 match l with
                 | [] => Ret []
                 | (k, x) :: r =>
                     kt ← dump_key k; t ← dumps (S level) x; ts ← go r;
                     Ret ((kt +:+ ": " +:+ t) :: ts)
                 end) members;
      Ret ("{" +:+ indent (S level)
           +:+ join_lines ("," +:+ indent (S level)) parts
           +:+ indent level +:+ "}")
  end.

Fixpoint skip_ws (s : string) : string :=
  match s with
  | String c r => if bool_decide (c = " "%char ∨ c = "010"%char) then skip_ws r else s
  | EmptyString => s
  end.

(** The characters up to the next double quote, and what follows it. *)
Fixpoint read_string (s : string) : option (string * string) :=
  match s with
  | EmptyString => None
  | String c r =>
      if bool_decide (c = "034"%char) then Some ("", r)
      else if plain_char c
           then '(text, rest) ← read_string r; Some (String c text, rest)
           else None
  end.

Definition digit_of (c : ascii) : option Z :=
  let n := nat_of_ascii c in
  if (48 <=? n)%nat && (n <=? 57)%nat then Some (Z.of_nat (n - 48)) else None.

Fixpoint read_digits (s : string) (acc : Z) (seen : bool) : option (Z * string) :=
  match s with
  | String c r =>
      match digit_of c with
      | Some d => read_digits r (10 * acc + d) true
      | None => if seen then Some (acc, s) else None
      end
  | EmptyString => if seen then Some (acc, s) else None
  end.

Definition expect (word : string) (v : json) (s : string) : option (json * string) :=
  if String.prefix word s then Some (v, PosixPath.drop (String.length word) s)
  else None.

Fixpoint parse_value (fuel : nat) (s : string) : option (json * string) :=
  match fuel with
  | O => None
  | S fuel =>
      match skip_ws s with
      | String "n" _ as t => expect "null" JNull t
      | String "t" _ as t => expect "true" (JBool true) t
      | String "f" _ as t => expect "false" (JBool false) t
      | String "034" r => '(text, rest) ← read_string r; Some (JStr text, rest)
      | String "-" r => '(z, rest) ← read_digits r 0 false; Some (JInt (- z), rest)
      | String "[" r =>
          match skip_ws r with
          | String "]" rest => Some (JArr [], rest)
          | t => '(items, rest) ← parse_items fuel t; Some (JArr items, rest)
          end
      | String "{" r =>
          match skip_ws r with
          | String "}" rest => Some (JObj [], rest)
          | t => '(members, rest) ← parse_members fuel t; Some (JObj members, rest)
          end
      | t => '(z, rest) ← read_digits t 0 false; Some (JInt z, rest)
      end
  end
with parse_items (fuel : nat) (s : string) : option (list json * string) :=
  match fuel with
  | O => None
  | S fuel =>
      '(x, rest) ← parse_value fuel s;
      match skip_ws rest with
      | String "," r => '(xs, rest') ← parse_items fuel r; Some (x :: xs, rest')
      | String "]" r => Some ([x], r)
      | _ => None
      end
  end
with parse_members (fuel : nat) (s : string) : option (list (jkey * json) * string) :=
  match fuel with
  | O => None
  | S fuel =>
      match skip_ws s with
      | String "034" r =>
          '(key, rest) ← read_string r;
          match skip_ws rest with
          | String ":" r' =>
              '(x, rest') ← parse_value fuel r';
              match skip_ws rest' with
              | String "," r'' =>
                  '(ms, rest'') ← parse_members fuel r'';
                  Some ((KStr key, x) :: ms, rest'')
              | String "}" r'' => Some ([(KStr key, x)], r'')
              | _ => None
              end
          | _ => None
          end
      | _ => None
      end
  end.

Definition json_dumps (m : json) : outcome string := dumps 0 m.

Definition json_loads (text : string) : outcome json :=
  match parse_value (S (String.length text)) text with
  | Some (m, rest) =>
      if bool_decide (skip_ws rest = "") then Ret m
      else Raise (MkExn ValueError "Extra data")
  | None => Raise (MkExn ValueError "Expecting value")
  end.

(** *** Database messages *)

(** The canonical text of a UUID: 8-4-4-4-12 hexadecimal digits. *)
Definition hex_or_dash (i : nat) (c : ascii) : bool :=
  if bool_decide (i ∈ [8; 13; 18; 23]%nat) then bool_decide (c = "-"%char)
  else bool_decide (c ∈ ["0"; "1"; "2"; "3"; "4"; "5"; "6"; "7"; "8"; "9";
                         "a"; "b"; "c"; "d"; "e"; "f"]%char).

Fixpoint canonical_from (i : nat) (s : string) : bool :=
  match s with
  | EmptyString => bool_decide (i = 36%nat)
  | String c r => hex_or_dash i c && canonical_from (S i) r
  end.

(** Django's message for a text that is not a UUID. *)
Definition not_a_uuid (text : string) : option string :=
  if canonical_from 0 text then None
  else Some ("['“" +:+ text +:+ "” is not a valid UUID.']").

(** SQLite's message for the first violated constraint. *)
Definition sqlite_unique (violated : list UniqueConstraint) : string :=
  "UNIQUE constraint failed: " +:+
  match violated with
  | TaskId :: _ => "video_app_processingtask.id"
  | TaskCeleryId :: _ => "video_app_processingtask.celery_task_id"
  | FrameVideoNumber :: _ =>
      "video_app_processedframe.video_id, video_app_processedframe.frame_number"
  | [] => ""
  end.

Definition env_with (model : detector) (file : VideoFile) : Env :=
  {| now := λ n, 1000 + Z.of_nat n;
     wall := λ n, inject_Z (Z.of_nat n);
     uuid4 := λ n, (3735928559 * 79228162514264337593543950336 + N.of_nat n)%N;
     media_root := "/media";
     default_bucket := "videos";
     uuid_invalid := not_a_uuid;
     unique_violation := sqlite_unique;
     yolo_load := None;
     model_call := model;
     model_names := λ c, if decide (c = 0) then Some "person" else None;
     cv_open := λ p, if decide (p = clip_path) then Some file else None;
     writer_opens := λ _, true;
     makedirs_fault := λ _ _, None;
     getsize := λ f, match f with
                     | FBlob n => n
                     | FText t => Z.of_nat (String.length t)
                     | _ => 0
                     end;
     tmp_name := λ _ suffix, "/tmp/tmpk3x9" +:+ suffix;
     tmp_name_absolute := λ _ _, eq_refl;
     minio_connect := None;
     s3_put_fault := λ _ _, None;
     s3_get_fault := λ _ _, None;
     json_dump := json_dumps;
     json_load := json_loads;
     rnd64 := λ x, x;
     rnd32 := λ x, x |}.

Definition env (model : detector) : Env := env_with model clip.

Definition video : Video :=
  {| v_id := "3f2b8c1e-5d4a-4e6f-9a7b-0c1d2e3f4a5b"; v_title := "clip"; v_video_file := clip_path;
     v_uploaded_at := 900; v_status := VPending;
     v_processing_started_at := None; v_processing_completed_at := None;
     v_error_message := ""; v_duration := None; v_frame_count := None;
     v_fps := None; v_resolution := ""; v_file_size := None;
     v_minio_bucket := ""; v_minio_key := ""; v_processed_minio_key := "" |}.

(** The clip has been uploaded and nothing else has happened. *)
Definition initial : State :=
  {| st_videos := {[ "3f2b8c1e-5d4a-4e6f-9a7b-0c1d2e3f4a5b" := video ]}; st_tasks := ∅;
     st_frames := []; st_objects := [];
     st_fs := {[ clip_path := FBlob 4096 ]}; st_store := ∅;
     st_ticks := 0; st_caps := 0; st_writers := 0;
     st_progress_log := []; st_video := None; st_task_record := None |}.

(** As [initial], with a [ProcessedFrame] row for frame 3 left behind by
    an earlier run. *)
Definition with_stale_row : State :=
  upd_st_frames (λ _, [ {| pf_video := "3f2b8c1e-5d4a-4e6f-9a7b-0c1d2e3f4a5b"; pf_frame_number := 3;
                           pf_objects_detected := 0;
                           pf_processing_time := None;
                           pf_minio_key := "" |} ]) initial.

End Demo.

(** * Further code of [video_app]

    The listing and deletion methods of [minio_client.py], the two
    maintenance tasks of [tasks.py], the upload-path functions of
    [models.py] and the helper methods of [serializers.py]. *)

(** ** [minio_client.py]: buckets and deletion *)

(** Further capabilities of the S3 transport. *)
Record S3Env : Type := MkS3Env {
  s3_list_buckets : outcome (list string);
                            (* the names of [client.list_buckets()] *)
  s3_remove_fault : string → string → option Exn
                            (* [client.remove_object] may raise *)
}.

Module MinIOBuckets.
Section Methods.
Context (S3 : S3Env).

(** [MinIOClient.list_buckets]: an [S3Error] is logged and answered with
    the empty list. *)
Definition list_buckets : M (list string) :=
  try_except (lift (s3_list_buckets S3))
    (λ e, if decide (exn_class e = S3Error) then mret [] else mthrow e).

(** [self.client.remove_object(bucket, name)]: removing an object that
    is not there is not an error. *)
Definition remove_object (bucket_name object_name : string) : M unit :=
  match s3_remove_fault S3 bucket_name object_name with
  | Some e => mthrow e
  | None => modify (upd_st_store (delete (bucket_name, object_name)))
  end.

(** [MinIOClient.delete_file] *)
Definition delete_file (bucket_name object_name : string) : M bool :=
  try_except (remove_object bucket_name object_name;; mret true)
    (λ e, if decide (exn_class e = S3Error) then mret false else mthrow e).

End Methods.
End MinIOBuckets.

(** ** [tasks.py]: the maintenance tasks *)

(** The directory tree as [cleanup_temp_files_task] observes it, and the
    clock units in one hour.  Each directory is examined once, so the
    observations are those at the start of the task. *)
Record DirEnv : Type := MkDirEnv {
  hour : Z;                                (* [timedelta(hours=1)] *)
  isdir : string → bool;                   (* [os.path.isdir] *)
  listdir : string → outcome (list string);(* [os.listdir] *)
  rmtree_fault : string → option Exn       (* [shutil.rmtree] may raise *)
}.

(** The result dictionaries of [health_check_task]; [timestamp] is the
    instant whose ISO form the dictionary holds. *)
Inductive HealthReport : Type :=
  | Healthy (timestamp : Z)
      (* 'status': 'healthy', 'yolo_model': 'ok', 'minio_connection': 'ok' *)
  | Unhealthy (error : string) (timestamp : Z).

Module Maintenance.
Section Periodic.
Context (E : Env) (S3 : S3Env) (D : DirEnv).

(** [os.path.exists] for a path that may be a directory. *)
Definition path_exists (p : string) : M bool :=
  ex ← os_path_exists p; mret (ex || isdir D p).

(** The files below the directory [dir]. *)
Definition under (dir path : string) : bool := String.prefix (dir +:+ "/") path.

(** [shutil.rmtree(p)] *)
Definition shutil_rmtree (p : string) : M unit :=
  match rmtree_fault D p with
  | Some e => mthrow e
  | None => modify (upd_st_fs (filter (λ kv : string * File, under p kv.1 = false)))
  end.

(** The [for item in os.listdir(temp_dir)] loop. *)
Fixpoint cleanup_items (temp_dir : string) (cutoff_time : Z) (items : list string)
  : M unit :=
  match items with
  | [] => mret tt
  | item :: rest =>
      let item_path := PosixPath.join temp_dir item in
      (if isdir D item_path then
         t ← timezone_now E;
         let dir_time := t - 1 * hour D in        (* Placeholder *)
         if dir_time <? cutoff_time then shutil_rmtree item_path else mret tt
       else mret tt);;
      cleanup_items temp_dir cutoff_time rest
  end.

(** The body of the [for temp_dir in temp_dirs] loop. *)
Definition cleanup_dir (cutoff_time : Z) (temp_dir : string) : M unit :=
  ex ← path_exists temp_dir;
  if (ex : bool) then
    items ← lift (listdir D temp_dir);
    cleanup_items temp_dir cutoff_time items
  else mret tt.

Definition cleanup_temp_files_task : M unit :=
  let temp_dirs := [PosixPath.join (media_root E) "extracted_frames";
                    PosixPath.join (media_root E) "temp"] in
  t ← timezone_now E;
  let cutoff_time := t - 24 * hour D in
  for_each temp_dirs (cleanup_dir cutoff_time).

Definition health_check_task : M HealthReport :=
  try_except
    (YOLOProcessor.init E;;
     MinIOClient.init E;;
     MinIOBuckets.list_buckets S3;;
     t ← timezone_now E;
     mret (Healthy t))
    (λ e, t ← timezone_now E; mret (Unhealthy (str_exn e) t)).

End Periodic.
End Maintenance.

(** ** [models.py]: where uploads are stored *)

Module Models.

(** [s.split(c)] *)
Fixpoint split (c : ascii) (s : string) : list string :=
  match s with
  | EmptyString => [EmptyString]
  | String a r =>
      if decide (a = c) then EmptyString :: split c r
      else match split c r with
           | part :: parts => String a part :: parts
           | [] => [String a EmptyString]
           end
  end.

(** [filename.split('.')[-1]] *)
Definition extension (filename : string) : string :=
  default "" (last (split "." filename)).

(** [str(u)] for a UUID [u]: the 32 hexadecimal digits in groups of 8, 4,
    4, 4 and 12. *)
Definition uuid_str (u : N) : string :=
  let hex := uuid_hex u in
  PosixPath.take 8 hex +:+ "-" +:+
  PosixPath.take 4 (PosixPath.drop 8 hex) +:+ "-" +:+
  PosixPath.take 4 (PosixPath.drop 12 hex) +:+ "-" +:+
  PosixPath.take 4 (PosixPath.drop 16 hex) +:+ "-" +:+
  PosixPath.drop 20 hex.

Section UploadPaths.
Context (E : Env).

Definition video_upload_path (filename : string) : M string :=
  let ext := extension filename in
  u ← uuid_uuid4 E;
  let filename := uuid_str u +:+ "." +:+ ext in
  mret (PosixPath.join "videos" filename).

Definition processed_video_upload_path (filename : string) : M string :=
  let ext := extension filename in
  u ← uuid_uuid4 E;
  let filename := "processed_" +:+ uuid_str u +:+ "." +:+ ext in
  mret (PosixPath.join "processed_videos" filename).

Definition image_upload_path (filename : string) : M string :=
  let ext := extension filename in
  u ← uuid_uuid4 E;
  let filename := "frame_" +:+ uuid_str u +:+ "." +:+ ext in
  mret (PosixPath.join "processed_images" filename).

End UploadPaths.

(** The property [Video.filename], as a function of [video_file.name]. *)
Definition filename (video_file_name : string) : string :=
  PosixPath.basename video_file_name.

End Models.

(** ** [serializers.py]: validation and display helpers *)

(** [f"{n:02d}"] *)
Definition format_02d (n : Z) : string :=
  if n <? 0 then
    let d := pretty (Z.to_N (- n)) in "-" +:+ zeros (1 - String.length d) +:+ d
  else
    let d := pretty (Z.to_N n) in zeros (2 - String.length d) +:+ d.

(** What the float operations [x // y] and [x % y] give where they
    round. *)
Record FloatOps : Type := MkFloatOps {
  float_floordiv : Q → Z → Q;
  float_mod : Q → Z → Q
}.

(** The floats on which [//] and [%] by a small positive int are exact:
    for [0 <= x < 2^53] the remainder [fmod(x, y)], the difference
    [x - fmod(x, y)] and its quotient by [y] are floats. *)
Definition float_exact (x : Q) : bool :=
  Qle_bool 0 x && Qltb x (inject_Z (2 ^ 53)).

(** [x // y] and [x % y] for an int [y]: integer division on an int [x];
    on a float [x] the floor of the quotient and the remainder, exactly
    where [float_exact] says, and what the float operations give
    elsewhere. *)
Definition floordiv (F : FloatOps) (x : PyNum) (y : Z) : Q :=
  match x with
  | PInt z => inject_Z (z / y)
  | PFloat q =>
      if float_exact q then inject_Z (Qfloor (q / inject_Z y))
      else float_floordiv F q y
  end.

Definition py_fmod (F : FloatOps) (x : PyNum) (y : Z) : Q :=
  match x with
  | PInt z => inject_Z (z mod y)
  | PFloat q =>
      if float_exact q then q - inject_Z y * inject_Z (Qfloor (q / inject_Z y))
      else float_mod F q y
  end.

(** [c.lower()] for an ASCII character. *)
Definition lower_char (c : ascii) : ascii :=
  let n := nat_of_ascii c in
  if (65 <=? n)%nat && (n <=? 90)%nat then ascii_of_nat (n + 32) else c.

(** [s.lower()] for an ASCII string. *)
Fixpoint lower (s : string) : string :=
  match s with
  | EmptyString => EmptyString
  | String c r => String (lower_char c) (lower r)
  end.

(** [sep.join(parts)] *)
Fixpoint str_join (sep : string) (parts : list string) : string :=
  match parts with
  | [] => ""
  | [part] => part
  | part :: rest => part +:+ sep +:+ str_join sep rest
  end.

(** A field validator returns the value or raises
    [serializers.ValidationError] with a message. *)
Inductive validated (A : Type) : Type :=
  | Valid (value : A)
  | ValidationError (message : string).
Global Arguments Valid {A} value.
Global Arguments ValidationError {A} message.

(** An uploaded file as the validator sees it. *)
Record UploadedFile : Type := MkUploadedFile {
  uf_name : string;
  uf_size : Z
}.

Module Serializers.
Section Methods.
(** [settings.MAX_UPLOAD_SIZE], [settings.ALLOWED_VIDEO_EXTENSIONS], and
    the formatting of a float with one decimal ([:.1f]). *)
Context (E : Env) (MAX_UPLOAD_SIZE : Z) (ALLOWED_VIDEO_EXTENSIONS : list string)
  (format_1f : Q → string).

(** [VideoUploadSerializer.validate_video_file] *)
Definition validate_video_file (value : UploadedFile) : validated UploadedFile :=
  if MAX_UPLOAD_SIZE <? uf_size value then
    ValidationError
      ("File size must be under "
       +:+ format_1f (rnd64 E (inject_Z MAX_UPLOAD_SIZE / inject_Z (1024 * 1024 * 1024)))
       +:+ "GB")
  else
    let ext := lower (PosixPath.splitext (uf_name value)).2 in
    if bool_decide (ext ∉ ALLOWED_VIDEO_EXTENSIONS) then
      ValidationError
        ("File type not supported. Allowed types: "
         +:+ str_join ", " ALLOWED_VIDEO_EXTENSIONS)
    else Valid value.

End Methods.

(** [VideoSerializer.get_duration_formatted], as a function of
    [obj.duration]. *)
Definition get_duration_formatted (F : FloatOps) (duration : option PyNum)
  : option string :=
  match duration with
  | Some d =>
      if negb (Qeq_bool (pynum_value d) 0) then
        let minutes := py_int (floordiv F d 60) in
        let seconds := py_int (py_fmod F d 60) in
        Some (format_02d minutes +:+ ":" +:+ format_02d seconds)
      else None
  | None => None
  end.

End Serializers.

(** * Vocabulary of the properties *)

(** Hexadecimal strings. *)
Definition is_hex (c : ascii) : bool :=
  bool_decide (c ∈ ["0"; "1"; "2"; "3"; "4"; "5"; "6"; "7"; "8"; "9";
                    "a"; "b"; "c"; "d"; "e"; "f"]%char).

Fixpoint all_hex (s : string) : bool :=
  match s with
  | EmptyString => true
  | String c r => is_hex c && all_hex r
  end.

(** Strings of dots only: [splitext] finds no extension after them. *)
Fixpoint all_dots (s : string) : bool :=
  match s with
  | EmptyString => true
  | String c r => bool_decide (c = "."%char) && all_dots r
  end.

(** [frames R m]: whatever the state and the outcome, the state after [m]
    is related by [R] to the state before. *)
Definition frames {A} (R : relation State) (m : M A) : Prop :=
  ∀ s : State, R s (m s).2.

(** The code of [yolo_processor.py] and [minio_client.py] touches files,
    stored objects, clocks and handles; it leaves the database rows, the
    trace of progress writes and the job's local variables alone. *)
Record io_only (s s' : State) : Prop := MkIoOnly {
  io_videos : st_videos s' = st_videos s;
  io_tasks : st_tasks s' = st_tasks s;
  io_frames : st_frames s' = st_frames s;
  io_objects : st_objects s' = st_objects s;
  io_log : st_progress_log s' = st_progress_log s;
  io_video : st_video s' = st_video s;
  io_task_record : st_task_record s' = st_task_record s
}.

(** No capture or writer handle is gained or lost. *)
Definition handles_kept (s s' : State) : Prop :=
  st_caps s' = st_caps s ∧ st_writers s' = st_writers s.

(** The [Video] rows are unchanged. *)
Definition videos_kept (s s' : State) : Prop := st_videos s' = st_videos s.

(** The [DetectedObject] rows are unchanged. *)
Definition objects_kept (s s' : State) : Prop := st_objects s' = st_objects s.

(** [ProcessedFrame] and [DetectedObject] rows are only added, at the end. *)
Definition rows_grow (s s' : State) : Prop :=
  (∃ l, st_frames s' = st_frames s ++ l)%list ∧
  (∃ l, st_objects s' = st_objects s ++ l)%list.

(** The detector as a function of the frame: the model call followed by
    the conversion loop of [_process_frame]. *)
Definition detect (E : Env) (frame : Frame) : outcome (list Detection) :=
  results ← model_call E frame; YOLOProcessor.results_loop E results [].

(** The boxes of a model output, in the order the loops visit them. *)
Definition flat_boxes (results : list (option (list RawBox))) : list RawBox :=
  concat (default [] <$> results).

(** The frames a capture yields before its first failed read. *)
Fixpoint decoded (reads : list (option Frame)) : list Frame :=
  match reads with
  | Some frame :: rest => frame :: decoded rest
  | _ => []
  end.

(** The frames at the indices [i] with [i mod k = 0], counting the first
    of [frames] as [start]. *)
Fixpoint selected (k start : Z) (frames : list Frame) : list (Z * Frame) :=
  match frames with
  | [] => []
  | frame :: rest =>
      (if start mod k =? 0 then [(start, frame)] else []) ++ selected k (start + 1) rest
  end%list.

(** [fr] is what [_process_frame] returns for the frame [p.2] at index
    [p.1]. *)
Definition result_of (E : Env) (p : Z * Frame) (fr : FrameResult) : Prop :=
  fr_frame_number fr = p.1
  ∧ detect E p.2 = Ret (fr_objects fr)
  ∧ fr_object_count fr = Z.of_nat (length (fr_objects fr)).

(** The [results] dictionary of [process_video] before its loop starts. *)
Definition initial_results (vf : VideoFile) (d : PyNum) : Results :=
  {| res_total_frames := vf_frame_count vf;
     res_processed_frames := 0;
     res_detections := [];
     res_processing_time := PInt 0;
     res_video_metadata :=
       {| sm_fps := vf_fps vf; sm_frame_count := vf_frame_count vf;
          sm_width := vf_width vf; sm_height := vf_height vf;
          sm_duration := d |} |}.

(** [d] is the detection [_process_frame] builds from the model's box [b]. *)
Definition box_of (E : Env) (b : RawBox) (d : Detection) : Prop :=
  model_names E (box_cls b) = Some (det_class d)
  ∧ det_confidence d = box_conf b
  ∧ bb_x (det_bbox d) = box_x1 b
  ∧ bb_y (det_bbox d) = box_y1 b
  ∧ bb_width (det_bbox d) = rnd32 E (box_x2 b - box_x1 b)
  ∧ bb_height (det_bbox d) = rnd32 E (box_y2 b - box_y1 b).

(** The sign of a size follows the order of the two corners. *)
Definition size_sign (b : RawBox) (d : Detection) : Prop :=
  ((box_x1 b <= box_x2 b → 0 <= bb_width (det_bbox d))
   ∧ (box_x2 b <= box_x1 b → bb_width (det_bbox d) <= 0)
   ∧ (box_y1 b <= box_y2 b → 0 <= bb_height (det_bbox d))
   ∧ (box_y2 b <= box_y1 b → bb_height (det_bbox d) <= 0))%Q.

(** A Hoare triple with a normal and an exceptional postcondition. *)
Definition hoare {A} (P : State → Prop) (m : M A) (Q : A → State → Prop)
    (X : State → Prop) : Prop :=
  ∀ s, P s → match m s with
             | (Ret a, s') => Q a s'
             | (Raise _, s') => X s'
             end.

(** The job's own record, its row and the trace of progress writes are
    unchanged. *)
Definition job_kept (s s' : State) : Prop :=
  st_progress_log s' = st_progress_log s
  ∧ st_task_record s' = st_task_record s
  ∧ st_tasks s' = st_tasks s.

(** The progress values written so far, oldest first. *)
Definition progress_values (s : State) : list Z := (st_progress_log s).*2.

(** The invariant of one execution: every write so far went to the job's
    own record, with a value between 0 and the record's current progress;
    the values never decreased; and if the row says [completed], the last
    value written is 100. *)
Definition LogInv (s : State) : Prop :=
  match st_task_record s with
  | None => st_progress_log s = []
  | Some tr =>
      0 <= t_progress tr <= 100
      ∧ (t_status tr = TCompleted → t_progress tr = 100)
      ∧ StronglySorted Z.le (progress_values s)
      ∧ Forall (λ e, e.1 = t_id tr ∧ 0 <= e.2 <= t_progress tr) (st_progress_log s)
      ∧ (∀ row, st_tasks s !! t_id tr = Some row → t_status row = TCompleted →
                last (progress_values s) = Some 100)
  end.

(** Before the job's record exists. *)
Definition JobFresh (s : State) : Prop :=
  st_task_record s = None ∧ st_progress_log s = [].

(** While the job runs, with its progress at most [bound]. *)
Definition Running (bound : Z) (s : State) : Prop :=
  LogInv s
  ∧ ∃ tr, st_task_record s = Some tr ∧ t_status tr = TRunning
          ∧ t_progress tr <= bound.

(** After the job marked itself completed. *)
Definition Completed (s : State) : Prop :=
  LogInv s
  ∧ ∃ tr, st_task_record s = Some tr ∧ st_tasks s !! t_id tr = Some tr
          ∧ t_status tr = TCompleted.

(** The value of [int((i + 1) / len * 100)]. *)
Definition progress_at (E : Env) (len i : Z) : Z :=
  py_int (rnd64 E (rnd64 E (inject_Z (i + 1) / inject_Z len) * 100)).

(** The state a job body starts in: no local variable is bound. *)
Definition fresh_locals (s : State) : State :=
  upd_st_task_record (λ _, None) (upd_st_video (λ _, None) s).

(** The local variable [task_record], when bound, holds the record [id]. *)
Definition own_record (id : string) (s : State) : Prop :=
  ∀ t, st_task_record s = Some t → t_id t = id.

(** What the frame-extraction and object-detection jobs do to the
    database once their [task_record] is the record [id]: no [Video] or
    [ProcessedFrame] row changes, no [ProcessingTask] row other than [id]
    changes, and [DetectedObject] rows are only added, for the video
    [vid]. *)
Definition own_writes (id vid : string) (s s' : State) : Prop :=
  own_record id s →
  st_videos s' = st_videos s
  ∧ st_frames s' = st_frames s
  ∧ (∀ k, k ≠ id → st_tasks s' !! k = st_tasks s !! k)
  ∧ (∃ new, st_objects s' = (st_objects s ++ new)%list
            ∧ Forall (λ r, do_video r = vid) new)
  ∧ own_record id s'.

(** The record of a job that failed at time [t] with the exception [e]:
    [status], [completed_at] and [error_message] are set, every other
    field is as in [tr]. *)
Definition failed_task (e : Exn) (t : Z) (tr : ProcessingTask) : ProcessingTask :=
  {| t_id := t_id tr; t_video := t_video tr; t_task_type := t_task_type tr;
     t_celery_task_id := t_celery_task_id tr;
     t_status := TFailed;
     t_created_at := t_created_at tr; t_started_at := t_started_at tr;
     t_completed_at := Some t;
     t_error_message := str_exn e;
     t_progress := t_progress tr |}.

(** A video marked as failed with the text of [e]: [status] and
    [error_message] are set, every other field is as in [v]. *)
Definition failed_video (e : Exn) (v : Video) : Video :=
  {| v_id := v_id v; v_title := v_title v; v_video_file := v_video_file v;
     v_uploaded_at := v_uploaded_at v;
     v_status := VFailed;
     v_processing_started_at := v_processing_started_at v;
     v_processing_completed_at := v_processing_completed_at v;
     v_error_message := str_exn e;
     v_duration := v_duration v; v_frame_count := v_frame_count v;
     v_fps := v_fps v; v_resolution := v_resolution v;
     v_file_size := v_file_size v; v_minio_bucket := v_minio_bucket v;
     v_minio_key := v_minio_key v;
     v_processed_minio_key := v_processed_minio_key v |}.

(** ** Vocabulary for the further properties *)

(** The video a job is about. *)
Definition job_video_id (j : Tasks.Job) : string :=
  match j with
  | Tasks.RunVideoProcessing video_id => video_id
  | Tasks.RunFrameExtraction video_id _ => video_id
  | Tasks.RunObjectDetection video_id _ => video_id
  end.

(** The [unique_together = ['video', 'frame_number']] constraint of
    [ProcessedFrame]. *)
Definition frame_key (r : ProcessedFrame) : string * Z :=
  (pf_video r, pf_frame_number r).

Definition unique_frames (s : State) : Prop := NoDup (frame_key <$> st_frames s).

(** The constraint, if it held before, holds after. *)
Definition unique_frames_kept (s s' : State) : Prop :=
  unique_frames s → unique_frames s'.

(** The [ProcessedFrame] row that [process_video_task] creates for a frame
    result. *)
Definition frame_row (video : Video) (fr : FrameResult) : ProcessedFrame :=
  {| pf_video := v_id video; pf_frame_number := fr_frame_number fr;
     pf_objects_detected := fr_object_count fr;
     pf_processing_time := Some (fr_processing_time fr);
     pf_minio_key := "" |}.

(** The detections of a list of frame results, each with its frame number,
    in order. *)
Definition detections_of (frs : list FrameResult) : list (Z * Detection) :=
  concat ((λ fr, (λ obj, (fr_frame_number fr, obj)) <$> fr_objects fr) <$> frs).

(** [o] is the [DetectedObject] row of the detection [p.2] in frame [p.1]
    of [video]; [detected_at] is the time of the insertion. *)
Definition object_row (video : Video) (p : Z * Detection) (o : DetectedObject) : Prop :=
  do_video o = v_id video
  ∧ do_frame_number o = p.1
  ∧ do_object_class o = det_class p.2
  ∧ do_confidence o = det_confidence p.2
  ∧ do_bbox_x o = bb_x (det_bbox p.2)
  ∧ do_bbox_y o = bb_y (det_bbox p.2)
  ∧ do_bbox_width o = bb_width (det_bbox p.2)
  ∧ do_bbox_height o = bb_height (det_bbox p.2).

(** The frame and object rows and the identity of the local [video] are
    unchanged. *)
Definition rows_kept (s s' : State) : Prop :=
  st_frames s' = st_frames s
  ∧ st_objects s' = st_objects s
  ∧ v_id <$> st_video s' = v_id <$> st_video s.

(** The job's record is stored as [completed] with progress 100. *)
Definition TaskDone (s : State) : Prop :=
  ∃ tr, st_task_record s = Some tr ∧ st_tasks s !! t_id tr = Some tr
        ∧ t_status tr = TCompleted ∧ t_progress tr = 100.

(** The video [v] is stored as [completed]. *)
Definition VideoDone (v : Video) (s : State) : Prop :=
  ∃ v', st_videos s !! v_id v = Some v' ∧ v_id v' = v_id v
        ∧ v_status v' = VCompleted.

(** The rows [F] and [O] are stored, and the local [video] is [v] up to
    its fields. *)
Definition RowsAre (F : list ProcessedFrame) (O : list DetectedObject) (v : Video)
    (s : State) : Prop :=
  st_frames s = F ∧ st_objects s = O ∧ v_id <$> st_video s = Some (v_id v).

(** Each of [keys] is [bucket/name] for an object present in [bucket]. *)
Definition Stored (bucket : string) (keys : list string) (s : State) : Prop :=
  Forall (λ key, ∃ name, key = bucket +:+ "/" +:+ name
                         ∧ is_Some (st_store s !! (bucket, name))) keys.

(** Reading a decimal numeral: the value of the digits of [s], most
    significant first. *)
Definition digit_value (c : ascii) : N :=
  match c with
  | "1" => 1 | "2" => 2 | "3" => 3 | "4" => 4 | "5" => 5
  | "6" => 6 | "7" => 7 | "8" => 8 | "9" => 9 | _ => 0
  end%char%N.

Fixpoint decimal_value (s : string) : N :=
  match s with
  | EmptyString => 0
  | String c r => digit_value c * 10 ^ N.of_nat (String.length r) + decimal_value r
  end%N.

(** The frame number in the name of an extracted frame, [frame_<n>.jpg]
    under [output_dir]. *)
Definition frame_number_of (output_dir path : string) : N :=
  let name := PosixPath.drop (String.length (PosixPath.join output_dir "frame_")) path in
  decimal_value (PosixPath.take (String.length name - 4) name).

(** The frames of a list with their indices, counting from [start]. *)
Definition numbered (start : Z) (frames : list Frame) : list (Z * Frame) :=
  zip (seqZ start (Z.of_nat (length frames))) frames.

(** The frame [process_video] writes to the output video for the decoded
    frame [p.2] at index [p.1]: the frame with its detections drawn when
    the index is sampled and something was detected, the frame as decoded
    otherwise. *)
Definition written_frame (E : Env) (k : Z) (p : Z * Frame) : Frame :=
  if p.1 mod k =? 0 then
    match detect E p.2 with
    | Ret (d :: ds) => YOLOProcessor._draw_detections p.2 (d :: ds)
    | _ => p.2
    end
  else p.2.

(** * Properties *)

(** ** Strings and paths *)

Lemma string_app_cons (a : ascii) (s t : string) :
  String a s +:+ t = String a (s +:+ t).
Proof. reflexivity. Qed.

Lemma string_length_app (s t : string) :
  String.length (s +:+ t) = (String.length s + String.length t)%nat.
Proof.
  induction s as [|a s IH]; [reflexivity|].
  rewrite string_app_cons. simpl. now rewrite IH.
Qed.

Lemma string_app_nil_r (s : string) : s +:+ "" = s.
Proof.
  induction s as [|a s IH]; [reflexivity|].
  rewrite string_app_cons. now rewrite IH.
Qed.

Lemma drop_app_length (a b : string) : PosixPath.drop (String.length a) (a +:+ b) = b.
Proof. induction a as [|c a IH]; [reflexivity|]. rewrite string_app_cons. exact IH. Qed.

Lemma take_app_length (a b : string) : PosixPath.take (String.length a) (a +:+ b) = a.
Proof.
  induction a as [|c a IH]; [reflexivity|].
  rewrite string_app_cons. cbn. now rewrite IH.
Qed.

Lemma string_app_assoc (a b c : string) : a +:+ b +:+ c = (a +:+ b) +:+ c.
Proof.
  induction a as [|x a IH]; [reflexivity|]. rewrite !string_app_cons. now f_equal.
Qed.

Module PosixPathFacts.
Import PosixPath.

Lemma take_drop (n : nat) (s : string) : take n s +:+ drop n s = s.
Proof.
  revert s; induction n as [|n IH]; intros [|a s]; simpl; try reflexivity.
  rewrite string_app_cons. now rewrite IH.
Qed.

Lemma length_take (n : nat) (s : string) :
  String.length (take n s) = Nat.min n (String.length s).
Proof.
  revert s; induction n as [|n IH]; intros [|a s]; simpl; try reflexivity.
  now rewrite IH.
Qed.

(** [splitext] cuts its argument in two. *)
Lemma splitext_app (p name ext : string) :
  splitext p = (name, ext) → name +:+ ext = p.
Proof.
  unfold splitext.
  destruct (rfind "/" p <? rfind "." p).
  - destruct (has_non_dot _ _ _); intros [= <- <-].
    + apply take_drop.
    + apply string_app_nil_r.
  - intros [= <- <-]. apply string_app_nil_r.
Qed.

Lemma rfind_lower (c : ascii) (s : string) : -1 <= rfind c s.
Proof.
  induction s as [|a s IH]; simpl; [lia|].
  destruct (Z.leb_spec 0 (rfind c s)); [lia|].
  destruct (decide (a = c)); lia.
Qed.

Lemma rfind_head (c : ascii) (s : string) : 0 <= rfind c (String c s).
Proof.
  simpl. pose proof (rfind_lower c s).
  destruct (Z.leb_spec 0 (rfind c s)); [lia|].
  destruct (decide (c = c)); [lia | congruence].
Qed.

Lemma rfind_tail (c a : ascii) (s : string) :
  0 <= rfind c s → 0 <= rfind c (String a s).
Proof. intros H. simpl. destruct (Z.leb_spec 0 (rfind c s)); lia. Qed.

Lemma rfind_drop_past_last (c : ascii) (p : string) :
  rfind c (drop (Z.to_nat (rfind c p + 1)) p) = -1.
Proof.
  induction p as [|a p IH]; [reflexivity|].
  pose proof (rfind_lower c p) as Hlow.
  cbn [rfind]. destruct (Z.leb_spec 0 (rfind c p)) as [Hge|Hlt].
  - replace (Z.to_nat (rfind c p + 1 + 1)) with (S (Z.to_nat (rfind c p + 1))) by lia.
    exact IH.
  - assert (rfind c p = -1) as Hr by lia.
    destruct (decide (a = c)) as [->|Hne]; simpl.
    + exact Hr.
    + rewrite Hr. simpl. destruct (decide (a = c)); congruence.
Qed.

(** A base name holds no separator. *)
Lemma basename_no_sep (p : string) : rfind "/" (basename p) = -1.
Proof. apply rfind_drop_past_last. Qed.

Lemma basename_ne_with_sep (p q : string) : 0 <= rfind "/" q → q ≠ basename p.
Proof. intros Hq ->. rewrite basename_no_sep in Hq. lia. Qed.

(** A character that occurs is found where [rfind] says. *)
Lemma drop_at_rfind (c : ascii) (p : string) :
  0 <= rfind c p →
  drop (Z.to_nat (rfind c p)) p = String c (drop (Z.to_nat (rfind c p + 1)) p).
Proof.
  induction p as [|a p IH]; cbn [rfind]; [lia|].
  pose proof (rfind_lower c p) as Hlow.
  destruct (Z.leb_spec 0 (rfind c p)) as [Hge|Hlt].
  - intros _.
    replace (Z.to_nat (rfind c p + 1 + 1)) with (S (Z.to_nat (rfind c p + 1))) by lia.
    replace (Z.to_nat (rfind c p + 1)) with (S (Z.to_nat (rfind c p))) at 1 by lia.
    cbn [drop]. now apply IH.
  - destruct (decide (a = c)) as [->|Hne]; [reflexivity | lia].
Qed.

Lemma rfind_app_none (c : ascii) (a b : string) :
  rfind c b = -1 → rfind c (a +:+ b) = rfind c a.
Proof.
  intros Hb. induction a as [|x a IH]; [exact Hb|].
  rewrite string_app_cons. cbn [rfind]. now rewrite IH.
Qed.

(** The last occurrence of [c] in [stem ++ c ++ e], when [e] holds no
    [c], is right after [stem]. *)
Lemma rfind_last (c : ascii) (stem e : string) :
  rfind c e = -1 → rfind c (stem +:+ String c e) = Z.of_nat (String.length stem).
Proof.
  intros He. induction stem as [|x stem IH].
  - change ("" +:+ String c e) with (String c e).
    cbn [rfind String.length]. rewrite He. cbn [Z.leb Z.compare].
    destruct (decide (c = c)); [reflexivity | congruence].
  - rewrite string_app_cons. cbn [rfind String.length]. rewrite IH.
    destruct (Z.leb_spec 0 (Z.of_nat (String.length stem))); lia.
Qed.

(** The scan of [splitext] over a stretch [stem] of the path finds a
    character that is not a dot exactly when [stem] has one. *)
Lemma has_non_dot_app (pre stem rest : string) :
  has_non_dot (String.length stem) (String.length pre) (pre +:+ stem +:+ rest)
  = negb (all_dots stem).
Proof.
  revert pre. induction stem as [|x stem IH]; intros pre; [reflexivity|].
  cbn [String.length has_non_dot all_dots]. unfold char_at.
  rewrite drop_app_length. rewrite string_app_cons. cbn [take].
  destruct (decide (String x "" = ".")) as [Hx|Hx].
  - injection Hx as ->. rewrite bool_decide_eq_true_2 by reflexivity. cbn [andb].
    specialize (IH (pre +:+ ".")).
    rewrite string_length_app in IH. cbn [String.length] in IH.
    replace (String.length pre + 1)%nat with (S (String.length pre)) in IH by lia.
    rewrite <- IH. f_equal. rewrite <- string_app_assoc. reflexivity.
  - rewrite bool_decide_eq_false_2; [reflexivity|]. intros ->. now apply Hx.
Qed.

(** [splitext] on a name without directory part: the extension starts
    at the last dot, unless nothing but dots comes before it. *)
Lemma splitext_stem (stem e : string) :
  rfind "/" (stem +:+ "." +:+ e) = -1 → rfind "." e = -1 →
  splitext (stem +:+ "." +:+ e)
  = if all_dots stem then (stem +:+ "." +:+ e, "") else (stem, "." +:+ e).
Proof.
  intros Hsep He. unfold splitext. rewrite Hsep.
  change ("." +:+ e) with (String "." e). rewrite (rfind_last _ _ _ He).
  destruct (Z.ltb_spec (-1) (Z.of_nat (String.length stem))); [|lia].
  rewrite Nat2Z.id. change (Z.to_nat (-1 + 1)) with (String.length "").
  rewrite Nat.sub_0_r.
  pose proof (has_non_dot_app "" stem (String "." e)) as Hscan.
  change ("" +:+ stem +:+ String "." e) with (stem +:+ String "." e) in Hscan.
  rewrite Hscan.
  destruct (all_dots stem); cbn [negb]; [reflexivity|].
  now rewrite take_app_length, drop_app_length.
Qed.

Lemma splitext_no_stem (p : string) :
  rfind "/" p = -1 →
  (∀ stem e, p = stem +:+ "." +:+ e → rfind "." e = -1 → all_dots stem = true) →
  splitext p = (p, "").
Proof.
  intros Hsep Hall.
  destruct (Z.leb_spec 0 (rfind "." p)) as [Hdot|Hdot].
  - pose proof (take_drop (Z.to_nat (rfind "." p)) p) as Hcut.
    rewrite (drop_at_rfind _ _ Hdot) in Hcut.
    pose proof (rfind_drop_past_last "." p) as He.
    revert Hcut He.
    generalize (take (Z.to_nat (rfind "." p)) p) as stem.
    generalize (drop (Z.to_nat (rfind "." p + 1)) p) as e.
    intros e stem Hcut He. clear Hdot. subst p.
    change (String "." e) with ("." +:+ e) in *.
    rewrite (splitext_stem _ _ Hsep He). now rewrite (Hall _ _ eq_refl He).
  - unfold splitext. rewrite Hsep.
    pose proof (rfind_lower "." p).
    now destruct (Z.ltb_spec (-1) (rfind "." p)); [lia|].
Qed.

(** ** [os.path.dirname] *)

Lemma rstrip_sep_empty (s : string) : rstrip_sep s = "" → all_sep s = true.
Proof.
  induction s as [|a s IH]; [reflexivity|]. cbn [rstrip_sep all_sep].
  destruct (rstrip_sep s) eqn:Hs; [|discriminate].
  destruct (decide (a = "/"%char)) as [->|Hne]; [|discriminate].
  intros _. rewrite bool_decide_eq_true_2 by reflexivity. now apply IH.
Qed.

(** A path that holds a separator has a directory part. *)
Lemma dirname_nonempty (p : string) : 0 <= rfind "/" p → dirname p ≠ "".
Proof.
  intros Hsep. unfold dirname.
  set (head := take (Z.to_nat (rfind "/" p + 1)) p).
  assert (head ≠ "") as Hhead.
  { subst head. destruct p as [|a p]; [cbn in Hsep; lia|].
    replace (Z.to_nat (rfind "/" (String a p) + 1))
      with (S (Z.to_nat (rfind "/" (String a p)))) by lia.
    discriminate. }
  rewrite bool_decide_eq_false_2 by exact Hhead. cbn [negb andb].
  destruct (all_sep head) eqn:Hall; cbn [negb]; [exact Hhead|].
  intros Hstrip. apply rstrip_sep_empty in Hstrip. congruence.
Qed.

Lemma startswith_sep_rfind (p : string) : startswith_sep p = true → 0 <= rfind "/" p.
Proof.
  destruct p as [|a p]; [discriminate|]. cbn [startswith_sep].
  destruct (Ascii.ascii_dec a "/") as [->|Hne].
  - intros _. apply rfind_head.
  - intros H. exfalso. revert H.
    destruct a as [[] [] [] [] [] [] [] []]; try discriminate. congruence.
Qed.

End PosixPathFacts.

(** ** The hexadecimal form of a UUID *)

Lemma hex_digit_is_hex (d : N) : is_hex (hex_digit d) = true.
Proof. unfold hex_digit. repeat case_match; reflexivity. Qed.

Lemma hex_go_spec (k : nat) (n : N) (acc : string) :
  String.length (hex_go k n acc) = (k + String.length acc)%nat ∧
  (all_hex acc = true → all_hex (hex_go k n acc) = true).
Proof.
  revert n acc; induction k as [|k IH]; intros n acc; simpl; [tauto|].
  destruct (IH (n / 16)%N (String (hex_digit (n mod 16)) acc)) as [Hl Hh].
  split.
  - rewrite Hl. simpl. lia.
  - intros Hacc. apply Hh. simpl. now rewrite hex_digit_is_hex, Hacc.
Qed.

Lemma all_hex_take (n : nat) (s : string) :
  all_hex s = true → all_hex (PosixPath.take n s) = true.
Proof.
  revert s; induction n as [|n IH]; intros [|a s]; simpl; try reflexivity.
  intros [Ha Hs]%andb_true_iff. now rewrite Ha, IH.
Qed.

(** The eight characters that [upload_file] takes from [uuid4().hex]. *)
Lemma uuid_suffix_spec (u : N) :
  String.length (PosixPath.take 8 (uuid_hex u)) = 8%nat ∧
  all_hex (PosixPath.take 8 (uuid_hex u)) = true.
Proof.
  unfold uuid_hex. destruct (hex_go_spec 32 u "") as [Hl Hh]. split.
  - rewrite PosixPathFacts.length_take, Hl. reflexivity.
  - apply all_hex_take, Hh. reflexivity.
Qed.

(** ** Running monadic code *)

Lemma run_bind {A B} (m : M A) (f : A → M B) (s : State) :
  (m ≫= f) s = match m s with
               | (Ret a, s') => f a s'
               | (Raise e, s') => (Raise e, s')
               end.
Proof. reflexivity. Qed.

Ltac unfold_monad :=
  unfold mbind, M_bind, mret, M_ret, mthrow, M_throw, raise, gets, modify,
    lift, try_finally, try_except, attempt in *.

Lemma exists_true (s : State) (p : string) (f : File) :
  st_fs s !! p = Some f → os_path_exists p s = (Ret true, s).
Proof. intros H. unfold os_path_exists, gets. rewrite H. reflexivity. Qed.

Lemma exists_false (s : State) (p : string) :
  st_fs s !! p = None → os_path_exists p s = (Ret false, s).
Proof. intros H. unfold os_path_exists, gets. rewrite H. reflexivity. Qed.

(** ** Frame rules *)

Section FrameRules.
Context (R : relation State) `{!PreOrder R}.

Lemma frames_ret {A} (a : A) : frames R (mret a).
Proof. intros s. reflexivity. Qed.

Lemma frames_throw {A} (e : Exn) : frames R (mthrow e : M A).
Proof. intros s. reflexivity. Qed.

Lemma frames_raise {A} (c : ExnClass) (msg : string) : frames R (raise c msg : M A).
Proof. intros s. reflexivity. Qed.

Lemma frames_gets {A} (f : State → A) : frames R (gets f).
Proof. intros s. reflexivity. Qed.

Lemma frames_lift {A} (o : outcome A) : frames R (lift o).
Proof. intros s. reflexivity. Qed.

Lemma frames_modify (f : State → State) : (∀ s, R s (f s)) → frames R (modify f).
Proof. intros H s. apply H. Qed.

Lemma frames_bind {A B} (m : M A) (f : A → M B) :
  frames R m → (∀ a, frames R (f a)) → frames R (m ≫= f).
Proof.
  intros Hm Hf s. rewrite run_bind. specialize (Hm s).
  destruct (m s) as [[a|e] s1]; [|exact Hm].
  etransitivity; [exact Hm | apply Hf].
Qed.

Lemma frames_try_finally {A} (body : M A) (fin : M unit) :
  frames R body → frames R fin → frames R (try_finally body fin).
Proof.
  intros Hb Hf s. unfold try_finally. specialize (Hb s).
  destruct (body s) as [r s1]. specialize (Hf s1).
  destruct (fin s1) as [[[]|e] s2]; etransitivity; eauto.
Qed.

Lemma frames_try_except {A} (body : M A) (handler : Exn → M A) :
  frames R body → (∀ e, frames R (handler e)) → frames R (try_except body handler).
Proof.
  intros Hb Hh s. unfold try_except. specialize (Hb s).
  destruct (body s) as [[a|e] s1]; [exact Hb|].
  etransitivity; [exact Hb | apply Hh].
Qed.

Lemma frames_attempt {A} (body : M A) : frames R body → frames R (attempt body).
Proof. intros Hb s. unfold attempt. specialize (Hb s). now destruct (body s). Qed.

Lemma frames_for_each {A} (xs : list A) (body : A → M unit) :
  (∀ x, frames R (body x)) → frames R (for_each xs body).
Proof.
  intros Hb. induction xs as [|x xs IH]; simpl.
  - apply frames_ret.
  - apply frames_bind; [apply Hb | intros _; exact IH].
Qed.

Lemma frames_tick : (∀ s, R s (upd_st_ticks S s)) → frames R tick.
Proof. intros H s. apply H. Qed.

End FrameRules.

Lemma frames_weaken {A} (R R' : relation State) (m : M A) :
  (∀ s s', R s s' → R' s s') → frames R m → frames R' m.
Proof. intros H Hm s. apply H, Hm. Qed.

Global Instance io_only_preorder : PreOrder io_only.
Proof.
  split.
  - intros s. now constructor.
  - intros s1 s2 s3 [] []. constructor; congruence.
Qed.

Global Instance handles_kept_preorder : PreOrder handles_kept.
Proof.
  split.
  - intros s. now split.
  - intros s1 s2 s3 [] []. split; congruence.
Qed.

Global Instance videos_kept_preorder : PreOrder videos_kept.
Proof. split; unfold videos_kept; [now intros s | intros s1 s2 s3; congruence]. Qed.

Global Instance objects_kept_preorder : PreOrder objects_kept.
Proof. split; unfold objects_kept; [now intros s | intros s1 s2 s3; congruence]. Qed.

Global Instance rows_grow_preorder : PreOrder rows_grow.
Proof.
  split.
  - intros s. split; exists []; now rewrite app_nil_r.
  - intros s1 s2 s3 [[l1 H1] [m1 G1]] [[l2 H2] [m2 G2]]. split.
    + exists (l1 ++ l2)%list. now rewrite H2, H1, app_assoc.
    + exists (m1 ++ m2)%list. now rewrite G2, G1, app_assoc.
Qed.

Lemma io_only_videos (s s' : State) : io_only s s' → videos_kept s s'.
Proof. now intros []. Qed.

Lemma io_only_objects (s s' : State) : io_only s s' → objects_kept s s'.
Proof. now intros []. Qed.

Lemma io_only_rows (s s' : State) : io_only s s' → rows_grow s s'.
Proof.
  intros [_ _ Hf Ho _ _ _]. split; exists []; now rewrite app_nil_r.
Qed.

(** One step of a frame proof: descend through the structure of the code
    down to its [modify] leaves, which [leaf] has to settle. *)
Ltac frames_step leaf :=
  lazymatch goal with
  | |- frames _ (mbind _ _) => apply frames_bind; [try exact _|  | intros ?]
  | |- frames _ (mret _) => apply frames_ret; exact _
  | |- frames _ (mthrow _) => apply frames_throw; exact _
  | |- frames _ (raise _ _) => apply frames_raise; exact _
  | |- frames _ (gets _) => apply frames_gets; exact _
  | |- frames _ (lift _) => apply frames_lift; exact _
  | |- frames _ tick => apply frames_tick; intros ?; leaf
  | |- frames _ (modify _) => apply frames_modify; intros ?; leaf
  | |- frames _ (try_finally _ _) => apply frames_try_finally; [try exact _| |]
  | |- frames _ (try_except _ _) => apply frames_try_except; [try exact _| |intros ?]
  | |- frames _ (attempt _) => apply frames_attempt; [try exact _|]
  | |- frames _ (for_each _ _) => apply frames_for_each; [try exact _|intros ?]
  | |- frames _ (match ?x with _ => _ end) => destruct x
  | |- frames _ (let _ := _ in _) => cbv zeta
  end.

Ltac frames_with leaf := repeat (frames_step leaf).

Ltac io_leaf := constructor; reflexivity.
Ltac handles_leaf := split; reflexivity.

(** ** What the input/output code leaves alone *)

Create HintDb frames discriminated.
Create HintDb prims discriminated.

#[global] Hint Unfold timezone_now time_time uuid_uuid4 os_path_exists write_file
  os_unlink os_makedirs os_path_getsize NamedTemporaryFile cv2_VideoCapture
  cap_release cv2_VideoWriter writer_write writer_release cv2_imwrite : prims.

Ltac frames_io :=
  repeat first [ frames_step io_leaf
               | progress autounfold with prims
               | solve [eauto with frames] ].

Ltac frames_handles :=
  repeat first [ frames_step handles_leaf
               | progress autounfold with prims
               | solve [eauto with frames] ].

Section InputOutput.
Context (E : Env).

Lemma process_frame_io (frame : Frame) (n : Z) :
  frames io_only (YOLOProcessor._process_frame E frame n).
Proof. unfold YOLOProcessor._process_frame. frames_io. Qed.

Lemma process_frame_handles (frame : Frame) (n : Z) :
  frames handles_kept (YOLOProcessor._process_frame E frame n).
Proof. unfold YOLOProcessor._process_frame. frames_handles. Qed.

Hint Resolve process_frame_io process_frame_handles : frames.

Lemma process_loop_io (out : option string) (k : Z) (reads : list (option Frame)) :
  ∀ (n : Z) (res : Results), frames io_only (YOLOProcessor.process_loop E out k reads n res).
Proof.
  induction reads as [|[frame|] reads IH]; intros n res; simpl;
    [frames_io | | frames_io].
  frames_io.
Qed.

Lemma process_loop_handles (out : option string) (k : Z) (reads : list (option Frame)) :
  ∀ (n : Z) (res : Results),
    frames handles_kept (YOLOProcessor.process_loop E out k reads n res).
Proof.
  induction reads as [|[frame|] reads IH]; intros n res; simpl;
    [frames_handles | | frames_handles].
  frames_handles.
Qed.

Lemma extract_loop_io (dir : string) (k : Z) (reads : list (option Frame)) :
  ∀ (n : Z) (paths : list string),
    frames io_only (YOLOProcessor.extract_loop dir k reads n paths).
Proof.
  induction reads as [|[frame|] reads IH]; intros n paths; simpl;
    [frames_io | | frames_io].
  frames_io.
Qed.

Lemma extract_loop_handles (dir : string) (k : Z) (reads : list (option Frame)) :
  ∀ (n : Z) (paths : list string),
    frames handles_kept (YOLOProcessor.extract_loop dir k reads n paths).
Proof.
  induction reads as [|[frame|] reads IH]; intros n paths; simpl;
    [frames_handles | | frames_handles].
  frames_handles.
Qed.

Hint Resolve process_loop_io extract_loop_io : frames.

Lemma process_video_io (video_path : string) (out : option string) (k : Z) :
  frames io_only (YOLOProcessor.process_video E video_path out k).
Proof. unfold YOLOProcessor.process_video. frames_io. Qed.

Lemma extract_frames_io (video_path dir : string) (k : Z) :
  frames io_only (YOLOProcessor.extract_frames E video_path dir k).
Proof. unfold YOLOProcessor.extract_frames. frames_io. Qed.

Lemma yolo_metadata_io (video_path : string) :
  frames io_only (YOLOProcessor.get_video_metadata E video_path).
Proof. unfold YOLOProcessor.get_video_metadata. frames_io. Qed.

Lemma yolo_init_io : frames io_only (YOLOProcessor.init E).
Proof. unfold YOLOProcessor.init. frames_io. Qed.

Lemma minio_init_io : frames io_only (MinIOClient.init E).
Proof. unfold MinIOClient.init. frames_io. Qed.

Lemma upload_file_io (file_path : string) (bucket_name object_name : option string) :
  frames io_only (MinIOClient.upload_file E file_path bucket_name object_name).
Proof.
  unfold MinIOClient.upload_file, MinIOClient.fput_object. frames_io.
Qed.

End InputOutput.

#[global] Hint Resolve process_frame_io process_loop_io extract_loop_io
  process_video_io extract_frames_io yolo_metadata_io yolo_init_io
  minio_init_io upload_file_io : frames.

(** ** [MinIOClient.upload_file]: the name an object is stored under *)

(** C10. [upload_file] stores the file under the requested name only when
    that name differs from the base name of the uploaded file.  When the
    effective name equals the base name (the [object_name] argument was
    omitted, or it was the base name itself) the object is stored under
    [name_<suffix><ext>], where the suffix is the first 8 hexadecimal
    characters of a fresh UUID and the split is before the extension: for
    a name [stem.e] with no dot in [e] and a character other than a dot
    in [stem], the stored name is [stem_<suffix>.e]; for a name without
    such an extension the suffix comes at the end.  The stored name is
    never the requested one. *)
Theorem upload_file_object_name (E : Env) (file_path : string)
    (bucket_name object_name : option string) (s : State) (file : File) :
  st_fs s !! file_path = Some file →
  (∀ o, s3_put_fault E (py_or bucket_name (default_bucket E)) o = None) →
  let bucket := py_or bucket_name (default_bucket E) in
  let base := PosixPath.basename file_path in
  let requested := py_or object_name base in
  let run := MinIOClient.upload_file E file_path bucket_name object_name s in
  ∃ stored : string,
    run.1 = Ret (bucket +:+ "/" +:+ stored)
    ∧ st_store run.2 = <[(bucket, stored) := file]> (st_store s)
    ∧ (requested ≠ base → stored = requested)
    ∧ (requested = base →
         ∃ name ext suffix : string,
           PosixPath.splitext requested = (name, ext)
           ∧ name +:+ ext = requested
           ∧ suffix = PosixPath.take 8 (uuid_hex (uuid4 E (st_ticks s)))
           ∧ String.length suffix = 8%nat
           ∧ all_hex suffix = true
           ∧ stored = name +:+ "_" +:+ suffix +:+ ext
           ∧ stored ≠ requested
           ∧ (∀ stem e : string,
                requested = stem +:+ "." +:+ e →
                PosixPath.rfind "." e = -1 →
                all_dots stem = false →
                stored = stem +:+ "_" +:+ suffix +:+ "." +:+ e)
           ∧ ((∀ stem e : string,
                 requested = stem +:+ "." +:+ e →
                 PosixPath.rfind "." e = -1 →
                 all_dots stem = true) →
              stored = requested +:+ "_" +:+ suffix))
    ∧ (object_name = None ∨ object_name = Some base → requested = base).
Proof.
  intros Hfile Hfault bucket base requested run.
  assert (object_name = None ∨ object_name = Some base → requested = base) as Hreq.
  { intros [-> | ->]; [reflexivity|]. subst requested. simpl.
    now destruct (bool_decide (base = "")) eqn:Hb; [apply bool_decide_eq_true in Hb|]. }
  subst run. unfold MinIOClient.upload_file.
  rewrite run_bind, (exists_true _ _ _ Hfile). cbn [negb].
  fold bucket. fold base. fold requested.
  unfold try_except. rewrite run_bind.
  destruct (bool_decide (requested = base)) eqn:Hcmp.
  - apply bool_decide_eq_true in Hcmp.
    assert (PosixPath.rfind "/" requested = -1) as Hsep.
    { rewrite Hcmp. apply PosixPathFacts.basename_no_sep. }
    destruct (PosixPath.splitext requested) as [name ext] eqn:Hsplit.
    pose proof (PosixPathFacts.splitext_app _ _ _ Hsplit) as Happ.
    destruct (uuid_suffix_spec (uuid4 E (st_ticks s))) as [Hlen Hhex].
    unfold uuid_uuid4, tick, MinIOClient.fput_object. unfold_monad.
    remember (PosixPath.take 8 (uuid_hex (uuid4 E (st_ticks s)))) as suffix.
    exists (name +:+ "_" +:+ suffix +:+ ext).
    rewrite Hfault. cbn. rewrite Hfile. cbn.
    repeat split; try done.
    intros _. exists name, ext, suffix.
    split; [reflexivity|]. split; [exact Happ|]. split; [reflexivity|].
    split; [exact Hlen|]. split; [exact Hhex|]. split; [reflexivity|].
    split; [|split].
    + intros Heq. apply (f_equal String.length) in Heq.
      rewrite <- Happ in Heq. rewrite !string_length_app, Hlen in Heq.
      simpl in Heq. lia.
    + intros stem e Hname He Hstem. rewrite Hname in Hsplit, Hsep.
      rewrite (PosixPathFacts.splitext_stem _ _ Hsep He), Hstem in Hsplit.
      now injection Hsplit as <- <-.
    + intros Hnone.
      rewrite (PosixPathFacts.splitext_no_stem _ Hsep Hnone) in Hsplit.
      injection Hsplit as <- <-. now rewrite string_app_nil_r.
  - apply bool_decide_eq_false in Hcmp.
    exists requested.
    unfold MinIOClient.fput_object. unfold_monad.
    rewrite Hfault. cbn. rewrite Hfile. cbn.
    repeat split; try done.
Qed.

(** Uploading the clip "/media/videos/clip.mp4" under its own base name stores it
    as "clip_deadbeef.mp4" when the UUID drawn starts with deadbeef. *)
Lemma upload_file_object_name_witness :
  (MinIOClient.upload_file (Demo.env Demo.steady_model) Demo.clip_path
     None (Some "clip.mp4") Demo.initial).1 = Ret "videos/clip_deadbeef.mp4".
Proof.
  destruct (upload_file_object_name (Demo.env Demo.steady_model) Demo.clip_path
              None (Some "clip.mp4") Demo.initial (FBlob 4096))
    as (stored & Hrun & _ & _ & Hsuffix & _).
  - vm_compute. reflexivity.
  - intros o. reflexivity.
  - destruct Hsuffix as (name & ext & suffix & _ & _ & Hsuf & _ & _ & _ & _ & Hstem & _).
    + vm_compute. reflexivity.
    + rewrite Hrun. f_equal.
      rewrite (Hstem "clip" "mp4" eq_refl eq_refl eq_refl), Hsuf.
      vm_compute. reflexivity.
Defined.

(** ** The metadata documents of the blob store *)

Lemma py_or_same (d : string) : py_or (Some d) d = d.
Proof.
  simpl. now destruct (bool_decide (d = "")) eqn:H; [apply bool_decide_eq_true in H|].
Qed.

Lemma metadata_object_name_sep (video_id : string) :
  0 <= PosixPath.rfind "/" (MinIOClient.metadata_object_name video_id).
Proof.
  unfold MinIOClient.metadata_object_name.
  do 8 (rewrite string_app_cons; apply PosixPathFacts.rfind_tail).
  rewrite string_app_cons. apply PosixPathFacts.rfind_head.
Qed.

Lemma metadata_object_name_requested (video_id base : string) :
  py_or (Some (MinIOClient.metadata_object_name video_id)) base
  = MinIOClient.metadata_object_name video_id.
Proof. reflexivity. Qed.

(** With a name that is not the base name of the file, [upload_file]
    stores the file under that very name, or passes the transport's error
    on. *)
Lemma upload_file_verbatim (E : Env) (file_path : string)
    (bucket_name object_name : option string) (s : State) (file : File) :
  st_fs s !! file_path = Some file →
  py_or object_name (PosixPath.basename file_path) ≠ PosixPath.basename file_path →
  let bucket := py_or bucket_name (default_bucket E) in
  let requested := py_or object_name (PosixPath.basename file_path) in
  MinIOClient.upload_file E file_path bucket_name object_name s
  = match s3_put_fault E bucket requested with
    | Some e => (Raise e, s)
    | None => (Ret (bucket +:+ "/" +:+ requested),
               upd_st_store (<[(bucket, requested) := file]>) s)
    end.
Proof.
  intros Hfile Hne bucket requested.
  unfold MinIOClient.upload_file.
  rewrite run_bind, (exists_true _ _ _ Hfile). cbn [negb].
  fold bucket. fold requested.
  rewrite bool_decide_eq_false_2 by exact Hne.
  unfold MinIOClient.fput_object. unfold_monad.
  destruct (s3_put_fault E bucket requested); [reflexivity|].
  rewrite Hfile. reflexivity.
Qed.

Lemma staging_removed (fs : gmap string File) (p : string) (f g : File) :
  fs !! p = None → delete p (<[p := f]> (<[p := g]> fs)) = fs.
Proof.
  intros H. rewrite insert_insert_eq, delete_insert_eq. now apply delete_id.
Qed.

Lemma staging_removed_1 (fs : gmap string File) (p : string) (f : File) :
  fs !! p = None → delete p (<[p := f]> fs) = fs.
Proof. intros H. rewrite delete_insert_eq. now apply delete_id. Qed.

(** ** [os.makedirs] and downloads *)

Lemma os_makedirs_state (E : Env) (dir : string) (s : State) :
  (os_makedirs E dir s).2 = s.
Proof.
  unfold os_makedirs. destruct (bool_decide (dir = "")); [reflexivity|].
  unfold_monad. destruct (holds_file (st_fs s) dir); [reflexivity|].
  now destruct (makedirs_fault E (st_fs s) dir).
Qed.

Lemma os_makedirs_ok (E : Env) (dir : string) (s : State) :
  dir ≠ "" →
  holds_file (st_fs s) dir = true ∨ makedirs_fault E (st_fs s) dir = None →
  os_makedirs E dir s = (Ret tt, s).
Proof.
  intros Hdir Hok. unfold os_makedirs.
  rewrite bool_decide_eq_false_2 by exact Hdir. unfold_monad.
  destruct (holds_file (st_fs s) dir); [reflexivity|].
  destruct Hok as [Hh|Hf]; [discriminate | now rewrite Hf].
Qed.

(** The directory of a file that exists can be "created". *)
Lemma os_makedirs_of_file (E : Env) (p : string) (f : File) (s : State) :
  st_fs s !! p = Some f → 0 <= PosixPath.rfind "/" p →
  os_makedirs E (PosixPath.dirname p) s = (Ret tt, s).
Proof.
  intros Hfile Hsep. apply os_makedirs_ok.
  - now apply PosixPathFacts.dirname_nonempty.
  - left. apply bool_decide_eq_true. exists p, f. split; [exact Hfile | reflexivity].
Qed.

Lemma download_file_run (E : Env) (bucket_name object_name file_path : string)
    (s : State) :
  os_makedirs E (PosixPath.dirname file_path) s = (Ret tt, s) →
  MinIOClient.download_file E bucket_name object_name file_path s
  = match s3_get_fault E bucket_name object_name with
    | Some e => if decide (exn_class e = S3Error) then (Ret false, s) else (Raise e, s)
    | None =>
        match st_store s !! (bucket_name, object_name) with
        | Some file => (Ret true, upd_st_fs (<[file_path := file]>) s)
        | None => (Ret false, s)
        end
    end.
Proof.
  intros Hdir.
  unfold MinIOClient.download_file, MinIOClient.fget_object, write_file.
  unfold_monad. rewrite Hdir.
  destruct (s3_get_fault E bucket_name object_name) as [e|];
    [now destruct (decide _)|].
  destruct (st_store s !! (bucket_name, object_name)) as [file|]; [reflexivity|].
  cbn. now destruct (decide (S3Error = S3Error)).
Qed.

Section MetadataPath.
Context (E : Env) (video_id : string).

Let bucket := default_bucket E.
Let object_name := MinIOClient.metadata_object_name video_id.

Lemma upload_video_metadata_run (m : json) (text : string) (s : State) :
  json_dump E m = Ret text →
  st_fs s !! tmp_name E (st_fs s) ".json" = None →
  let run := MinIOClient.upload_video_metadata E video_id m s in
  st_fs run.2 = st_fs s
  ∧ match s3_put_fault E bucket object_name with
    | Some e => run.1 = Raise e ∧ st_store run.2 = st_store s
    | None => run.1 = Ret (bucket +:+ "/" +:+ object_name)
              ∧ st_store run.2 = <[(bucket, object_name) := FText text]> (st_store s)
    end.
Proof.
  intros Hdump Hfresh run. subst run.
  unfold MinIOClient.upload_video_metadata, NamedTemporaryFile, write_file,
    os_unlink, os_path_exists.
  unfold_monad. rewrite Hdump.
  set (p := tmp_name E (st_fs s) ".json") in *.
  cbn -[MinIOClient.upload_file].
  rewrite (upload_file_verbatim E p _ _ _ (FText text)).
  2:{ cbn. apply lookup_insert_eq. }
  2:{ rewrite metadata_object_name_requested.
      apply PosixPathFacts.basename_ne_with_sep, metadata_object_name_sep. }
  rewrite py_or_same, metadata_object_name_requested.
  fold bucket. fold object_name.
  destruct (s3_put_fault E bucket object_name) as [e|]; cbn;
    rewrite !lookup_insert_eq; cbn;
    (split; [now apply staging_removed | done]).
Qed.

(** What [get_video_metadata] returns, and that it puts the local files
    and the store back as they were. *)
Lemma get_video_metadata_run (s : State) :
  let run := MinIOClient.get_video_metadata E video_id s in
  run.1 = Ret match s3_get_fault E bucket object_name,
                    st_store s !! (bucket, object_name) with
              | None, Some (FText text) =>
                  match json_load E text with
                  | Ret metadata => Some metadata
                  | Raise _ => None
                  end
              | _, _ => None
              end
  ∧ st_store run.2 = st_store s
  ∧ (st_fs s !! tmp_name E (st_fs s) "" = None → st_fs run.2 = st_fs s).
Proof.
  intros run. subst run.
  unfold MinIOClient.get_video_metadata, NamedTemporaryFile, write_file.
  fold object_name. fold bucket.
  set (p := tmp_name E (st_fs s) "") in *.
  unfold_monad. cbn. fold p.
  rewrite download_file_run.
  2:{ apply (os_makedirs_of_file E p (FText "")); [apply lookup_insert_eq|].
      apply PosixPathFacts.startswith_sep_rfind, tmp_name_absolute. }
  cbn.
  unfold MinIOClient.load_json_file, os_unlink, os_path_exists.
  unfold_monad.
  destruct (s3_get_fault E bucket object_name) as [e|].
  - destruct (decide (exn_class e = S3Error)); cbn; rewrite lookup_insert_eq; cbn;
      (split; [reflexivity|]); (split; [reflexivity|]);
      intros Hfresh; now apply staging_removed_1.
  - destruct (st_store s !! (bucket, object_name)) as [[text| | |]|]; cbn;
      rewrite ?lookup_insert_eq; cbn; rewrite ?lookup_insert_eq; cbn;
      try ((split; [reflexivity|]); (split; [reflexivity|]);
           intros Hfresh;
           first [now apply staging_removed | now apply staging_removed_1]).
    destruct (json_load E text); cbn; rewrite ?lookup_insert_eq; cbn;
      (split; [reflexivity|]); (split; [reflexivity|]);
      intros Hfresh; now apply staging_removed.
Qed.

End MetadataPath.

(** C9. For a serializable document [m], writing it with
    [upload_video_metadata] and reading it back with [get_video_metadata]
    leaves the local files as they were, whatever the transport and the
    codec do; and when the transport stores and returns the object, the
    document read is what the codec reads from the text it wrote for [m]
    ([None] when it cannot read it).  This is [m] itself only when the
    codec reads back what it wrote. *)
Theorem metadata_round_trip (E : Env) (video_id : string) (m : json)
    (text : string) (s : State) :
  json_dump E m = Ret text →
  st_fs s !! tmp_name E (st_fs s) ".json" = None →
  st_fs s !! tmp_name E (st_fs s) "" = None →
  let up := MinIOClient.upload_video_metadata E video_id m s in
  let down := MinIOClient.get_video_metadata E video_id up.2 in
  let bucket := default_bucket E in
  let object_name := MinIOClient.metadata_object_name video_id in
  (st_fs up.2 = st_fs s ∧ st_fs down.2 = st_fs s)
  ∧ (s3_put_fault E bucket object_name = None →
     s3_get_fault E bucket object_name = None →
     up.1 = Ret (bucket +:+ "/" +:+ object_name)
     ∧ st_store up.2 !! (bucket, object_name) = Some (FText text)
     ∧ down.1 = Ret match json_load E text with
                    | Ret read => Some read
                    | Raise _ => None
                    end
     ∧ (json_load E text = Ret m → down.1 = Ret (Some m))).
Proof.
  intros Hdump Hfresh1 Hfresh2 up down bucket object_name.
  destruct (upload_video_metadata_run E video_id m text s Hdump Hfresh1)
    as [Hfs_up Hup]. fold up in Hfs_up, Hup.
  assert (st_fs up.2 !! tmp_name E (st_fs up.2) "" = None) as Hfresh2'.
  { now rewrite Hfs_up. }
  destruct (get_video_metadata_run E video_id up.2)
    as (Hdown & _ & Hfs_down). fold down in Hfs_down, Hdown.
  specialize (Hfs_down Hfresh2').
  split; [split; congruence|].
  intros Hput Hget. fold bucket object_name in Hup, Hdown.
  rewrite Hput in Hup. destruct Hup as [Hup1 Hup2].
  assert (st_store up.2 !! (bucket, object_name) = Some (FText text)) as Hstored.
  { rewrite Hup2. apply lookup_insert_eq. }
  rewrite Hget, Hstored in Hdown.
  split; [exact Hup1|]. split; [exact Hstored|]. split; [exact Hdown|].
  intros Hload. now rewrite Hdown, Hload.
Qed.

(** A document of strings, numbers and a nested object makes the round
    trip through the example codec, and the staging files are gone. *)
Lemma metadata_round_trip_witness :
  let E := Demo.env Demo.steady_model in
  let id := "3f2b8c1e-5d4a-4e6f-9a7b-0c1d2e3f4a5b" in
  let m := JObj [(KStr "fps", JInt 30);
                 (KStr "resolution", JStr "640x480");
                 (KStr "counts", JObj [(KStr "person", JInt 2)])] in
  let up := MinIOClient.upload_video_metadata E id m Demo.initial in
  let down := MinIOClient.get_video_metadata E id up.2 in
  down.1 = Ret (Some m) ∧ st_fs down.2 = st_fs Demo.initial.
Proof.
  intros E id m up down.
  destruct (metadata_round_trip E id m
              (match json_dump E m with Ret text => text | Raise _ => "" end)
              Demo.initial) as [[_ Hfs] Hrt].
  - vm_compute. reflexivity.
  - vm_compute. reflexivity.
  - vm_compute. reflexivity.
  - split; [|exact Hfs].
    destruct Hrt as (_ & _ & _ & Hsame); [reflexivity | reflexivity |].
    apply Hsame. vm_compute. reflexivity.
Defined.

(** A document with the integer key 1 is written with the key "1": what
    is read back has a string key, and is not the document written. *)
Lemma metadata_int_key_read_as_string :
  let E := Demo.env Demo.steady_model in
  let id := "3f2b8c1e-5d4a-4e6f-9a7b-0c1d2e3f4a5b" in
  let m := JObj [(KInt 1, JStr "a")] in
  let up := MinIOClient.upload_video_metadata E id m Demo.initial in
  let down := MinIOClient.get_video_metadata E id up.2 in
  (∃ text, json_dump E m = Ret text)
  ∧ up.1 = Ret "videos/metadata/3f2b8c1e-5d4a-4e6f-9a7b-0c1d2e3f4a5b.json"
  ∧ down.1 = Ret (Some (JObj [(KStr "1", JStr "a")]))
  ∧ down.1 ≠ Ret (Some m).
Proof.
  cbv zeta. split; [eexists; vm_compute; reflexivity|].
  split; [vm_compute; reflexivity|].
  split; [vm_compute; reflexivity|].
  vm_compute. discriminate.
Qed.

(** ** The frame source: metadata *)

Lemma Qltb_lt (x y : Q) : Qltb x y = true ↔ (x < y)%Q.
Proof.
  unfold Qltb. rewrite negb_true_iff. split.
  - intros H. apply Qnot_le_lt. intros Hle.
    apply Qle_bool_iff in Hle. congruence.
  - intros H. destruct (Qle_bool y x) eqn:Hb; [|reflexivity].
    apply Qle_bool_iff in Hb. exfalso. now apply (Qlt_not_le x y).
Qed.

Lemma duration_of_pos (E : Env) (frame_count : Z) (fps : Q) :
  (0 < fps)%Q →
  duration_of E frame_count fps = Ret (PFloat (rnd64 E (inject_Z frame_count / fps))).
Proof.
  intros Hpos. unfold duration_of, truediv.
  rewrite (proj2 (Qltb_lt 0 fps) Hpos).
  destruct (Qeq_bool fps 0) eqn:Hz; [|reflexivity].
  apply Qeq_bool_eq in Hz. rewrite Hz in Hpos. now apply Qlt_irrefl in Hpos.
Qed.

Lemma duration_of_nonpos (E : Env) (frame_count : Z) (fps : Q) :
  (fps <= 0)%Q → duration_of E frame_count fps = Ret (PInt 0).
Proof.
  intros Hle. unfold duration_of.
  destruct (Qltb 0 fps) eqn:Hb; [|reflexivity].
  apply Qltb_lt in Hb. exfalso. now apply (Qlt_not_le 0 fps).
Qed.

(** The division is guarded: the expression always has a value. *)
Lemma duration_of_total (E : Env) (frame_count : Z) (fps : Q) :
  ∃ d, duration_of E frame_count fps = Ret d.
Proof.
  destruct (Qlt_le_dec 0 fps) as [Hpos|Hle].
  - eexists. now apply duration_of_pos.
  - eexists. now apply duration_of_nonpos.
Qed.

(** ** The detector wrapper *)

Lemma process_frame_run (E : Env) (frame : Frame) (n : Z) (s : State) :
  YOLOProcessor._process_frame E frame n s
  = match detect E frame with
    | Ret ds =>
        (Ret {| fr_frame_number := n; fr_objects := ds;
                fr_processing_time :=
                  rnd64 E (wall E (S (st_ticks s)) - wall E (st_ticks s));
                fr_object_count := Z.of_nat (length ds) |},
         upd_st_ticks S (upd_st_ticks S s))
    | Raise e => (Raise e, upd_st_ticks S s)
    end.
Proof.
  unfold YOLOProcessor._process_frame, detect, time_time, tick.
  unfold_monad. cbn.
  destruct (model_call E frame) as [results|e]; cbn; [|reflexivity].
  destruct (YOLOProcessor.results_loop E results []); reflexivity.
Qed.

Lemma process_frame_result (E : Env) (frame : Frame) (n : Z) (s : State)
    (ds : list Detection) :
  detect E frame = Ret ds →
  ∃ fr s1, YOLOProcessor._process_frame E frame n s = (Ret fr, s1)
           ∧ result_of E (n, frame) fr.
Proof.
  intros Hd. rewrite process_frame_run, Hd. do 2 eexists. split; [reflexivity|].
  repeat split; assumption.
Qed.

(** ** The sampling loops, one iteration at a time *)

Lemma py_mod_nonzero (n k : Z) : k ≠ 0 → py_mod n k = Ret (n mod k).
Proof. intros Hk. unfold py_mod. now destruct (decide (k = 0)). Qed.

Section LoopSteps.
Context (E : Env) (out : option string) (k : Z) (Hk : k ≠ 0).

Lemma process_loop_skip frame rest n res s :
  n mod k ≠ 0 →
  ∃ s1, YOLOProcessor.process_loop E out k (Some frame :: rest) n res s
        = YOLOProcessor.process_loop E out k rest (n + 1) res s1.
Proof.
  intros Hn. cbn [YOLOProcessor.process_loop].
  rewrite run_bind, (py_mod_nonzero _ _ Hk). unfold lift at 1.
  apply Z.eqb_neq in Hn. rewrite Hn.
  destruct (truthy out); unfold_monad; unfold writer_write;
    try destruct (writer_opens E _); unfold_monad; eexists; reflexivity.
Qed.

Lemma process_loop_hit frame rest n res s ds :
  n mod k = 0 → detect E frame = Ret ds →
  ∃ fr s1, result_of E (n, frame) fr
           ∧ YOLOProcessor.process_loop E out k (Some frame :: rest) n res s
             = YOLOProcessor.process_loop E out k rest (n + 1)
                 (YOLOProcessor.add_frame_result fr res) s1.
Proof.
  intros Hn Hd. cbn [YOLOProcessor.process_loop].
  rewrite run_bind, (py_mod_nonzero _ _ Hk). unfold lift at 1.
  apply Z.eqb_eq in Hn. rewrite Hn.
  destruct (process_frame_result E frame n s ds Hd) as (fr & s1 & Hrun & Hres).
  exists fr. rewrite !run_bind, Hrun.
  destruct (truthy out); unfold_monad; unfold writer_write;
    try destruct (writer_opens E _); unfold_monad;
    cbn; eexists; (split; [exact Hres | reflexivity]).
Qed.

Lemma process_loop_fail frame rest n res s e :
  n mod k = 0 → detect E frame = Raise e →
  (YOLOProcessor.process_loop E out k (Some frame :: rest) n res s).1 = Raise e.
Proof.
  intros Hn Hd. cbn [YOLOProcessor.process_loop].
  rewrite run_bind, (py_mod_nonzero _ _ Hk). unfold lift at 1.
  apply Z.eqb_eq in Hn. rewrite Hn.
  rewrite !run_bind, process_frame_run, Hd. reflexivity.
Qed.



End LoopSteps.

(** ** The sampling loops as a whole *)

Section Loops.
Context (E : Env) (out : option string) (k : Z) (Hk : k ≠ 0).

(** When detection succeeds on every selected frame that decodes, the
    loop returns one result per selected frame, in order. *)
Lemma process_loop_results (reads : list (option Frame)) :
  ∀ n res s,
    Forall (λ p, is_Ret (detect E p.2) = true) (selected k n (decoded reads)) →
    ∃ r new,
      (YOLOProcessor.process_loop E out k reads n res s).1 = Ret r
      ∧ res_detections r = (res_detections res ++ new)%list
      ∧ Forall2 (result_of E) (selected k n (decoded reads)) new
      ∧ res_processed_frames r = res_processed_frames res + Z.of_nat (length new)
      ∧ res_video_metadata r = res_video_metadata res.
Proof.
  induction reads as [|[frame|] reads IH]; intros n res s Hok.
  - exists res, []. cbn. rewrite app_nil_r. repeat split; [constructor | lia].
  - cbn [decoded selected] in *.
    destruct (decide (n mod k = 0)) as [Hn|Hn].
    + rewrite (proj2 (Z.eqb_eq _ _) Hn) in *. cbn [app] in *.
      apply Forall_cons in Hok as [Hhead Hok]. cbn in Hhead.
      destruct (detect E frame) as [ds|e] eqn:Hd; [|discriminate].
      destruct (process_loop_hit E out k Hk frame reads n res s ds Hn Hd)
        as (fr & s1 & Hfr & ->).
      destruct (IH (n + 1) (YOLOProcessor.add_frame_result fr res) s1 Hok)
        as (r & new & Hrun & Hdet & Hall & Hcount & Hmeta).
      exists r, (fr :: new). cbn in *. repeat split.
      * exact Hrun.
      * rewrite Hdet, <- app_assoc. reflexivity.
      * now constructor.
      * lia.
      * exact Hmeta.
    + rewrite (proj2 (Z.eqb_neq _ _) Hn) in *. cbn [app] in *.
      destruct (process_loop_skip E out k Hk frame reads n res s Hn) as [s1 ->].
      now apply IH.
  - exists res, []. cbn. rewrite app_nil_r. repeat split; [constructor | lia].
Qed.

(** The first selected frame on which detection raises ends the loop
    with that exception. *)
Lemma process_loop_raises (reads : list (option Frame)) :
  ∀ n res s done p rest e,
    selected k n (decoded reads) = (done ++ p :: rest)%list →
    Forall (λ p, is_Ret (detect E p.2) = true) done →
    detect E p.2 = Raise e →
    (YOLOProcessor.process_loop E out k reads n res s).1 = Raise e.
Proof.
  induction reads as [|[frame|] reads IH]; intros n res s done p rest e Hsel Hok Hbad.
  - now destruct done.
  - cbn [decoded selected] in Hsel.
    destruct (decide (n mod k = 0)) as [Hn|Hn].
    + rewrite (proj2 (Z.eqb_eq _ _) Hn) in Hsel. cbn [app] in Hsel.
      destruct done as [|q done].
      * cbn in Hsel. injection Hsel as <- _. cbn in Hbad.
        now apply process_loop_fail.
      * cbn in Hsel. injection Hsel as <- Hsel.
        apply Forall_cons in Hok as [Hhead Hok]. cbn in Hhead.
        destruct (detect E frame) as [ds|e'] eqn:Hd; [|discriminate].
        destruct (process_loop_hit E out k Hk frame reads n res s ds Hn Hd)
          as (fr & s1 & _ & ->).
        now apply (IH _ _ _ done p rest e).
    + rewrite (proj2 (Z.eqb_neq _ _) Hn) in Hsel. cbn [app] in Hsel.
      destruct (process_loop_skip E out k Hk frame reads n res s Hn) as [s1 ->].
      now apply (IH _ _ _ done p rest e).
  - now destruct done.
Qed.


End Loops.

(** ** Which indices are selected *)


Lemma decoded_all (frames : list Frame) : decoded (Some <$> frames) = frames.
Proof. induction frames as [|f frames IH]; cbn; [reflexivity | now rewrite IH]. Qed.



(** ** [process_video] and [extract_frames] around their loops *)

Section Around.
Context (E : Env) (video_path : string) (s : State) (file : File) (vf : VideoFile).
Context (Hfile : st_fs s !! video_path = Some file).
Context (Hopen : cv_open E video_path = Some vf).

(** The outcome of [process_video] is the outcome of its loop, with the
    elapsed time filled in. *)
Lemma process_video_outcome (out : option string) (k : Z) :
  ∃ d s1,
    duration_of E (vf_frame_count vf) (vf_fps vf) = Ret d
    ∧ match (YOLOProcessor.process_loop E out k (vf_reads vf) 0
               (initial_results vf d) s1).1 with
      | Ret r => ∃ t, (YOLOProcessor.process_video E video_path out k s).1
                      = Ret (YOLOProcessor.set_processing_time t r)
      | Raise e => (YOLOProcessor.process_video E video_path out k s).1 = Raise e
      end.
Proof.
  destruct (duration_of_total E (vf_frame_count vf) (vf_fps vf)) as [d Hd].
  exists d.
  exists (upd_st_ticks S
            ((if truthy out && writer_opens E (default "" out)
              then λ s0, upd_st_fs (<[default "" out := FVideo []]>) (upd_st_writers S s0)
              else λ s0, s0) (upd_st_caps S s))).
  split; [exact Hd|].
  unfold YOLOProcessor.process_video, os_path_exists, cv2_VideoCapture,
    cv2_VideoWriter, write_file, time_time, tick, cap_release, writer_release,
    initial_results.
  unfold_monad. rewrite Hfile, Hopen, Hd.
  destruct (truthy out); cbn; try destruct (writer_opens E (default "" out)); cbn;
    match goal with
    | |- context [YOLOProcessor.process_loop E ?o k ?rd 0 ?r0 ?s0] =>
        destruct (YOLOProcessor.process_loop E o k rd 0 r0 s0) as [[r|e] s2]
    end; cbn; eauto.
Qed.


End Around.

(** Handles: taken by [process_video], [extract_frames] and
    [get_video_metadata], and given back on every path. *)
Lemma process_video_handles (E : Env) (video_path : string) (out : option string) (k : Z) :
  frames handles_kept (YOLOProcessor.process_video E video_path out k).
Proof.
  intros s.
  unfold YOLOProcessor.process_video, os_path_exists, cv2_VideoCapture,
    cv2_VideoWriter, write_file, time_time, tick, cap_release, writer_release.
  unfold_monad.
  destruct (bool_decide _); cbn [negb]; [|now split].
  destruct (cv_open E video_path) as [vf|]; [|now split].
  destruct (duration_of_total E (vf_frame_count vf) (vf_fps vf)) as [d ->].
  destruct (truthy out); cbn; try destruct (writer_opens E (default "" out)); cbn;
    match goal with
    | |- context [YOLOProcessor.process_loop E ?o k ?rd 0 ?r0 ?s0] =>
        pose proof (process_loop_handles E o k rd 0 r0 s0) as [Hc Hw];
        destruct (YOLOProcessor.process_loop E o k rd 0 r0 s0) as [[r|e] s2]
    end; cbn in *; split; cbn; rewrite ?Hc, ?Hw; reflexivity.
Qed.

Lemma extract_frames_handles (E : Env) (video_path dir : string) (k : Z) :
  frames handles_kept (YOLOProcessor.extract_frames E video_path dir k).
Proof.
  intros s.
  unfold YOLOProcessor.extract_frames, os_path_exists,
    cv2_VideoCapture, cap_release.
  unfold_monad.
  destruct (bool_decide _); cbn [negb]; [|now split].
  pose proof (os_makedirs_state E dir s) as Hdir.
  destruct (os_makedirs E dir s) as [[[]|e] s0]; cbn in Hdir; subst s0; [|now split].
  destruct (cv_open E video_path) as [vf|]; [|now split].
  cbn.
  match goal with
  | |- context [YOLOProcessor.extract_loop dir k ?rd 0 ?r0 ?s0] =>
      pose proof (extract_loop_handles dir k rd 0 r0 s0) as [Hc Hw];
      destruct (YOLOProcessor.extract_loop dir k rd 0 r0 s0) as [r s2]
  end; cbn in *; split; cbn; rewrite ?Hc, ?Hw; reflexivity.
Qed.

(** ** Partial results of [process_video] *)

Section PartialResults.
Context (E : Env) (video_path : string) (out : option string) (k : Z)
  (s : State) (file : File) (vf : VideoFile).
Context (Hfile : st_fs s !! video_path = Some file).
Context (Hopen : cv_open E video_path = Some vf).
Context (Hk : k ≠ 0).

Lemma process_video_returns :
  Forall (λ p, is_Ret (detect E p.2) = true) (selected k 0 (decoded (vf_reads vf))) →
  ∃ r, (YOLOProcessor.process_video E video_path out k s).1 = Ret r
       ∧ Forall2 (result_of E) (selected k 0 (decoded (vf_reads vf))) (res_detections r)
       ∧ res_processed_frames r
         = Z.of_nat (length (selected k 0 (decoded (vf_reads vf)))).
Proof.
  intros Hok.
  destruct (process_video_outcome E video_path s file vf Hfile Hopen out k)
    as (d & s1 & _ & Hrun).
  destruct (process_loop_results E out k Hk (vf_reads vf) 0 (initial_results vf d) s1 Hok)
    as (r & new & Hloop & Hdet & Hall & Hcount & _).
  rewrite Hloop in Hrun. destruct Hrun as [t Hrun].
  exists (YOLOProcessor.set_processing_time t r). cbn in *. subst.
  repeat split; [exact Hrun | exact Hall |].
  rewrite Hcount. apply Forall2_length in Hall. lia.
Qed.

Lemma process_video_raises (done : list (Z * Frame)) (p : Z * Frame)
    (rest : list (Z * Frame)) (e : Exn) :
  selected k 0 (decoded (vf_reads vf)) = (done ++ p :: rest)%list →
  Forall (λ p, is_Ret (detect E p.2) = true) done →
  detect E p.2 = Raise e →
  (YOLOProcessor.process_video E video_path out k s).1 = Raise e.
Proof.
  intros Hsel Hok Hbad.
  destruct (process_video_outcome E video_path s file vf Hfile Hopen out k)
    as (d & s1 & _ & Hrun).
  rewrite (process_loop_raises E out k Hk (vf_reads vf) 0 _ s1 done p rest e Hsel Hok Hbad)
    in Hrun.
  exact Hrun.
Qed.

End PartialResults.

(** C3, as the code has it.  [process_video] gives back every capture and
    writer handle it took, on every path.  Iteration stops at the first
    read that fails to decode, and the results computed up to there are
    returned, one per selected frame.  An exception raised by detection on
    a selected frame is not absorbed: it leaves [process_video] as that
    exception, and no result is returned. *)
Theorem process_video_partial_results (E : Env) (video_path : string)
    (out : option string) (k : Z) (s : State) (file : File) (vf : VideoFile) :
  st_fs s !! video_path = Some file →
  cv_open E video_path = Some vf →
  k ≠ 0 →
  let run := YOLOProcessor.process_video E video_path out k s in
  let sel := selected k 0 (decoded (vf_reads vf)) in
  handles_kept s run.2
  ∧ (Forall (λ p, is_Ret (detect E p.2) = true) sel →
     ∃ r, run.1 = Ret r
          ∧ Forall2 (result_of E) sel (res_detections r)
          ∧ res_processed_frames r = Z.of_nat (length sel))
  ∧ (∀ done p rest e,
       sel = (done ++ p :: rest)%list →
       Forall (λ p, is_Ret (detect E p.2) = true) done →
       detect E p.2 = Raise e →
       run.1 = Raise e).
Proof.
  intros Hfile Hopen Hk run sel. split; [apply process_video_handles|]. split.
  - now apply (process_video_returns E video_path out k s file vf).
  - intros done p rest e. now apply (process_video_raises E video_path out k s file vf).
Qed.

(** On the ten-frame clip, sampled every third frame, four results come
    back. *)
Lemma process_video_partial_results_witness :
  ∃ r, (YOLOProcessor.process_video (Demo.env Demo.steady_model) Demo.clip_path
          None 3 Demo.initial).1 = Ret r
       ∧ res_processed_frames r = 4.
Proof.
  destruct (process_video_partial_results (Demo.env Demo.steady_model)
              Demo.clip_path None 3 Demo.initial (FBlob 4096) Demo.clip)
    as (_ & Hok & _).
  - vm_compute. reflexivity.
  - vm_compute. reflexivity.
  - lia.
  - destruct Hok as (r & Hrun & _ & Hcount).
    + vm_compute. repeat constructor.
    + exists r. split; [exact Hrun | exact Hcount].
Defined.

(** The claim as the specification words it fails when detection raises:
    with a detector that fails on the second frame, the results of the
    first frame are computed and then lost with the exception. *)
Lemma detection_error_loses_results :
  detect (Demo.env Demo.flaky_model) (RawFrame 0) ≠ Ret []
  ∧ is_Ret (detect (Demo.env Demo.flaky_model) (RawFrame 0)) = true
  ∧ (YOLOProcessor.process_video (Demo.env Demo.flaky_model) Demo.clip_path
       None 1 Demo.initial).1
    = Raise (MkExn OtherError "CUDA out of memory").
Proof. vm_compute. repeat split; discriminate. Qed.

(** ** Which frames are sampled *)





(** ** Duration *)

Lemma process_loop_metadata (E : Env) (out : option string) (k : Z)
    (reads : list (option Frame)) :
  ∀ n res s r,
    (YOLOProcessor.process_loop E out k reads n res s).1 = Ret r →
    res_video_metadata r = res_video_metadata res.
Proof.
  induction reads as [|[frame|] reads IH]; intros n res s r; cbn [YOLOProcessor.process_loop].
  - now intros [= <-].
  - rewrite run_bind. unfold lift at 1, py_mod.
    destruct (decide (k = 0)); [discriminate|].
    rewrite run_bind.
    destruct (n mod k =? 0).
    + rewrite run_bind, process_frame_run.
      destruct (detect E frame) as [ds|e]; [|discriminate].
      unfold mret at 1, M_ret at 1. rewrite run_bind.
      destruct (truthy out); unfold writer_write;
        try destruct (writer_opens E _); unfold_monad;
        intros H; now rewrite (IH _ _ _ _ H).
    + unfold mret at 1, M_ret at 1. rewrite run_bind.
      destruct (truthy out); unfold writer_write;
        try destruct (writer_opens E _); unfold_monad;
        intros H; now rewrite (IH _ _ _ _ H).
  - now intros [= <-].
Qed.

(** C5. For a readable video, [get_video_metadata] returns, and the
    duration it reports is the float quotient [frame_count / fps] when
    [fps > 0] and the integer 0 when [fps <= 0]; the metadata inside a
    result of [process_video] has the same duration; and the guarded
    division never raises. *)
Theorem duration_is_frame_count_over_fps (E : Env) (video_path : string)
    (s : State) (file : File) (vf : VideoFile) :
  st_fs s !! video_path = Some file →
  cv_open E video_path = Some vf →
  let fps := vf_fps vf in
  let frame_count := vf_frame_count vf in
  let quotient := PFloat (rnd64 E (inject_Z frame_count / fps)) in
  (∃ md, (YOLOProcessor.get_video_metadata E video_path s).1 = Ret md
         ∧ md_fps md = fps ∧ md_frame_count md = frame_count
         ∧ ((0 < fps)%Q → md_duration md = quotient)
         ∧ ((fps <= 0)%Q → md_duration md = PInt 0))
  ∧ (∀ out k r,
       (YOLOProcessor.process_video E video_path out k s).1 = Ret r →
       sm_fps (res_video_metadata r) = fps
       ∧ sm_frame_count (res_video_metadata r) = frame_count
       ∧ ((0 < fps)%Q → sm_duration (res_video_metadata r) = quotient)
       ∧ ((fps <= 0)%Q → sm_duration (res_video_metadata r) = PInt 0))
  ∧ (∀ n x, ∃ d, duration_of E n x = Ret d).
Proof.
  intros Hfile Hopen fps frame_count quotient.
  destruct (duration_of_total E frame_count fps) as [d Hd].
  assert (((0 < fps)%Q → d = quotient) ∧ ((fps <= 0)%Q → d = PInt 0)) as [Hpos Hnonpos].
  { split; intros H.
    - rewrite (duration_of_pos E frame_count fps H) in Hd. now injection Hd.
    - rewrite (duration_of_nonpos E frame_count fps H) in Hd. now injection Hd. }
  split; [|split].
  - unfold YOLOProcessor.get_video_metadata, os_path_exists, cv2_VideoCapture,
      os_path_getsize, cap_release.
    unfold_monad. rewrite Hfile, Hopen. cbn. fold fps frame_count. rewrite Hd.
    cbn. rewrite Hfile. cbn. eexists. split; [reflexivity|]. cbn. auto.
  - intros out k r Hrun.
    destruct (process_video_outcome E video_path s file vf Hfile Hopen out k)
      as (d' & s1 & Hd' & Hout).
    fold fps frame_count in Hd'. rewrite Hd in Hd'. injection Hd' as <-.
    destruct (YOLOProcessor.process_loop E out k (vf_reads vf) 0 (initial_results vf d) s1).1
      as [r0|e] eqn:Hloop.
    + destruct Hout as [t Hout]. rewrite Hout in Hrun. injection Hrun as <-.
      apply process_loop_metadata in Hloop. cbn. rewrite Hloop. cbn. auto.
    + rewrite Hout in Hrun. discriminate.
  - intros n x. apply duration_of_total.
Qed.

(** The clip: 10 frames at 30 fps. *)
Lemma duration_is_frame_count_over_fps_witness :
  ∃ md, (YOLOProcessor.get_video_metadata (Demo.env Demo.steady_model)
           Demo.clip_path Demo.initial).1 = Ret md
        ∧ md_duration md = PFloat (inject_Z 10 / 30).
Proof.
  destruct (duration_is_frame_count_over_fps (Demo.env Demo.steady_model)
              Demo.clip_path Demo.initial (FBlob 4096) Demo.clip)
    as ((md & Hrun & _ & _ & Hpos & _) & _).
  - vm_compute. reflexivity.
  - vm_compute. reflexivity.
  - exists md. split; [exact Hrun|]. apply Hpos. reflexivity.
Defined.

(** ** Bounding boxes *)

Lemma exact_rounding : RoundingOK (λ x : Q, x).
Proof. split; [now intros x y H | intros z _; reflexivity]. Qed.

Lemma boxes_loop_spec (E : Env) (boxes : list RawBox) :
  ∀ acc ds, YOLOProcessor.boxes_loop E boxes acc = Ret ds →
            ∃ new, ds = (acc ++ new)%list ∧ Forall2 (box_of E) boxes new.
Proof.
  induction boxes as [|b boxes IH]; intros acc ds; cbn [YOLOProcessor.boxes_loop].
  - intros [= <-]. exists []. rewrite app_nil_r. split; [reflexivity | constructor].
  - unfold YOLOProcessor.box_to_detection.
    destruct (model_names E (box_cls b)) as [class_name|] eqn:Hname; [|discriminate].
    cbn. intros H. destruct (IH _ _ H) as (new & -> & Hall).
    eexists (_ :: new). rewrite <- app_assoc. split; [reflexivity|].
    constructor; [|exact Hall]. repeat split; assumption.
Qed.

Lemma results_loop_spec (E : Env) (results : list (option (list RawBox))) :
  ∀ acc ds, YOLOProcessor.results_loop E results acc = Ret ds →
            ∃ new, ds = (acc ++ new)%list ∧ Forall2 (box_of E) (flat_boxes results) new.
Proof.
  induction results as [|[boxes|] results IH]; intros acc ds;
    cbn [YOLOProcessor.results_loop].
  - intros [= <-]. exists []. rewrite app_nil_r. split; [reflexivity | constructor].
  - destruct (YOLOProcessor.boxes_loop E boxes acc) as [acc'|e] eqn:Hb; [|discriminate].
    cbn. intros H.
    destruct (boxes_loop_spec E boxes acc acc' Hb) as (new1 & -> & Hall1).
    destruct (IH _ _ H) as (new2 & -> & Hall2).
    exists (new1 ++ new2)%list. rewrite <- app_assoc. split; [reflexivity|].
    unfold flat_boxes. cbn. now apply Forall2_app.
  - intros H. destruct (IH _ _ H) as (new & -> & Hall).
    exists new. split; [reflexivity|]. exact Hall.
Qed.

Lemma rounded_size_sign (rnd : Q → Q) (a b : Q) :
  RoundingOK rnd →
  ((a <= b → 0 <= rnd (b - a)) ∧ (b <= a → rnd (b - a) <= 0))%Q.
Proof.
  intros [Hmono Hint].
  pose proof (Hint 0 ltac:(lia)) as H0. change (inject_Z 0) with 0%Q in H0.
  split; intros H.
  - rewrite <- H0. apply Hmono. lra.
  - rewrite <- H0. apply Hmono. lra.
Qed.

(** C6, as the code has it.  [_process_frame] turns every box of the model
    output into one detection, in order, with [x = x1], [y = y1],
    [width = x2 - x1] and [height = y2 - y1]; nothing is rejected or
    clamped.  A width is non-negative when [x1 <= x2] and non-positive when
    [x2 <= x1], and likewise for heights. *)
Theorem bbox_sizes_follow_corners (E : Env) (frame : Frame) (n : Z) (s : State)
    (r : FrameResult) :
  RoundingOK (rnd32 E) →
  (YOLOProcessor._process_frame E frame n s).1 = Ret r →
  ∃ results,
    model_call E frame = Ret results
    ∧ Forall2 (λ b d, box_of E b d ∧ size_sign b d) (flat_boxes results) (fr_objects r).
Proof.
  intros Hrnd. rewrite process_frame_run. unfold detect.
  destruct (model_call E frame) as [results|e] eqn:Hcall; [|discriminate].
  cbn. destruct (YOLOProcessor.results_loop E results []) as [ds|e] eqn:Hloop;
    [|discriminate].
  intros [= <-]. cbn. exists results. split; [reflexivity|].
  destruct (results_loop_spec E results [] ds Hloop) as (new & -> & Hall).
  cbn. eapply Forall2_impl; [exact Hall|].
  intros b d Hbox. split; [exact Hbox|].
  destruct Hbox as (_ & _ & _ & _ & Hw & Hh). unfold size_sign. rewrite Hw, Hh.
  destruct (rounded_size_sign (rnd32 E) (box_x1 b) (box_x2 b) Hrnd).
  destruct (rounded_size_sign (rnd32 E) (box_y1 b) (box_y2 b) Hrnd).
  auto.
Qed.

(** The detector of the example environment reports a well-formed box. *)
Lemma bbox_sizes_follow_corners_witness :
  ∃ r, (YOLOProcessor._process_frame (Demo.env Demo.steady_model) (RawFrame 0) 0
          Demo.initial).1 = Ret r
       ∧ ∃ results,
           model_call (Demo.env Demo.steady_model) (RawFrame 0) = Ret results
           ∧ Forall2 (λ b d, box_of (Demo.env Demo.steady_model) b d ∧ size_sign b d)
               (flat_boxes results) (fr_objects r).
Proof.
  eexists. split; [vm_compute; reflexivity|].
  apply (bbox_sizes_follow_corners _ _ 0 Demo.initial);
    [apply exact_rounding | vm_compute; reflexivity].
Defined.

(** The claim as the specification words it fails: a box whose corners are
    swapped comes out with negative width and height. *)
Lemma degenerate_box_propagates :
  ∃ r d, (YOLOProcessor._process_frame (Demo.env Demo.degenerate_model)
            (RawFrame 0) 0 Demo.initial).1 = Ret r
         ∧ d ∈ fr_objects r
         ∧ (bb_width (det_bbox d) < 0)%Q
         ∧ (bb_height (det_bbox d) < 0)%Q.
Proof.
  do 2 eexists. split; [vm_compute; reflexivity|].
  split; [left|]. split; vm_compute; reflexivity.
Qed.

(** ** Hoare rules *)

Section HoareRules.
Context {A B : Type}.

Lemma hoare_ret (P : State → Prop) (a : A) (Q : A → State → Prop) (X : State → Prop) :
  (∀ s, P s → Q a s) → hoare P (mret a) Q X.
Proof. intros H s Hs. now apply H. Qed.

Lemma hoare_throw (P : State → Prop) (e : Exn) (Q : A → State → Prop)
    (X : State → Prop) :
  (∀ s, P s → X s) → hoare P (mthrow e : M A) Q X.
Proof. intros H s Hs. now apply H. Qed.

Lemma hoare_bind (P : State → Prop) (m : M A) (Q : A → State → Prop)
    (f : A → M B) (R : B → State → Prop) (X : State → Prop) :
  hoare P m Q X → (∀ a, hoare (Q a) (f a) R X) → hoare P (m ≫= f) R X.
Proof.
  intros Hm Hf s Hs. rewrite run_bind. specialize (Hm s Hs).
  destruct (m s) as [[a|e] s1]; [now apply Hf | exact Hm].
Qed.

Lemma hoare_consequence (P P' : State → Prop) (m : M A) (Q Q' : A → State → Prop)
    (X X' : State → Prop) :
  hoare P' m Q' X' → (∀ s, P s → P' s) → (∀ a s, Q' a s → Q a s) →
  (∀ s, X' s → X s) → hoare P m Q X.
Proof.
  intros Hm HP HQ HX s Hs. specialize (Hm s (HP s Hs)).
  destruct (m s) as [[a|e] s1]; auto.
Qed.

(** Code that keeps [R] keeps every assertion that [R] carries over. *)
Lemma hoare_frames (R : relation State) (P Q : State → Prop) (m : M A) :
  frames R m → (∀ s s', P s → R s s' → Q s') → hoare P m (λ _, Q) Q.
Proof.
  intros Hm H s Hs. specialize (Hm s).
  destruct (m s) as [[a|e] s1]; eapply H; eauto.
Qed.

Lemma hoare_try_finally (P : State → Prop) (body : M A) (fin : M unit)
    (Q : A → State → Prop) (Q1 : A → State → Prop) (X X1 : State → Prop) :
  hoare P body Q1 X1 →
  (∀ a, hoare (Q1 a) fin (λ _, Q a) X) →
  hoare X1 fin (λ _, X) X →
  hoare P (try_finally body fin) Q X.
Proof.
  intros Hb Hok Hbad s Hs. unfold try_finally. specialize (Hb s Hs).
  destruct (body s) as [[a|e] s1].
  - specialize (Hok a s1 Hb). now destruct (fin s1) as [[[]|e] s2].
  - specialize (Hbad s1 Hb). now destruct (fin s1) as [[[]|e'] s2].
Qed.

Lemma hoare_try_except (P : State → Prop) (body : M A) (handler : Exn → M A)
    (Q : A → State → Prop) (X X1 : State → Prop) :
  hoare P body Q X1 → (∀ e, hoare X1 (handler e) Q X) →
  hoare P (try_except body handler) Q X.
Proof.
  intros Hb Hh s Hs. unfold try_except. specialize (Hb s Hs).
  destruct (body s) as [[a|e] s1]; [exact Hb | now apply Hh].
Qed.

End HoareRules.

(** ** Relations between the frame properties *)

Global Instance job_kept_preorder : PreOrder job_kept.
Proof.
  split.
  - intros s. now repeat split.
  - intros s1 s2 s3 (? & ? & ?) (? & ? & ?). repeat split; congruence.
Qed.

Lemma io_only_job (s s' : State) : io_only s s' → job_kept s s'.
Proof. intros []. now repeat split. Qed.

Lemma frames_io_videos {A} (m : M A) : frames io_only m → frames videos_kept m.
Proof. apply frames_weaken, io_only_videos. Qed.

Lemma frames_io_objects {A} (m : M A) : frames io_only m → frames objects_kept m.
Proof. apply frames_weaken, io_only_objects. Qed.

Lemma frames_io_rows {A} (m : M A) : frames io_only m → frames rows_grow m.
Proof. apply frames_weaken, io_only_rows. Qed.

Lemma frames_io_job {A} (m : M A) : frames io_only m → frames job_kept m.
Proof. apply frames_weaken, io_only_job. Qed.

#[global] Hint Resolve frames_io_videos frames_io_objects frames_io_rows
  frames_io_job : frames.

Create HintDb orm discriminated.

#[global] Hint Unfold Video_objects_get Video_save ProcessingTask_objects_create
  ProcessingTask_save ProcessedFrame_objects_create DetectedObject_objects_create
  new_frame bind_video bind_task_record local_video local_task_record
  assign_video assign_task_record video_save task_record_save
  Tasks.global_name Tasks.fail_task_record Tasks.fail_video
  Tasks.complete_task_record Tasks.load_and_register Tasks.save_frame_result : orm.

Ltac frames_by leaf :=
  repeat first [ frames_step leaf
               | progress autounfold with prims orm
               | solve [eauto with frames] ].

Ltac videos_leaf := reflexivity.
Ltac objects_leaf := reflexivity.
Ltac job_leaf := repeat split; reflexivity.
Ltac rows_leaf :=
  split; cbn;
  first [ exists []; now rewrite app_nil_r | eexists; reflexivity ].

(** ** Jobs that leave the [Video] rows alone *)

Section OtherJobs.
Context (E : Env).

Lemma upload_frames_io (frame_paths : list string) :
  ∀ keys, frames io_only (Tasks.upload_frames E frame_paths keys).
Proof.
  induction frame_paths as [|p frame_paths IH]; intros keys; simpl; frames_by io_leaf.
Qed.

Hint Resolve upload_frames_io : frames.

Lemma save_objects_videos (video : Video) (n : Z) (objs : list Detection) :
  ∀ count, frames videos_kept (Tasks.save_objects E video n objs count).
Proof.
  induction objs as [|obj objs IH]; intros count; simpl; frames_by videos_leaf.
Qed.

Hint Resolve save_objects_videos : frames.

Lemma detect_loop_videos (cap : option VideoFile) (video : Video) (len : Z)
    (frame_numbers : list Z) :
  ∀ i count, frames videos_kept (Tasks.detect_loop E cap video len i frame_numbers count).
Proof.
  induction frame_numbers as [|n frame_numbers IH]; intros i count; simpl;
    frames_by videos_leaf.
Qed.

Hint Resolve detect_loop_videos : frames.

Lemma extract_frames_task_videos (request_id video_id : string) (k : Z) :
  frames videos_kept (Tasks.extract_frames_task E request_id video_id k).
Proof.
  unfold Tasks.extract_frames_task, Tasks.extract_frames_task_body.
  frames_by videos_leaf.
Qed.

Lemma detect_task_videos (globals : list string) (request_id video_id : string)
    (frame_numbers : option (list Z)) :
  frames videos_kept
    (Tasks.detect_objects_in_frames_task_in E globals request_id video_id frame_numbers).
Proof.
  unfold Tasks.detect_objects_in_frames_task_in,
    Tasks.detect_objects_in_frames_task_body.
  frames_by videos_leaf.
Qed.

End OtherJobs.

(** A job: a fresh local namespace, the body, and the handler on failure. *)
Lemma job_run {A} (body : M A) (handler : Exn → M A) (s : State) :
  (new_frame;; try_except body handler) s
  = match body (fresh_locals s) with
    | (Ret a, s1) => (Ret a, s1)
    | (Raise e, s1) => handler e s1
    end.
Proof. reflexivity. Qed.

Lemma load_and_register_objects (E : Env) (task_type : TaskType)
    (request_id video_id : string) :
  frames objects_kept (Tasks.load_and_register E task_type request_id video_id).
Proof. frames_by objects_leaf. Qed.

Lemma fail_task_record_objects (E : Env) (e : Exn) :
  frames objects_kept (Tasks.fail_task_record E e).
Proof. frames_by objects_leaf. Qed.

Lemma extract_frames_task_objects (E : Env) (request_id video_id : string) (k : Z) :
  frames objects_kept (Tasks.extract_frames_task E request_id video_id k).
Proof.
  unfold Tasks.extract_frames_task, Tasks.extract_frames_task_body.
  pose proof (upload_frames_io E).
  frames_by objects_leaf.
Qed.

(** ** Jobs that write their own record only *)

Global Instance own_writes_preorder (id vid : string) : PreOrder (own_writes id vid).
Proof.
  split.
  - intros s Hown.
    split; [reflexivity|]. split; [reflexivity|]. split; [reflexivity|].
    split; [|exact Hown].
    exists []. split; [now rewrite app_nil_r | constructor].
  - intros s1 s2 s3 H12 H23 Hown.
    destruct (H12 Hown) as (Hv1 & Hf1 & Ht1 & (new1 & Ho1 & Hn1) & Hown2).
    destruct (H23 Hown2) as (Hv2 & Hf2 & Ht2 & (new2 & Ho2 & Hn2) & Hown3).
    split; [congruence|]. split; [congruence|].
    split; [intros k Hk; now rewrite Ht2, Ht1|].
    split; [|exact Hown3].
    exists (new1 ++ new2)%list. split; [now rewrite Ho2, Ho1, app_assoc|].
    now apply Forall_app.
Qed.

Lemma io_only_own (id vid : string) (s s' : State) :
  io_only s s' → own_writes id vid s s'.
Proof.
  intros [Hv Ht Hf Ho _ _ Hr] Hown.
  split; [exact Hv|]. split; [exact Hf|]. split; [intros k _; now rewrite Ht|].
  split; [exists []; split; [now rewrite app_nil_r | constructor]|].
  intros t Hrec. rewrite Hr in Hrec. now apply Hown.
Qed.

Lemma frames_io_own {A} (id vid : string) (m : M A) :
  frames io_only m → frames (own_writes id vid) m.
Proof. apply frames_weaken, io_only_own. Qed.

#[global] Hint Resolve frames_io_own : frames.

(** A leaf that touches neither the tables nor [task_record]. *)
Ltac own_leaf :=
  let Hown := fresh in
  intros Hown;
  split; [reflexivity|]; split; [reflexivity|]; split; [reflexivity|];
  split; [exists []; split; [now rewrite app_nil_r | constructor] | exact Hown].

Ltac frames_own :=
  repeat first [ solve [eauto with frames]
               | frames_step own_leaf
               | progress autounfold with prims orm ].

Section OwnWrites.
Context (E : Env) (id vid : string).

(** [task_record.<field> = x] for a field other than the key. *)
Lemma assign_task_record_own (f : ProcessingTask → ProcessingTask) :
  (∀ t, t_id (f t) = t_id t) →
  frames (own_writes id vid) (assign_task_record f).
Proof.
  intros Hf s Hown. cbn.
  split; [reflexivity|]. split; [reflexivity|]. split; [reflexivity|]. split.
  - exists []. split; [now rewrite app_nil_r | constructor].
  - intros t. cbn. destruct (st_task_record s) as [t0|] eqn:Hrec; [|discriminate].
    intros [= <-]. rewrite Hf. now apply Hown.
Qed.

Lemma task_record_save_own : frames (own_writes id vid) task_record_save.
Proof.
  intros s Hown. unfold task_record_save, local_task_record, ProcessingTask_save.
  unfold_monad. destruct (st_task_record s) as [t|] eqn:Hrec; cbn.
  - split; [reflexivity|]. split; [reflexivity|]. split; [|split].
    + intros k Hk. apply lookup_insert_ne. rewrite (Hown t Hrec). congruence.
    + exists []. split; [now rewrite app_nil_r | constructor].
    + intros t'. cbn. rewrite Hrec. intros [= <-]. now apply Hown.
  - split; [reflexivity|]. split; [reflexivity|]. split; [reflexivity|].
    split; [|exact Hown].
    exists []. split; [now rewrite app_nil_r | constructor].
Qed.

Hint Resolve task_record_save_own : frames.
Hint Extern 1 (frames (own_writes _ _) (assign_task_record _)) =>
  apply assign_task_record_own; intros ?; reflexivity : frames.

Lemma complete_task_record_own : frames (own_writes id vid) (Tasks.complete_task_record E).
Proof. unfold Tasks.complete_task_record. frames_own. Qed.

Lemma fail_task_record_own (e : Exn) :
  frames (own_writes id vid) (Tasks.fail_task_record E e).
Proof. unfold Tasks.fail_task_record. frames_own. Qed.

Lemma upload_frames_own (frame_paths : list string) :
  ∀ keys, frames (own_writes id vid) (Tasks.upload_frames E frame_paths keys).
Proof. intros keys. apply frames_io_own, upload_frames_io. Qed.

Hint Resolve complete_task_record_own fail_task_record_own upload_frames_own : frames.

Lemma DetectedObject_objects_create_own (video : Video) (n : Z) (obj : Detection) :
  v_id video = vid →
  frames (own_writes id vid) (DetectedObject_objects_create E video n obj).
Proof.
  intros Hvid s Hown. unfold DetectedObject_objects_create, timezone_now, tick.
  unfold_monad. cbn.
  split; [reflexivity|]. split; [reflexivity|]. split; [reflexivity|].
  split; [|exact Hown].
  eexists [_]. split; [reflexivity|]. constructor; [exact Hvid | constructor].
Qed.

Lemma save_objects_own (video : Video) (n : Z) (objs : list Detection) :
  v_id video = vid →
  ∀ count, frames (own_writes id vid) (Tasks.save_objects E video n objs count).
Proof.
  intros Hvid. induction objs as [|obj objs IH]; intros count; simpl.
  - frames_own.
  - apply frames_bind; [exact _ | now apply DetectedObject_objects_create_own |].
    intros _. apply IH.
Qed.

Lemma detect_loop_own (cap : option VideoFile) (video : Video) (len : Z)
    (frame_numbers : list Z) :
  v_id video = vid →
  ∀ i count,
    frames (own_writes id vid)
      (Tasks.detect_loop E cap video len i frame_numbers count).
Proof.
  intros Hvid. pose proof (save_objects_own video) as Hsave.
  induction frame_numbers as [|n frame_numbers IH]; intros i count; simpl;
    frames_own.
Qed.

(** The job after [load_and_register]. *)
Lemma extract_rest_own (video : Video) (video_id : string) (k : Z) :
  frames (own_writes id vid)
    (YOLOProcessor.init E;;
     let output_dir :=
       PosixPath.join (PosixPath.join (media_root E) "extracted_frames") video_id in
     os_makedirs E output_dir;;
     frame_paths ← YOLOProcessor.extract_frames E (v_video_file video) output_dir k;
     MinIOClient.init E;;
     uploaded_keys ← Tasks.upload_frames E frame_paths [];
     Tasks.complete_task_record E;;
     mret (ExtractSummary video_id (Z.of_nat (length frame_paths)) uploaded_keys)).
Proof. frames_own. Qed.

Lemma detect_rest_own (globals : list string) (video : Video) (video_id : string)
    (frame_numbers : option (list Z)) :
  v_id video = vid →
  frames (own_writes id vid)
    (YOLOProcessor.init E;;
     metadata ← YOLOProcessor.get_video_metadata E (v_video_file video);
     let total_frames := md_frame_count metadata in
     let frame_numbers :=
       match frame_numbers with
       | None => py_range 0 total_frames 30
       | Some l => l
       end in
     Tasks.global_name globals "cv2";;
     cap ← cv2_VideoCapture E (v_video_file video);
     detections_count ← try_finally
       (Tasks.detect_loop E cap video (Z.of_nat (length frame_numbers)) 0 frame_numbers 0)
       (cap_release cap);
     Tasks.complete_task_record E;;
     mret (DetectSummary video_id (Z.of_nat (length frame_numbers)) detections_count)).
Proof.
  intros Hvid. pose proof (detect_loop_own) as Hloop.
  frames_own.
Qed.

End OwnWrites.

(** [load_and_register], started without a [task_record], touches no row
    but the one it creates, whose key is the UUID drawn at the second
    tick; it returns the stored video. *)
Lemma load_and_register_own (E : Env) (task_type : TaskType)
    (request_id video_id : string) (s : State) :
  st_task_record s = None →
  let run := Tasks.load_and_register E task_type request_id video_id s in
  let own := uuid_hex (uuid4 E (S (st_ticks s))) in
  st_videos run.2 = st_videos s
  ∧ st_frames run.2 = st_frames s
  ∧ st_objects run.2 = st_objects s
  ∧ (∀ k, k ≠ own → st_tasks run.2 !! k = st_tasks s !! k)
  ∧ own_record own run.2
  ∧ (∀ v, run.1 = Ret v → st_videos s !! video_id = Some v).
Proof.
  intros Hrec. cbv zeta.
  unfold Tasks.load_and_register, Video_objects_get, bind_video,
    ProcessingTask_objects_create, timezone_now, uuid_uuid4, tick, bind_task_record.
  unfold_monad. cbn.
  destruct (st_videos s !! video_id) as [v|] eqn:Hv; cbn.
  - match goal with |- context [task_violations ?a ?b ?c] =>
      destruct (task_violations a b c) end; cbn.
    + repeat split; try reflexivity.
      * intros k Hk. now apply lookup_insert_ne.
      * intros t [= <-]. reflexivity.
      * now intros ? [= <-].
    + repeat split; try reflexivity; [|discriminate].
      intros t. cbn. rewrite Hrec. discriminate.
  - destruct (uuid_invalid E video_id); cbn;
      (repeat split; try reflexivity; [|discriminate]);
      intros t; rewrite Hrec; discriminate.
Qed.

(** A job made of [load_and_register], a rest that writes the job's own
    record only, and one of the two handlers. *)
Lemma job_own_writes (E : Env) (task_type : TaskType) (request_id video_id : string)
    (rest : Video → M TaskSummary) (s : State) :
  (∀ id v, frames (own_writes id (v_id v)) (rest v)) →
  let run := (new_frame;;
              try_except (video ← Tasks.load_and_register E task_type request_id video_id;
                          rest video)
                (λ e, if decide (exn_class e = DoesNotExist) then mthrow e
                      else Tasks.fail_task_record E e;; mthrow e)) s in
  let own := uuid_hex (uuid4 E (S (st_ticks s))) in
  st_videos run.2 = st_videos s
  ∧ st_frames run.2 = st_frames s
  ∧ (∀ k, k ≠ own → st_tasks run.2 !! k = st_tasks s !! k)
  ∧ ∃ new, st_objects run.2 = (st_objects s ++ new)%list
           ∧ ∀ v, st_videos s !! video_id = Some v →
                  Forall (λ r, do_video r = v_id v) new.
Proof.
  intros Hrest run own. subst run. rewrite job_run, run_bind.
  destruct (load_and_register_own E task_type request_id video_id (fresh_locals s) eq_refl)
    as (Hv & Hf & Ho & Ht & Hown & Hret).
  change (st_ticks (fresh_locals s)) with (st_ticks s) in Ht, Hown. fold own in Ht, Hown.
  destruct (Tasks.load_and_register E task_type request_id video_id (fresh_locals s))
    as [[v|e] s1]; cbn [fst snd] in *.
  - specialize (Hret v eq_refl). change (st_videos (fresh_locals s)) with (st_videos s) in Hret.
    destruct (Hrest own v s1 Hown) as (Hv2 & Hf2 & Ht2 & (new & Ho2 & Hn2) & Hown2).
    destruct (rest v s1) as [[a|e] s2]; cbn [fst snd] in *.
    + split; [now rewrite Hv2, Hv|]. split; [now rewrite Hf2, Hf|].
      split; [intros k Hk; now rewrite Ht2, Ht|].
      exists new. split; [now rewrite Ho2, Ho|].
      intros v' Hv'. rewrite Hret in Hv'. now injection Hv' as <-.
    + destruct (decide (exn_class e = DoesNotExist)); cbn.
      * split; [now rewrite Hv2, Hv|]. split; [now rewrite Hf2, Hf|].
        split; [intros k Hk; now rewrite Ht2, Ht|].
        exists new. split; [now rewrite Ho2, Ho|].
        intros v' Hv'. rewrite Hret in Hv'. now injection Hv' as <-.
      * rewrite run_bind.
        destruct (fail_task_record_own E own (v_id v) e s2 Hown2)
          as (Hv3 & Hf3 & Ht3 & (new3 & Ho3 & Hn3) & _).
        destruct (Tasks.fail_task_record E e s2) as [[[]|e'] s3]; cbn [fst snd] in *; cbn.
        all: split; [now rewrite Hv3, Hv2, Hv|]; split; [now rewrite Hf3, Hf2, Hf|];
          (split; [intros k Hk; now rewrite Ht3, Ht2, Ht|]);
          exists (new ++ new3)%list;
          (split; [now rewrite Ho3, Ho2, Ho, app_assoc|]);
          intros v' Hv'; rewrite Hret in Hv'; injection Hv' as <-;
          now apply Forall_app.
  - destruct (decide (exn_class e = DoesNotExist)); cbn.
    + split; [exact Hv|]. split; [exact Hf|]. split; [exact Ht|].
      exists []. split; [now rewrite Ho, app_nil_r | constructor].
    + rewrite run_bind.
      destruct (fail_task_record_own E own "" e s1 Hown)
        as (Hv3 & Hf3 & Ht3 & (new3 & Ho3 & Hn3) & _).
      pose proof (fail_task_record_objects E e s1) as Hobj.
      destruct (Tasks.fail_task_record E e s1) as [[[]|e'] s3]; cbn [fst snd] in *; cbn.
      all: split; [now rewrite Hv3, Hv|]; split; [now rewrite Hf3, Hf|];
        (split; [intros k Hk; now rewrite Ht3, Ht|]);
        exists []; (split; [rewrite app_nil_r; unfold objects_kept in Hobj; now rewrite Hobj, Ho|]);
        constructor.
Qed.

(** C8. A frame-extraction or object-detection job, whether it succeeds
    or fails, leaves every [Video] row and every [ProcessedFrame] row as
    it found them, changes no [ProcessingTask] row other than its own (the
    record whose key is the UUID it draws), and only adds [DetectedObject]
    rows, all of them for the video of the job; a frame-extraction job
    adds none. *)
Theorem other_jobs_keep_video (E : Env) (globals : list string) (request_id : string)
    (j : Tasks.Job) (s : State) :
  Tasks.job_kind j ≠ VideoProcessing →
  let run := Tasks.run_job_in E globals request_id j s in
  let own := uuid_hex (uuid4 E (S (st_ticks s))) in
  st_videos run.2 = st_videos s
  ∧ st_frames run.2 = st_frames s
  ∧ (∀ id, id ≠ own → st_tasks run.2 !! id = st_tasks s !! id)
  ∧ ∃ new, st_objects run.2 = (st_objects s ++ new)%list
           ∧ (Tasks.job_kind j = FrameExtraction → new = [])
           ∧ ∀ v, st_videos s !! job_video_id j = Some v →
                  Forall (λ r, do_video r = v_id v) new.
Proof.
  intros Hkind run own.
  destruct j as [video_id|video_id k|video_id frame_numbers]; cbn in Hkind.
  - now destruct Hkind.
  - destruct (job_own_writes E FrameExtraction request_id video_id
                (λ video, YOLOProcessor.init E;;
                   let output_dir :=
                     PosixPath.join (PosixPath.join (media_root E) "extracted_frames")
                       video_id in
                   os_makedirs E output_dir;;
                   frame_paths ← YOLOProcessor.extract_frames E (v_video_file video)
                                   output_dir k;
                   MinIOClient.init E;;
                   uploaded_keys ← Tasks.upload_frames E frame_paths [];
                   Tasks.complete_task_record E;;
                   mret (ExtractSummary video_id (Z.of_nat (length frame_paths))
                           uploaded_keys)) s)
      as (Hv & Hf & Ht & new & Ho & Hnew).
    { intros id v. apply extract_rest_own. }
    split; [exact Hv|]. split; [exact Hf|]. split; [exact Ht|].
    exists new. split; [exact Ho|]. split; [|exact Hnew].
    intros _. apply (app_inv_head (st_objects s)). rewrite app_nil_r.
    transitivity (st_objects run.2); [symmetry; exact Ho|].
    apply (extract_frames_task_objects E request_id video_id k s).
  - destruct (job_own_writes E ObjectDetection request_id video_id
                (λ video, YOLOProcessor.init E;;
                   metadata ← YOLOProcessor.get_video_metadata E (v_video_file video);
                   let total_frames := md_frame_count metadata in
                   let frame_numbers :=
                     match frame_numbers with
                     | None => py_range 0 total_frames 30
                     | Some l => l
                     end in
                   Tasks.global_name globals "cv2";;
                   cap ← cv2_VideoCapture E (v_video_file video);
                   detections_count ← try_finally
                     (Tasks.detect_loop E cap video (Z.of_nat (length frame_numbers)) 0
                        frame_numbers 0)
                     (cap_release cap);
                   Tasks.complete_task_record E;;
                   mret (DetectSummary video_id (Z.of_nat (length frame_numbers))
                           detections_count)) s)
      as (Hv & Hf & Ht & new & Ho & Hnew).
    { intros id v. now apply detect_rest_own. }
    split; [exact Hv|]. split; [exact Hf|]. split; [exact Ht|].
    exists new. split; [exact Ho|]. split; [discriminate | exact Hnew].
Qed.

(** Frame extraction on the clip: the row of the video is as uploaded,
    and no [ProcessedFrame] or [DetectedObject] row appears. *)
Lemma other_jobs_keep_video_witness :
  let run := Tasks.run_job (Demo.env Demo.steady_model) "celery-1"
               (Tasks.RunFrameExtraction "3f2b8c1e-5d4a-4e6f-9a7b-0c1d2e3f4a5b" 3)
               Demo.initial in
  st_videos run.2 !! "3f2b8c1e-5d4a-4e6f-9a7b-0c1d2e3f4a5b" = Some Demo.video
  ∧ st_frames run.2 = []
  ∧ st_objects run.2 = [].
Proof.
  intros run.
  destruct (other_jobs_keep_video (Demo.env Demo.steady_model) Tasks.tasks_globals
              "celery-1" (Tasks.RunFrameExtraction "3f2b8c1e-5d4a-4e6f-9a7b-0c1d2e3f4a5b" 3)
              Demo.initial)
    as (Hv & Hf & _ & new & Ho & Hnone & _).
  - cbn. discriminate.
  - fold (Tasks.run_job (Demo.env Demo.steady_model)) in Hv, Hf, Ho. fold run in Hv, Hf, Ho.
    rewrite Hv, Hf, Ho, (Hnone eq_refl). repeat split.
Defined.

(** ** The object-detection job and the name [cv2] *)

Lemma global_cv2_unbound (s : State) :
  Tasks.global_name Tasks.tasks_globals "cv2" s
  = (Raise (MkExn NameError "name 'cv2' is not defined"), s).
Proof. vm_compute. reflexivity. Qed.

Lemma detect_body_raises (E : Env) (request_id video_id : string)
    (frame_numbers : option (list Z)) (s : State) :
  let run := Tasks.detect_objects_in_frames_task_body E Tasks.tasks_globals
               request_id video_id frame_numbers s in
  (∃ e, run.1 = Raise e) ∧ st_objects run.2 = st_objects s.
Proof.
  cbv zeta. unfold Tasks.detect_objects_in_frames_task_body.
  rewrite run_bind.
  pose proof (load_and_register_objects E ObjectDetection request_id video_id s) as H1.
  destruct (Tasks.load_and_register E ObjectDetection request_id video_id s)
    as [[video|e] s1]; [|now eauto].
  rewrite run_bind.
  pose proof (frames_io_objects _ (yolo_init_io E) s1) as H2.
  destruct (YOLOProcessor.init E s1) as [[[]|e] s2];
    [|split; [eauto | cbn in *; congruence]].
  rewrite run_bind.
  pose proof (frames_io_objects _ (yolo_metadata_io E (v_video_file video)) s2) as H3.
  destruct (YOLOProcessor.get_video_metadata E (v_video_file video) s2) as [[md|e] s3];
    [|split; [eauto | cbn in *; congruence]].
  cbv zeta. rewrite run_bind, global_cv2_unbound.
  split; [eauto | cbn in *; congruence].
Qed.

(** C1, on the code.  [tasks.py] never imports [cv2], so evaluating
    [cv2.VideoCapture] raises [NameError]: whatever the frame indices, the
    object-detection job ends with an exception and stores no detection.
    On the ten-frame clip with indices 0 and 999999 the exception is the
    [NameError] itself and the job's record ends as [failed]. *)
Theorem spot_detect_name_error :
  (∀ (E : Env) (request_id video_id : string) (frame_numbers : option (list Z))
     (s : State),
     let run := Tasks.detect_objects_in_frames_task E request_id video_id
                  frame_numbers s in
     (∃ e, run.1 = Raise e) ∧ st_objects run.2 = st_objects s)
  ∧ (let run := Tasks.detect_objects_in_frames_task (Demo.env Demo.steady_model)
                  "celery-1" "3f2b8c1e-5d4a-4e6f-9a7b-0c1d2e3f4a5b" (Some [0; 999999]) Demo.initial in
     run.1 = Raise (MkExn NameError "name 'cv2' is not defined")
     ∧ st_objects run.2 = []
     ∧ t_status <$> (map_to_list (st_tasks run.2)).*2 = [TFailed]).
Proof.
  split.
  - intros E request_id video_id frame_numbers s. cbv zeta.
    unfold Tasks.detect_objects_in_frames_task, Tasks.detect_objects_in_frames_task_in.
    rewrite job_run.
    destruct (detect_body_raises E request_id video_id frame_numbers (fresh_locals s))
      as [[e He] Hobj].
    destruct (Tasks.detect_objects_in_frames_task_body E Tasks.tasks_globals
                request_id video_id frame_numbers (fresh_locals s)) as [[a|e'] s1];
      [discriminate|].
    cbn in He, Hobj.
    destruct (decide (exn_class e' = DoesNotExist)).
    + split; [eauto | exact Hobj].
    + rewrite run_bind.
      pose proof (fail_task_record_objects E e' s1) as Hf.
      destruct (Tasks.fail_task_record E e' s1) as [[[]|e''] s2];
        (split; [eauto | cbn in *; congruence]).
  - vm_compute. repeat split; reflexivity.
Qed.

(** ** Failure of the video-processing job *)

Lemma process_video_task_body_rows (E : Env) (request_id video_id : string) :
  frames rows_grow (Tasks.process_video_task_body E request_id video_id).
Proof. unfold Tasks.process_video_task_body. frames_by rows_leaf. Qed.

(** C2. When the body of [process_video_task] raises an exception (other
    than [Video.DoesNotExist]) after [video] and [task_record] were bound,
    the job raises that exception again, having stored the job's record
    with status [failed], the time of the failure as [completed_at] and
    the exception's text as [error_message], and the video's record with
    status [failed] and the same text; no other field of the two records
    changes.  The [ProcessedFrame] and [DetectedObject] rows are those
    present when the exception was raised: the rows the job started with,
    followed by the rows created before the error. *)
Theorem failure_marks_job_and_video (E : Env) (request_id video_id : string)
    (s : State) (e : Exn) (tr : ProcessingTask) (v : Video) :
  let body := Tasks.process_video_task_body E request_id video_id (fresh_locals s) in
  let run := Tasks.process_video_task E request_id video_id s in
  body.1 = Raise e →
  exn_class e ≠ DoesNotExist →
  st_task_record body.2 = Some tr →
  st_video body.2 = Some v →
  run.1 = Raise e
  ∧ (∃ row, st_tasks run.2 !! t_id tr = Some row
            ∧ row = failed_task e (now E (st_ticks body.2)) tr
            ∧ t_status row = TFailed
            ∧ t_completed_at row = Some (now E (st_ticks body.2))
            ∧ t_error_message row = str_exn e)
  ∧ (∃ row, st_videos run.2 !! v_id v = Some row
            ∧ row = failed_video e v
            ∧ v_status row = VFailed
            ∧ v_error_message row = str_exn e)
  ∧ st_frames run.2 = st_frames body.2
  ∧ st_objects run.2 = st_objects body.2
  ∧ rows_grow s body.2.
Proof.
  intros body run Hraise Hclass Htr Hv.
  assert (rows_grow s body.2) as Hrows.
  { exact (process_video_task_body_rows E request_id video_id (fresh_locals s)). }
  subst run. unfold Tasks.process_video_task. rewrite job_run.
  fold body. destruct body as [[a|e'] s1]; cbn in Hraise, Htr, Hv, Hrows |- *;
    [discriminate|].
  injection Hraise as ->.
  destruct (decide (exn_class e = DoesNotExist)); [contradiction|].
  unfold Tasks.fail_task_record, Tasks.fail_video, assign_task_record, assign_video,
    task_record_save, video_save, local_task_record, local_video,
    ProcessingTask_save, Video_save, timezone_now, tick.
  unfold_monad. repeat (progress (rewrite ?Htr, ?Hv; cbn)).
  rewrite !lookup_insert_eq.
  split; [reflexivity|]. split; [|split; [|split; [|split]]].
  - eexists. split; [reflexivity|]. repeat split.
  - eexists. split; [reflexivity|]. repeat split.
  - reflexivity.
  - reflexivity.
  - exact Hrows.
Qed.

(** A [ProcessedFrame] row for frame 3 is in the way: the job creates the
    rows of frames 0, 1 and 2, fails on the fourth insertion, and ends with
    the job and the video marked [failed] with the message of the
    database; the three rows stay. *)
Lemma failure_marks_job_and_video_witness :
  let run := Tasks.process_video_task (Demo.env Demo.steady_model) "celery-1"
               "3f2b8c1e-5d4a-4e6f-9a7b-0c1d2e3f4a5b" Demo.with_stale_row in
  let text := "UNIQUE constraint failed: video_app_processedframe.video_id, video_app_processedframe.frame_number" in
  run.1 = Raise (MkExn IntegrityError text)
  ∧ pf_frame_number <$> st_frames run.2 = [3; 0; 1; 2]
  ∧ (∃ row, st_videos run.2 !! "3f2b8c1e-5d4a-4e6f-9a7b-0c1d2e3f4a5b" = Some row
            ∧ v_status row = VFailed ∧ v_error_message row = text)
  ∧ (∃ row, st_tasks run.2 !! "deadbeef000000000000000000000001" = Some row
            ∧ t_status row = TFailed
            ∧ t_error_message row = text
            ∧ t_completed_at row = Some 1029).
Proof.
  edestruct (failure_marks_job_and_video (Demo.env Demo.steady_model)
               "celery-1" "3f2b8c1e-5d4a-4e6f-9a7b-0c1d2e3f4a5b" Demo.with_stale_row)
    as (Hrun & (trow & Htask & _ & Hts & Htc & Hte) & (vrow & Hvideo & _ & Hvs & Hve)
        & Hframes & _).
  - vm_compute. reflexivity.
  - vm_compute. discriminate.
  - vm_compute. reflexivity.
  - vm_compute. reflexivity.
  - cbv zeta. split; [exact Hrun|]. split; [rewrite Hframes; vm_compute; reflexivity|].
    split.
    + exists vrow. split; [exact Hvideo|]. split; [exact Hvs | exact Hve].
    + exists trow. split; [exact Htask|]. split; [exact Hts|]. split; [exact Hte|].
      rewrite Htc. vm_compute. reflexivity.
Defined.

(** ** The progress percentage *)

Lemma py_int_floor (x : Q) : (0 <= x)%Q → py_int x = Qfloor x.
Proof.
  destruct x as [a b]. unfold Qle, py_int, Qfloor. cbn. intros H.
  apply Z.quot_div_nonneg; lia.
Qed.

Lemma py_int_mono (x y : Q) : (0 <= x)%Q → (x <= y)%Q → py_int x <= py_int y.
Proof.
  intros Hx Hxy. rewrite !py_int_floor by lra. now apply Qfloor_resp_le.
Qed.

Section Progress.
Context (E : Env) (Hrnd : RoundingOK (rnd64 E)).

Lemma rnd64_0 : (rnd64 E 0 == 0)%Q.
Proof. exact (rnd_small_int _ Hrnd 0 ltac:(lia)). Qed.

Lemma rnd64_1 : (rnd64 E 1 == 1)%Q.
Proof. exact (rnd_small_int _ Hrnd 1 ltac:(lia)). Qed.

Lemma rnd64_100 : (rnd64 E 100 == 100)%Q.
Proof. exact (rnd_small_int _ Hrnd 100 ltac:(lia)). Qed.

Lemma fraction_bounds (len i : Z) :
  0 <= i < len → (0 <= inject_Z (i + 1) / inject_Z len <= 1)%Q.
Proof.
  intros Hi.
  assert (0 < inject_Z len)%Q as Hlen by (change 0%Q with (inject_Z 0); rewrite <- Zlt_Qlt; lia).
  assert (0 <= inject_Z (i + 1))%Q as Hnum by (change 0%Q with (inject_Z 0); rewrite <- Zle_Qle; lia).
  assert (inject_Z (i + 1) <= inject_Z len)%Q as Hle by (rewrite <- Zle_Qle; lia).
  split.
  - apply Qle_shift_div_l; [exact Hlen | lra].
  - apply Qle_shift_div_r; [exact Hlen | lra].
Qed.

Lemma fraction_mono (len i j : Z) :
  0 < len → i <= j →
  (inject_Z (i + 1) / inject_Z len <= inject_Z (j + 1) / inject_Z len)%Q.
Proof.
  intros Hlen Hij.
  assert (0 < inject_Z len)%Q as Hl by (change 0%Q with (inject_Z 0); rewrite <- Zlt_Qlt; lia).
  assert (inject_Z (i + 1) <= inject_Z (j + 1))%Q as Hle by (rewrite <- Zle_Qle; lia).
  unfold Qdiv. apply Qmult_le_compat_r; [exact Hle|].
  apply Qinv_le_0_compat. lra.
Qed.

Lemma scaled_bounds (x : Q) :
  (0 <= x <= 1)%Q → (0 <= rnd64 E (rnd64 E x * 100) <= 100)%Q.
Proof.
  intros [H0 H1].
  pose proof (rnd_mono _ Hrnd _ _ H0) as Ha. rewrite rnd64_0 in Ha.
  pose proof (rnd_mono _ Hrnd _ _ H1) as Hb. rewrite rnd64_1 in Hb.
  assert (0 <= rnd64 E x * 100)%Q as Hc by lra.
  assert (rnd64 E x * 100 <= 100)%Q as Hd by lra.
  pose proof (rnd_mono _ Hrnd _ _ Hc) as He. rewrite rnd64_0 in He.
  pose proof (rnd_mono _ Hrnd _ _ Hd) as Hf. rewrite rnd64_100 in Hf.
  split; assumption.
Qed.

Lemma progress_at_bounds (len i : Z) :
  0 <= i < len → 0 <= progress_at E len i <= 100.
Proof.
  intros Hi. unfold progress_at.
  destruct (scaled_bounds _ (fraction_bounds len i Hi)) as [Hlo Hhi].
  split.
  - change 0 with (py_int 0). apply py_int_mono; [lra | exact Hlo].
  - change 100 with (py_int 100). apply py_int_mono; [exact Hlo | exact Hhi].
Qed.

Lemma progress_at_mono (len i j : Z) :
  0 <= i → i <= j → j < len → progress_at E len i <= progress_at E len j.
Proof.
  intros Hi Hij Hj. unfold progress_at.
  destruct (scaled_bounds _ (fraction_bounds len i ltac:(lia))) as [Hlo _].
  apply py_int_mono; [exact Hlo|].
  apply (rnd_mono _ Hrnd).
  pose proof (rnd_mono _ Hrnd _ _ (fraction_mono len i j ltac:(lia) Hij)).
  lra.
Qed.

Lemma progress_of_value (len i : Z) :
  len ≠ 0 → Tasks.progress_of E i len = Ret (progress_at E len i).
Proof.
  intros Hlen. unfold Tasks.progress_of, truediv_int.
  now destruct (decide (len = 0)).
Qed.

End Progress.

(** ** The invariant of the progress trace *)

Lemma LogInv_job_kept (s s' : State) : LogInv s → job_kept s s' → LogInv s'.
Proof.
  intros H (Hl & Hr & Ht). unfold LogInv, progress_values in *.
  now rewrite Hl, Hr, Ht.
Qed.

Lemma Running_LogInv (b : Z) (s : State) : Running b s → LogInv s.
Proof. now intros [H _]. Qed.

Lemma Completed_LogInv (s : State) : Completed s → LogInv s.
Proof. now intros [H _]. Qed.

Lemma Running_job_kept (b : Z) (s s' : State) : Running b s → job_kept s s' → Running b s'.
Proof.
  intros [H (tr & Htr & Hst & Hb)] Hk. split; [now apply (LogInv_job_kept s)|].
  destruct Hk as (_ & Hr & _). exists tr. now rewrite Hr.
Qed.

Lemma Completed_job_kept (s s' : State) : Completed s → job_kept s s' → Completed s'.
Proof.
  intros [H (tr & Htr & Hrow & Hst)] Hk. split; [now apply (LogInv_job_kept s)|].
  destruct Hk as (_ & Hr & Ht). exists tr. now rewrite Hr, Ht.
Qed.

Lemma keep_LogInv {A} (m : M A) :
  frames job_kept m → hoare LogInv m (λ _, LogInv) LogInv.
Proof. intros Hm. apply (hoare_frames job_kept); [exact Hm | apply LogInv_job_kept]. Qed.

Lemma keep_Running {A} (b : Z) (m : M A) :
  frames job_kept m → hoare (Running b) m (λ _, Running b) LogInv.
Proof.
  intros Hm.
  apply (hoare_consequence _ (Running b) _ _ (λ _, Running b) _ (Running b)); auto.
  - apply (hoare_frames job_kept); [exact Hm | apply Running_job_kept].
  - apply Running_LogInv.
Qed.

Lemma keep_Completed {A} (m : M A) :
  frames job_kept m → hoare Completed m (λ _, Completed) LogInv.
Proof.
  intros Hm.
  apply (hoare_consequence _ Completed _ _ (λ _, Completed) _ Completed); auto.
  - apply (hoare_frames job_kept); [exact Hm | apply Completed_job_kept].
  - apply Completed_LogInv.
Qed.

Lemma sorted_snoc (l : list Z) (p : Z) :
  StronglySorted Z.le l → Forall (λ x, x <= p) l → StronglySorted Z.le (l ++ [p]).
Proof.
  induction 1 as [|x l Hl IH Hx]; intros Hall; cbn.
  - repeat constructor.
  - apply Forall_cons in Hall as [Hxp Hall]. constructor; [now apply IH|].
    apply Forall_app. split; [exact Hx | now constructor].
Qed.

(** Writing the job's record with a progress value that did not decrease
    keeps the invariant. *)
Lemma LogInv_write (s s' : State) (tr tr' : ProcessingTask) :
  LogInv s →
  st_task_record s = Some tr →
  t_id tr' = t_id tr →
  t_progress tr <= t_progress tr' <= 100 →
  (t_status tr' = TCompleted → t_progress tr' = 100) →
  st_task_record s' = Some tr' →
  st_tasks s' = <[t_id tr' := tr']> (st_tasks s) →
  st_progress_log s' = (st_progress_log s ++ [(t_id tr', t_progress tr')])%list →
  LogInv s'.
Proof.
  intros H Htr Hid Hp Hst Hrec Htasks Hlog. unfold LogInv, progress_values in *.
  rewrite Htr in H. rewrite Hrec, Hlog, Htasks.
  destruct H as (Hb & _ & Hsorted & Hall & _).
  rewrite fmap_app. cbn.
  split; [lia|]. split; [exact Hst|]. split; [|split].
  - apply sorted_snoc; [exact Hsorted|].
    apply Forall_fmap. eapply Forall_impl; [exact Hall|]. cbn. intros e [_ He]. lia.
  - apply Forall_app. split.
    + eapply Forall_impl; [exact Hall|]. cbn. intros e [-> He]. split; [congruence | lia].
    + repeat constructor; cbn; lia.
  - intros row. rewrite lookup_insert_eq. intros [= <-] Hc.
    rewrite last_snoc. now rewrite (Hst Hc).
Qed.

Section Blocks.
Context (E : Env).

Lemma load_and_register_hoare (task_type : TaskType) (request_id video_id : string) :
  hoare JobFresh (Tasks.load_and_register E task_type request_id video_id)
    (λ _, Running 0) LogInv.
Proof.
  intros s [Hnone Hlog].
  assert (∀ s', job_kept s s' → LogInv s') as Hkeep.
  { intros s'. apply LogInv_job_kept. unfold LogInv. now rewrite Hnone. }
  unfold Tasks.load_and_register, ProcessingTask_objects_create, Video_objects_get,
    bind_video, timezone_now, uuid_uuid4, tick, bind_task_record.
  unfold_monad.
  destruct (st_videos s !! video_id) as [video|]; cbn;
    [|destruct (uuid_invalid E video_id); apply Hkeep; now repeat split].
  match goal with |- context [task_violations ?a ?b ?c] =>
    destruct (task_violations a b c) end; cbn;
    [|apply Hkeep; now repeat split].
  unfold Running, LogInv, progress_values. cbn. rewrite Hlog. cbn.
  split.
  - split; [lia|]. split; [discriminate|]. split; [repeat constructor|].
    split; [repeat constructor; cbn; lia|].
    intros row. rewrite lookup_insert_eq. now intros [= <-].
  - eexists. split; [reflexivity|]. cbn. split; [reflexivity | lia].
Qed.

Lemma complete_task_record_hoare :
  hoare LogInv (Tasks.complete_task_record E) (λ _, Completed) LogInv.
Proof.
  intros s Hs.
  unfold Tasks.complete_task_record, assign_task_record, task_record_save,
    local_task_record, ProcessingTask_save, timezone_now, tick.
  unfold_monad. cbn.
  destruct (st_task_record s) as [tr|] eqn:Htr; cbn.
  - pose proof Hs as Hs'. unfold LogInv in Hs'. rewrite Htr in Hs'.
    destruct Hs' as (Hb & _).
    split.
    + match goal with
      | |- LogInv (write_task ?t _) => apply (LogInv_write s _ tr t)
      end; try reflexivity; try assumption; cbn; rewrite ?Htr;
        first [reflexivity | lia].
    + match goal with |- context [write_task ?t _] => exists t end.
      cbn. rewrite Htr, lookup_insert_eq. now repeat split.
  - apply (LogInv_job_kept s); [exact Hs|]. repeat split; cbn. now rewrite Htr.
Qed.

Lemma fail_task_record_hoare (e : Exn) :
  hoare LogInv (Tasks.fail_task_record E e) (λ _, LogInv) LogInv.
Proof.
  intros s Hs.
  unfold Tasks.fail_task_record, assign_task_record, task_record_save,
    local_task_record, ProcessingTask_save, timezone_now, tick.
  unfold_monad. cbn.
  destruct (st_task_record s) as [tr|] eqn:Htr; cbn; [|exact Hs].
  rewrite Htr. cbn.
  pose proof Hs as Hs'. unfold LogInv in Hs'. rewrite Htr in Hs'.
  destruct Hs' as (Hb & _).
  match goal with
  | |- LogInv (write_task ?t _) => apply (LogInv_write s _ tr t)
  end; try reflexivity; try assumption; cbn; rewrite ?Htr;
    first [reflexivity | lia | discriminate].
Qed.

Lemma write_progress_hoare {A} (b p : Z) (a : A) :
  b <= p → 0 <= p <= 100 →
  hoare (Running b)
    (assign_task_record (set_t_progress p);; task_record_save;; mret a)
    (λ _, Running p) LogInv.
Proof.
  intros Hbp Hp s [Hs (tr & Htr & Hst & Hb)].
  unfold assign_task_record, task_record_save, local_task_record, ProcessingTask_save.
  unfold_monad. cbn. rewrite Htr. cbn.
  split.
  - match goal with
    | |- LogInv (write_task ?t _) => apply (LogInv_write s _ tr t)
    end; try reflexivity; try assumption; cbn; rewrite ?Htr;
      first [reflexivity | lia | rewrite Hst; discriminate].
  - match goal with |- context [write_task ?t _] => exists t end.
    cbn. rewrite Htr. split; [reflexivity|]. split; [exact Hst | cbn; lia].
Qed.

End Blocks.

(** ** The three jobs keep the invariant *)

#[global] Hint Resolve upload_frames_io : frames.

Lemma save_objects_job (E : Env) (video : Video) (n : Z) (objs : list Detection) :
  ∀ count, frames job_kept (Tasks.save_objects E video n objs count).
Proof.
  induction objs as [|obj objs IH]; intros count; simpl; frames_by job_leaf.
Qed.

#[global] Hint Resolve save_objects_job : frames.

Lemma Running_weaken (b b' : Z) (s : State) : b <= b' → Running b s → Running b' s.
Proof.
  intros Hb [H (tr & Htr & Hst & Hp)]. split; [exact H|].
  exists tr. repeat split; [exact Htr | exact Hst | lia].
Qed.

(** One step of a proof that a job keeps the invariant: the next statement
    either leaves the job's record alone or is the completion block. *)
Ltac hoare_job_step :=
  lazymatch goal with
  | |- hoare LogInv (mbind _ (Tasks.complete_task_record _)) _ _ =>
      apply (hoare_bind LogInv _ (λ _, Completed));
      [apply complete_task_record_hoare | intros ?]
  | |- hoare LogInv (mbind _ ?m) _ _ =>
      apply (hoare_bind LogInv m (λ _, LogInv));
      [solve [apply keep_LogInv; frames_by job_leaf] | intros ?]
  | |- hoare Completed (mbind _ ?m) _ _ =>
      apply (hoare_bind Completed m (λ _, Completed));
      [solve [apply keep_Completed; frames_by job_leaf] | intros ?]
  | |- hoare (Running ?b) (mbind _ ?m) _ _ =>
      apply (hoare_bind (Running b) m (λ _, Running b));
      [solve [apply keep_Running; frames_by job_leaf] | intros ?]
  | |- hoare _ (mret _) _ _ => apply hoare_ret; intros ? ?; assumption
  | |- hoare _ (match ?x with _ => _ end) _ _ => destruct x
  | |- hoare _ (let _ := _ in _) _ _ => cbv zeta
  end.

Ltac hoare_job := repeat hoare_job_step.

Section JobInvariant.
Context (E : Env) (Hrnd : RoundingOK (rnd64 E)).

Lemma detect_loop_hoare (cap : option VideoFile) (video : Video) (len : Z)
    (frame_numbers : list Z) :
  ∀ i count b,
    0 <= i → i + Z.of_nat (length frame_numbers) = len →
    (frame_numbers ≠ [] → b <= progress_at E len i) →
    hoare (Running b) (Tasks.detect_loop E cap video len i frame_numbers count)
      (λ _, LogInv) LogInv.
Proof.
  induction frame_numbers as [|n rest IH]; intros i count b Hi Hlen Hb;
    cbn [Tasks.detect_loop].
  - apply hoare_ret. intros s. apply Running_LogInv.
  - cbn [length] in Hlen. specialize (Hb ltac:(discriminate)).
    assert (0 <= i < len) as Hrange by lia.
    apply (hoare_bind _ _ (λ _, Running (progress_at E len i))).
    + destruct (Tasks.seek_read cap n) as [frame|].
      * do 2 hoare_job_step.
        rewrite (progress_of_value E len i) by lia.
        apply (hoare_bind (Running b) _ (λ p s, p = progress_at E len i ∧ Running b s)).
        { intros s Hs. cbn. now split. }
        intros p. intros s [-> Hs]. revert s Hs.
        apply write_progress_hoare; [exact Hb|].
        now apply progress_at_bounds.
      * apply hoare_ret. intros s. now apply Running_weaken.
    + intros count'. apply (IH (i + 1)); [lia | lia |].
      intros Hrest.
      assert (0 < length rest)%nat as Hpos.
      { clear -Hrest. destruct rest; [congruence | cbn; lia]. }
      apply progress_at_mono; [exact Hrnd | lia | lia | lia].
Qed.

Lemma process_video_task_body_hoare (request_id video_id : string) :
  hoare JobFresh (Tasks.process_video_task_body E request_id video_id)
    (λ _, Completed) LogInv.
Proof.
  unfold Tasks.process_video_task_body.
  apply (hoare_bind _ _ (λ _, LogInv)).
  { eapply hoare_consequence; [apply load_and_register_hoare | auto | | auto].
    intros v s. apply Running_LogInv. }
  intros video. hoare_job.
Qed.

Lemma extract_frames_task_body_hoare (request_id video_id : string) (k : Z) :
  hoare JobFresh (Tasks.extract_frames_task_body E request_id video_id k)
    (λ _, Completed) LogInv.
Proof.
  unfold Tasks.extract_frames_task_body.
  apply (hoare_bind _ _ (λ _, LogInv)).
  { eapply hoare_consequence; [apply load_and_register_hoare | auto | | auto].
    intros v s. apply Running_LogInv. }
  intros video. hoare_job.
Qed.

Lemma detect_body_hoare (globals : list string) (request_id video_id : string)
    (frame_numbers : option (list Z)) :
  hoare JobFresh
    (Tasks.detect_objects_in_frames_task_body E globals request_id video_id
       frame_numbers)
    (λ _, Completed) LogInv.
Proof.
  unfold Tasks.detect_objects_in_frames_task_body.
  apply (hoare_bind _ _ (λ _, Running 0)); [apply load_and_register_hoare|].
  intros video. hoare_job.
  match goal with
  | |- hoare _ (mbind _ (try_finally (Tasks.detect_loop _ _ _ ?len _ ?fns _) _)) _ _ =>
      apply (hoare_bind _ _ (λ _, LogInv));
      [apply (hoare_try_finally _ _ _ _ (λ _, LogInv) _ LogInv);
       [apply (detect_loop_hoare _ _ len fns 0 0 0); [lia | lia |]
       | intros ?; apply keep_LogInv; frames_by job_leaf
       | apply keep_LogInv; frames_by job_leaf]
      | intros ?]
  end.
  - intros Hne. apply progress_at_bounds; [exact Hrnd|].
    match goal with |- 0 <= 0 < Z.of_nat (length ?l) => destruct l end;
      [congruence | cbn [length]; lia].
  - hoare_job.
Qed.

Lemma handler_hoare {A} (e : Exn) (mark_video : M unit) :
  frames job_kept mark_video →
  hoare LogInv
    (if decide (exn_class e = DoesNotExist) then mthrow e
     else Tasks.fail_task_record E e;; mark_video;; mthrow e : M A)
    (λ _, Completed) LogInv.
Proof.
  intros Hmark. destruct (decide _).
  - now apply hoare_throw.
  - apply (hoare_bind _ _ (λ _, LogInv)); [apply fail_task_record_hoare|].
    intros _. apply (hoare_bind _ _ (λ _, LogInv)); [now apply keep_LogInv|].
    intros _. now apply hoare_throw.
Qed.

Lemma handler_hoare_job {A} (e : Exn) :
  hoare LogInv
    (if decide (exn_class e = DoesNotExist) then mthrow e
     else Tasks.fail_task_record E e;; mthrow e : M A)
    (λ _, Completed) LogInv.
Proof.
  destruct (decide _).
  - now apply hoare_throw.
  - apply (hoare_bind _ _ (λ _, LogInv)); [apply fail_task_record_hoare|].
    intros _. now apply hoare_throw.
Qed.

End JobInvariant.

(** ** Progress of one execution *)

Lemma fail_video_job (e : Exn) : frames job_kept (Tasks.fail_video e).
Proof. frames_by job_leaf. Qed.

Lemma job_fresh_start (s : State) : JobFresh (fresh_locals (start_execution s)).
Proof. now split. Qed.

(** Whatever the job and its outcome, the invariant holds at the end, and a
    job that returns has marked itself completed. *)
Lemma run_job_invariant (E : Env) (globals : list string) (request_id : string)
    (j : Tasks.Job) (s : State) :
  RoundingOK (rnd64 E) →
  let run := Tasks.run_job_in E globals request_id j (start_execution s) in
  LogInv run.2 ∧ (is_Ret run.1 = true → Completed run.2).
Proof.
  intros Hrnd. cbv zeta.
  pose proof (job_fresh_start s) as Hfresh.
  destruct j as [video_id|video_id k|video_id frame_numbers]; cbn [Tasks.run_job_in].
  - unfold Tasks.process_video_task. rewrite job_run.
    pose proof (process_video_task_body_hoare E request_id video_id _ Hfresh) as Hb.
    destruct (Tasks.process_video_task_body E request_id video_id _) as [[a|e] s1].
    + split; [now apply Completed_LogInv | now intros _].
    + pose proof (handler_hoare E (A := TaskSummary) e (Tasks.fail_video e)
                    (fail_video_job e) s1 Hb) as Hh.
      match type of Hh with
      | match ?x with _ => _ end => destruct x as [[a|e'] s2]
      end; split; auto using Completed_LogInv. discriminate.
  - unfold Tasks.extract_frames_task. rewrite job_run.
    pose proof (extract_frames_task_body_hoare E request_id video_id k _ Hfresh) as Hb.
    destruct (Tasks.extract_frames_task_body E request_id video_id k _) as [[a|e] s1].
    + split; [now apply Completed_LogInv | now intros _].
    + pose proof (handler_hoare_job E (A := TaskSummary) e s1 Hb) as Hh.
      match type of Hh with
      | match ?x with _ => _ end => destruct x as [[a|e'] s2]
      end; split; auto using Completed_LogInv. discriminate.
  - unfold Tasks.detect_objects_in_frames_task_in. rewrite job_run.
    pose proof (detect_body_hoare E Hrnd globals request_id video_id frame_numbers
                  _ Hfresh) as Hb.
    destruct (Tasks.detect_objects_in_frames_task_body E globals request_id video_id
                frame_numbers _) as [[a|e] s1].
    + split; [now apply Completed_LogInv | now intros _].
    + pose proof (handler_hoare_job E (A := TaskSummary) e s1 Hb) as Hh.
      match type of Hh with
      | match ?x with _ => _ end => destruct x as [[a|e'] s2]
      end; split; auto using Completed_LogInv. discriminate.
Qed.

(** C7. In one execution of a job, the progress values written to the
    job's record never decrease and lie between 0 and 100; they all go to
    the job's own record; when that record's row says [completed] the last
    value written is 100; and a job that returns has a [completed] row. *)
Theorem progress_is_monotone (E : Env) (globals : list string) (request_id : string)
    (j : Tasks.Job) (s : State) :
  RoundingOK (rnd64 E) →
  let run := Tasks.run_job_in E globals request_id j (start_execution s) in
  let written := progress_values run.2 in
  StronglySorted Z.le written
  ∧ Forall (λ p, 0 <= p <= 100) written
  ∧ (∀ tr, st_task_record run.2 = Some tr →
       Forall (λ w, w.1 = t_id tr) (st_progress_log run.2)
       ∧ ∀ row, st_tasks run.2 !! t_id tr = Some row →
                t_status row = TCompleted → last written = Some 100)
  ∧ (is_Ret run.1 = true →
     ∃ tr, st_task_record run.2 = Some tr
           ∧ st_tasks run.2 !! t_id tr = Some tr
           ∧ t_status tr = TCompleted
           ∧ last written = Some 100).
Proof.
  intros Hrnd run written.
  destruct (run_job_invariant E globals request_id j s Hrnd) as [Hinv Hdone].
  fold run in Hinv, Hdone. subst written.
  assert (∀ tr, st_task_record run.2 = Some tr →
            0 <= t_progress tr <= 100
            ∧ StronglySorted Z.le (progress_values run.2)
            ∧ Forall (λ e, e.1 = t_id tr ∧ 0 <= e.2 <= t_progress tr)
                (st_progress_log run.2)
            ∧ (∀ row, st_tasks run.2 !! t_id tr = Some row →
                      t_status row = TCompleted →
                      last (progress_values run.2) = Some 100)) as Hsome.
  { intros tr Htr. unfold LogInv in Hinv. rewrite Htr in Hinv. tauto. }
  split; [|split; [|split]].
  - destruct (st_task_record run.2) as [tr|] eqn:Htr.
    + now destruct (Hsome tr eq_refl) as (_ & H & _).
    + unfold LogInv in Hinv. rewrite Htr in Hinv. unfold progress_values.
      rewrite Hinv. constructor.
  - destruct (st_task_record run.2) as [tr|] eqn:Htr.
    + destruct (Hsome tr eq_refl) as (Hb & _ & Hall & _).
      unfold progress_values. apply Forall_fmap.
      eapply Forall_impl; [exact Hall|]. cbn. intros e [_ He]. lia.
    + unfold LogInv in Hinv. rewrite Htr in Hinv. unfold progress_values.
      rewrite Hinv. constructor.
  - intros tr Htr. destruct (Hsome tr Htr) as (_ & _ & Hall & Hrow).
    split; [|exact Hrow].
    eapply Forall_impl; [exact Hall|]. now intros e [He _].
  - intros Hret. destruct (Hdone Hret) as [_ (tr & Htr & Hrow & Hst)].
    exists tr. repeat split; try assumption.
    destruct (Hsome tr Htr) as (_ & _ & _ & Hlast). now apply (Hlast tr).
Qed.

(** With [cv2] bound, spot detection on frames 0, 999999 and 5 of the clip
    writes 0, 33, 100 and 100. *)
Lemma progress_is_monotone_witness :
  let run := Tasks.run_job_in (Demo.env Demo.steady_model)
               ("cv2" :: Tasks.tasks_globals) "celery-1"
               (Tasks.RunObjectDetection "3f2b8c1e-5d4a-4e6f-9a7b-0c1d2e3f4a5b" (Some [0; 999999; 5]))
               (start_execution Demo.initial) in
  progress_values run.2 = [0; 33; 100; 100]
  ∧ StronglySorted Z.le (progress_values run.2)
  ∧ last (progress_values run.2) = Some 100.
Proof.
  destruct (progress_is_monotone (Demo.env Demo.steady_model)
              ("cv2" :: Tasks.tasks_globals) "celery-1"
              (Tasks.RunObjectDetection "3f2b8c1e-5d4a-4e6f-9a7b-0c1d2e3f4a5b" (Some [0; 999999; 5]))
              Demo.initial exact_rounding) as (Hsorted & _ & _ & Hdone).
  cbv zeta. split; [vm_compute; reflexivity|]. split; [exact Hsorted|].
  destruct Hdone as (tr & _ & _ & _ & Hlast); [vm_compute; reflexivity|].
  exact Hlast.
Defined.

(** * Further properties of the code *)

(** ** Jobs on a missing video or a duplicate execution id *)

(** While every id under which a video is stored is the text of a UUID,
    [Video.objects.get] with a text that is not one raises
    [ValidationError]: whether the lookup or the validation of the id
    comes first makes no difference. *)
Lemma Video_objects_get_invalid (E : Env) (video_id text : string) (s : State) :
  (∀ id, is_Some (st_videos s !! id) → uuid_invalid E id = None) →
  uuid_invalid E video_id = Some text →
  Video_objects_get E video_id s = (Raise (MkExn CoreValidationError text), s).
Proof.
  intros Hvalid Hbad. unfold Video_objects_get. unfold_monad.
  destruct (st_videos s !! video_id) as [v|] eqn:Hv.
  - rewrite (Hvalid video_id) in Hbad by (rewrite Hv; eauto). discriminate.
  - now rewrite Hbad.
Qed.

Lemma load_and_register_missing (E : Env) (task_type : TaskType)
    (request_id video_id : string) (s : State) :
  st_videos s !! video_id = None →
  Tasks.load_and_register E task_type request_id video_id s
  = (Raise match uuid_invalid E video_id with
           | Some text => MkExn CoreValidationError text
           | None => MkExn DoesNotExist "Video matching query does not exist."
           end, s).
Proof.
  intros H. unfold Tasks.load_and_register, Video_objects_get. unfold_monad.
  rewrite H. now destruct (uuid_invalid E video_id).
Qed.

(** X1. A job for an id under which no video is stored writes nothing: no
    job record, no row, no file, no clock reading.  When the id is the
    text of a UUID the job raises [Video.DoesNotExist]; when it is not,
    the lookup raises Django's [ValidationError] with the message for
    that text, and the job raises it again. *)
Theorem job_on_missing_video (E : Env) (globals : list string) (request_id : string)
    (j : Tasks.Job) (s : State) :
  st_videos s !! job_video_id j = None →
  let run := Tasks.run_job_in E globals request_id j s in
  run.2 = fresh_locals s
  ∧ (uuid_invalid E (job_video_id j) = None →
     run.1 = Raise (MkExn DoesNotExist "Video matching query does not exist."))
  ∧ (∀ text, uuid_invalid E (job_video_id j) = Some text →
       run.1 = Raise (MkExn CoreValidationError text)).
Proof.
  intros Hmiss run.
  assert (run = (Raise match uuid_invalid E (job_video_id j) with
                       | Some text => MkExn CoreValidationError text
                       | None => MkExn DoesNotExist "Video matching query does not exist."
                       end, fresh_locals s)) as ->.
  { subst run.
    destruct j as [video_id|video_id k|video_id frame_numbers]; cbn in Hmiss |- *.
    - unfold Tasks.process_video_task. rewrite job_run.
      unfold Tasks.process_video_task_body.
      rewrite run_bind,
        (load_and_register_missing E _ request_id video_id (fresh_locals s) Hmiss).
      now destruct (uuid_invalid E video_id).
    - unfold Tasks.extract_frames_task. rewrite job_run.
      unfold Tasks.extract_frames_task_body.
      rewrite run_bind,
        (load_and_register_missing E _ request_id video_id (fresh_locals s) Hmiss).
      now destruct (uuid_invalid E video_id).
    - unfold Tasks.detect_objects_in_frames_task_in. rewrite job_run.
      unfold Tasks.detect_objects_in_frames_task_body.
      rewrite run_bind,
        (load_and_register_missing E _ request_id video_id (fresh_locals s) Hmiss).
      now destruct (uuid_invalid E video_id). }
  split; [reflexivity|]. split.
  - now intros ->.
  - now intros text ->.
Qed.

(** A UUID under which nothing is stored: [DoesNotExist].  The text
    "vid-2": [ValidationError]. *)
Lemma job_on_missing_video_witness :
  (Tasks.run_job_in (Demo.env Demo.steady_model) Tasks.tasks_globals "celery-1"
     (Tasks.RunFrameExtraction "00000000-0000-4000-8000-000000000000" 30) Demo.initial).1
  = Raise (MkExn DoesNotExist "Video matching query does not exist.")
  ∧ (Tasks.run_job_in (Demo.env Demo.steady_model) Tasks.tasks_globals "celery-1"
       (Tasks.RunFrameExtraction "vid-2" 30) Demo.initial).1
    = Raise (MkExn CoreValidationError "['“vid-2” is not a valid UUID.']").
Proof.
  split.
  - destruct (job_on_missing_video (Demo.env Demo.steady_model) Tasks.tasks_globals
                "celery-1"
                (Tasks.RunFrameExtraction "00000000-0000-4000-8000-000000000000" 30)
                Demo.initial) as (_ & Hvalid & _).
    + vm_compute. reflexivity.
    + apply Hvalid. vm_compute. reflexivity.
  - destruct (job_on_missing_video (Demo.env Demo.steady_model) Tasks.tasks_globals
                "celery-1" (Tasks.RunFrameExtraction "vid-2" 30) Demo.initial)
      as (_ & _ & Hinvalid).
    + vm_compute. reflexivity.
    + apply Hinvalid. vm_compute. reflexivity.
Defined.

Lemma load_and_register_duplicate (E : Env) (task_type : TaskType)
    (request_id video_id : string) (s : State) (v : Video) :
  st_videos s !! video_id = Some v →
  celery_id_taken request_id (st_tasks s) = true →
  let violated := task_violations (uuid_hex (uuid4 E (S (st_ticks s)))) request_id
                    (st_tasks s) in
  TaskCeleryId ∈ violated
  ∧ Tasks.load_and_register E task_type request_id video_id s
    = (Raise (MkExn IntegrityError (unique_violation E violated)),
       upd_st_ticks (λ n, S (S (S n))) (upd_st_video (λ _, Some v) s)).
Proof.
  intros Hv Hdup violated.
  assert (TaskCeleryId ∈ violated) as Hin.
  { subst violated. unfold task_violations. rewrite Hdup.
    apply elem_of_app. right. apply list_elem_of_singleton. reflexivity. }
  split; [exact Hin|].
  unfold Tasks.load_and_register, ProcessingTask_objects_create, Video_objects_get,
    bind_video, timezone_now, uuid_uuid4, tick.
  unfold_monad. rewrite Hv. cbn. fold violated.
  destruct violated; [inversion Hin | reflexivity].
Qed.

(** X2. When the execution id is already taken by a job record, the job
    ends with the [IntegrityError] of the database for the violated
    constraints, the one on [celery_task_id] among them, before creating a
    record of its own.  The frame-extraction and object-detection jobs
    then leave the database as it was; the video-processing job still
    stores the video with status [failed] and the text of the error as
    [error_message], every other row and field being as before. *)
Theorem job_on_duplicate_execution (E : Env) (globals : list string)
    (request_id : string) (j : Tasks.Job) (s : State) (v : Video) :
  st_videos s !! job_video_id j = Some v →
  celery_id_taken request_id (st_tasks s) = true →
  let run := Tasks.run_job_in E globals request_id j s in
  let violated := task_violations (uuid_hex (uuid4 E (S (st_ticks s)))) request_id
                    (st_tasks s) in
  let text := unique_violation E violated in
  TaskCeleryId ∈ violated
  ∧ run.1 = Raise (MkExn IntegrityError text)
  ∧ st_tasks run.2 = st_tasks s
  ∧ st_progress_log run.2 = st_progress_log s
  ∧ st_frames run.2 = st_frames s
  ∧ st_objects run.2 = st_objects s
  ∧ match j with
    | Tasks.RunVideoProcessing _ =>
        ∃ row, st_videos run.2 = <[v_id v := row]> (st_videos s)
               ∧ row = failed_video (MkExn IntegrityError text) v
               ∧ v_status row = VFailed
               ∧ v_error_message row = text
    | _ => st_videos run.2 = st_videos s
    end.
Proof.
  intros Hv Hdup run violated text. subst run.
  destruct j as [video_id|video_id k|video_id frame_numbers]; cbn in Hv |- *.
  - destruct (load_and_register_duplicate E VideoProcessing request_id video_id
                (fresh_locals s) v Hv Hdup) as [Hin Hrun].
    split; [exact Hin|].
    unfold Tasks.process_video_task. rewrite job_run.
    unfold Tasks.process_video_task_body.
    rewrite run_bind, Hrun.
    destruct (decide _) as [Hc|_]; [discriminate Hc|].
    unfold Tasks.fail_task_record, Tasks.fail_video, assign_video, video_save,
      local_video, Video_save.
    unfold_monad. cbn. repeat split.
    eexists. split; [reflexivity|]. repeat split.
  - destruct (load_and_register_duplicate E FrameExtraction request_id video_id
                (fresh_locals s) v Hv Hdup) as [Hin Hrun].
    split; [exact Hin|].
    unfold Tasks.extract_frames_task. rewrite job_run.
    unfold Tasks.extract_frames_task_body.
    rewrite run_bind, Hrun.
    destruct (decide _) as [Hc|_]; [discriminate Hc|].
    unfold Tasks.fail_task_record. unfold_monad. cbn. repeat split.
  - destruct (load_and_register_duplicate E ObjectDetection request_id video_id
                (fresh_locals s) v Hv Hdup) as [Hin Hrun].
    split; [exact Hin|].
    unfold Tasks.detect_objects_in_frames_task_in. rewrite job_run.
    unfold Tasks.detect_objects_in_frames_task_body.
    rewrite run_bind, Hrun.
    destruct (decide _) as [Hc|_]; [discriminate Hc|].
    unfold Tasks.fail_task_record. unfold_monad. cbn. repeat split.
Qed.

(** The execution id "celery-1" used twice: the second job, a
    video-processing job, ends with the error of SQLite, writes no job
    record and leaves the video [failed] with the text of the error. *)
Lemma job_on_duplicate_execution_witness :
  let s := (Tasks.run_job (Demo.env Demo.steady_model) "celery-1"
              (Tasks.RunFrameExtraction "3f2b8c1e-5d4a-4e6f-9a7b-0c1d2e3f4a5b" 30)
              Demo.initial).2 in
  let run := Tasks.run_job_in (Demo.env Demo.steady_model) Tasks.tasks_globals
               "celery-1"
               (Tasks.RunVideoProcessing "3f2b8c1e-5d4a-4e6f-9a7b-0c1d2e3f4a5b") s in
  let text := "UNIQUE constraint failed: video_app_processingtask.celery_task_id" in
  run.1 = Raise (MkExn IntegrityError text)
  ∧ st_tasks run.2 = st_tasks s
  ∧ ∃ row, st_videos run.2 !! "3f2b8c1e-5d4a-4e6f-9a7b-0c1d2e3f4a5b" = Some row
           ∧ v_status row = VFailed ∧ v_error_message row = text.
Proof.
  intros s run text.
  destruct (job_on_duplicate_execution (Demo.env Demo.steady_model) Tasks.tasks_globals
              "celery-1"
              (Tasks.RunVideoProcessing "3f2b8c1e-5d4a-4e6f-9a7b-0c1d2e3f4a5b") s
              Demo.video)
    as (_ & Hrun & Htasks & _ & _ & _ & row & Hvideos & _ & Hstatus & Hmsg).
  - vm_compute. reflexivity.
  - vm_compute. reflexivity.
  - fold run in Hrun, Htasks, Hvideos.
    split; [rewrite Hrun; vm_compute; reflexivity|]. split; [exact Htasks|].
    exists row. split; [rewrite Hvideos; apply lookup_insert_eq|].
    split; [exact Hstatus|]. rewrite Hmsg. vm_compute. reflexivity.
Defined.

(** ** Capture and writer handles of the jobs *)

Section Handles.
Context (E : Env).

(** A capture that is opened right before a [try] whose [finally]
    releases it. *)
Lemma with_capture_handles {A B} (path : string) (body : option VideoFile → M A)
    (k : A → M B) :
  (∀ cap, frames handles_kept (body cap)) →
  (∀ a, frames handles_kept (k a)) →
  frames handles_kept
    (cap ← cv2_VideoCapture E path;
     r ← try_finally (body cap) (cap_release cap);
     k r).
Proof.
  intros Hbody Hk s.
  unfold cv2_VideoCapture, cap_release. unfold_monad.
  destruct (cv_open E path) as [vf|]; cbn.
  - pose proof (Hbody (Some vf) (upd_st_caps S s)) as [Hc Hw].
    destruct (body (Some vf) (upd_st_caps S s)) as [[a|e] s1]; cbn in *.
    + pose proof (Hk a (upd_st_caps Nat.pred s1)) as [Hc' Hw'].
      destruct (k a _) as [r s2]; cbn in *.
      split; [rewrite Hc', Hc | rewrite Hw', Hw]; reflexivity.
    + split; cbn; [rewrite Hc | rewrite Hw]; reflexivity.
  - pose proof (Hbody None s) as [Hc Hw].
    destruct (body None s) as [[a|e] s1]; cbn in *.
    + pose proof (Hk a s1) as [Hc' Hw'].
      destruct (k a s1) as [r s2]; cbn in *.
      split; congruence.
    + split; assumption.
Qed.

Lemma yolo_metadata_handles (video_path : string) :
  frames handles_kept (YOLOProcessor.get_video_metadata E video_path).
Proof.
  intros s.
  unfold YOLOProcessor.get_video_metadata, os_path_exists, cv2_VideoCapture,
    cap_release, os_path_getsize.
  unfold_monad.
  destruct (bool_decide _); cbn [negb]; [|now split].
  destruct (cv_open E video_path) as [vf|]; [|now split].
  destruct (duration_of_total E (vf_frame_count vf) (vf_fps vf)) as [d ->].
  cbn. destruct (st_fs s !! video_path); now split.
Qed.

Lemma yolo_init_handles : frames handles_kept (YOLOProcessor.init E).
Proof. unfold YOLOProcessor.init. frames_handles. Qed.

Lemma minio_init_handles : frames handles_kept (MinIOClient.init E).
Proof. unfold MinIOClient.init. frames_handles. Qed.

Lemma upload_file_handles (file_path : string) (bucket_name object_name : option string) :
  frames handles_kept (MinIOClient.upload_file E file_path bucket_name object_name).
Proof. unfold MinIOClient.upload_file, MinIOClient.fput_object. frames_handles. Qed.

Hint Resolve yolo_metadata_handles yolo_init_handles minio_init_handles
  upload_file_handles process_video_handles extract_frames_handles
  process_frame_handles : frames.

Lemma upload_frames_handles (frame_paths : list string) :
  ∀ keys, frames handles_kept (Tasks.upload_frames E frame_paths keys).
Proof.
  induction frame_paths as [|p frame_paths IH]; intros keys; simpl;
    frames_by handles_leaf.
Qed.

Lemma save_objects_handles (video : Video) (n : Z) (objs : list Detection) :
  ∀ count, frames handles_kept (Tasks.save_objects E video n objs count).
Proof.
  induction objs as [|obj objs IH]; intros count; simpl; frames_by handles_leaf.
Qed.

Hint Resolve upload_frames_handles save_objects_handles : frames.

Lemma detect_loop_handles (cap : option VideoFile) (video : Video) (len : Z)
    (frame_numbers : list Z) :
  ∀ i count, frames handles_kept (Tasks.detect_loop E cap video len i frame_numbers count).
Proof.
  induction frame_numbers as [|n frame_numbers IH]; intros i count; simpl;
    frames_by handles_leaf.
Qed.

Lemma process_video_task_handles (request_id video_id : string) :
  frames handles_kept (Tasks.process_video_task E request_id video_id).
Proof.
  unfold Tasks.process_video_task, Tasks.process_video_task_body.
  frames_by handles_leaf.
Qed.

Lemma extract_frames_task_handles (request_id video_id : string) (k : Z) :
  frames handles_kept (Tasks.extract_frames_task E request_id video_id k).
Proof.
  unfold Tasks.extract_frames_task, Tasks.extract_frames_task_body.
  frames_by handles_leaf.
Qed.

Lemma detect_task_handles (globals : list string) (request_id video_id : string)
    (frame_numbers : option (list Z)) :
  frames handles_kept
    (Tasks.detect_objects_in_frames_task_in E globals request_id video_id frame_numbers).
Proof.
  unfold Tasks.detect_objects_in_frames_task_in,
    Tasks.detect_objects_in_frames_task_body.
  apply frames_bind; [exact _|frames_by handles_leaf|intros []].
  apply frames_try_except; [exact _| |intros e; frames_by handles_leaf].
  apply frames_bind; [exact _|frames_by handles_leaf|intros video].
  apply frames_bind; [exact _|frames_by handles_leaf|intros []].
  apply frames_bind; [exact _|frames_by handles_leaf|intros metadata].
  cbv zeta.
  apply frames_bind; [exact _|frames_by handles_leaf|intros []].
  apply with_capture_handles.
  - intros cap. apply detect_loop_handles.
  - intros count. frames_by handles_leaf.
Qed.

End Handles.

(** X3. Whatever a job does and however it ends, the process holds as many
    capture and writer handles afterwards as before: none is leaked. *)
Theorem jobs_release_handles (E : Env) (globals : list string) (request_id : string)
    (j : Tasks.Job) (s : State) :
  let s' := (Tasks.run_job_in E globals request_id j s).2 in
  st_caps s' = st_caps s ∧ st_writers s' = st_writers s.
Proof.
  destruct j as [video_id|video_id k|video_id frame_numbers]; cbn.
  - apply process_video_task_handles.
  - apply extract_frames_task_handles.
  - apply detect_task_handles.
Qed.

(** ** The uniqueness constraint of [ProcessedFrame] *)

Global Instance unique_frames_kept_preorder : PreOrder unique_frames_kept.
Proof.
  split; unfold unique_frames_kept; [now intros s | intros s1 s2 s3; tauto].
Qed.

Lemma io_only_unique (s s' : State) : io_only s s' → unique_frames_kept s s'.
Proof. intros [_ _ Hf _ _ _ _]. unfold unique_frames_kept, unique_frames. now rewrite Hf. Qed.

Lemma frames_io_unique {A} (m : M A) : frames io_only m → frames unique_frames_kept m.
Proof. apply frames_weaken, io_only_unique. Qed.

Lemma frame_taken_false (video_id : string) (n : Z) (rows : list ProcessedFrame) :
  frame_taken video_id n rows = false → (video_id, n) ∉ frame_key <$> rows.
Proof.
  induction rows as [|r rows IH]; simpl; intros H.
  - apply not_elem_of_nil.
  - apply orb_false_iff in H as [Hr Hrows].
    apply not_elem_of_cons. split; [|now apply IH].
    intros Heq. unfold frame_key in Heq. injection Heq as Hv Hn.
    rewrite !bool_decide_eq_true_2 in Hr by congruence. discriminate Hr.
Qed.

Lemma frame_create_unique (E : Env) (video : Video) (n count : Z) (t : Q) :
  frames unique_frames_kept (ProcessedFrame_objects_create E video n count t).
Proof.
  intros s Hu. unfold ProcessedFrame_objects_create. unfold_monad.
  destruct (frame_taken (v_id video) n (st_frames s)) eqn:Htaken; [exact Hu|].
  unfold unique_frames. cbn. rewrite fmap_app. apply NoDup_app. split; [exact Hu|].
  split; [|apply NoDup_singleton].
  intros key Hin Hkey. apply list_elem_of_singleton in Hkey. subst key.
  now apply (frame_taken_false _ _ _ Htaken).
Qed.

Ltac unique_leaf := intros Hu; exact Hu.

Ltac frames_unique :=
  repeat first [ solve [eauto with frames]
               | frames_step unique_leaf
               | progress autounfold with prims orm ].

Section Unique.
Context (E : Env).

Hint Resolve frames_io_unique frame_create_unique : frames.

Lemma save_objects_unique (video : Video) (n : Z) (objs : list Detection) :
  ∀ count, frames unique_frames_kept (Tasks.save_objects E video n objs count).
Proof.
  induction objs as [|obj objs IH]; intros count; simpl; frames_unique.
Qed.

Hint Resolve save_objects_unique : frames.

Lemma detect_loop_unique (cap : option VideoFile) (video : Video) (len : Z)
    (frame_numbers : list Z) :
  ∀ i count,
    frames unique_frames_kept (Tasks.detect_loop E cap video len i frame_numbers count).
Proof.
  induction frame_numbers as [|n frame_numbers IH]; intros i count; simpl;
    frames_unique.
Qed.

Hint Resolve detect_loop_unique : frames.

Lemma run_job_unique (globals : list string) (request_id : string) (j : Tasks.Job) :
  frames unique_frames_kept (Tasks.run_job_in E globals request_id j).
Proof.
  destruct j as [video_id|video_id k|video_id frame_numbers]; cbn.
  - unfold Tasks.process_video_task, Tasks.process_video_task_body. frames_unique.
  - unfold Tasks.extract_frames_task, Tasks.extract_frames_task_body. frames_unique.
  - unfold Tasks.detect_objects_in_frames_task_in,
      Tasks.detect_objects_in_frames_task_body. frames_unique.
Qed.

End Unique.

(** X4. The jobs keep the [unique_together] constraint of [ProcessedFrame]:
    if no two rows share a video and a frame number before a job, none do
    after it, whether it succeeds or fails. *)
Theorem jobs_keep_frames_unique (E : Env) (globals : list string) (request_id : string)
    (j : Tasks.Job) (s : State) :
  unique_frames s →
  unique_frames (Tasks.run_job_in E globals request_id j s).2.
Proof. apply run_job_unique. Qed.

Lemma jobs_keep_frames_unique_witness :
  unique_frames (Tasks.run_job_in (Demo.env Demo.steady_model) Tasks.tasks_globals
                   "celery-1" (Tasks.RunVideoProcessing "3f2b8c1e-5d4a-4e6f-9a7b-0c1d2e3f4a5b") Demo.with_stale_row).2.
Proof.
  apply (jobs_keep_frames_unique (Demo.env Demo.steady_model) Tasks.tasks_globals
           "celery-1" (Tasks.RunVideoProcessing "3f2b8c1e-5d4a-4e6f-9a7b-0c1d2e3f4a5b") Demo.with_stale_row).
  unfold unique_frames. vm_compute. apply NoDup_singleton.
Defined.

(** ** What a successful video-processing job has written *)

Section HoareMore.
Context {A : Type}.

(** Code that keeps [R] keeps every assertion that [R] carries over, when
    nothing is asked of the exceptional exits. *)
Lemma hoare_keep (R : relation State) (P : State → Prop) (m : M A) :
  frames R m → (∀ s s', P s → R s s' → P s') → hoare P m (λ _, P) (λ _, True).
Proof.
  intros Hm H s Hs. specialize (Hm s).
  destruct (m s) as [[a|e] s1]; [eapply H; eauto | exact I].
Qed.

Lemma hoare_and (P : State → Prop) (m : M A) (Q1 Q2 : A → State → Prop)
    (X : State → Prop) :
  hoare P m Q1 X → hoare P m Q2 X → hoare P m (λ a s, Q1 a s ∧ Q2 a s) X.
Proof.
  intros H1 H2 s Hs. specialize (H1 s Hs). specialize (H2 s Hs).
  destruct (m s) as [[a|e] s1]; [now split | exact H1].
Qed.

(** A property of the returned value alone. *)
Lemma hoare_returns (P : State → Prop) (m : M A) (φ : A → Prop) :
  (∀ s a s', P s → m s = (Ret a, s') → φ a) →
  hoare P m (λ a _, φ a) (λ _, True).
Proof.
  intros H s Hs. destruct (m s) as [[a|e] s1] eqn:Hrun; [|exact I].
  now apply (H s a s1).
Qed.

Lemma hoare_pure_pre (φ : Prop) (P : State → Prop) (m : M A)
    (Q : A → State → Prop) (X : State → Prop) :
  (φ → hoare P m Q X) → hoare (λ s, P s ∧ φ) m Q X.
Proof. intros H s [Hs Hφ]. now apply H. Qed.

Lemma hoare_exists_pre {T} (P : T → State → Prop) (m : M A)
    (Q : A → State → Prop) (X : State → Prop) :
  (∀ x, hoare (P x) m Q X) → hoare (λ s, ∃ x, P x s) m Q X.
Proof. intros H s [x Hs]. now apply (H x). Qed.

End HoareMore.

Global Instance rows_kept_preorder : PreOrder rows_kept.
Proof.
  split.
  - intros s. now repeat split.
  - intros s1 s2 s3 (? & ? & ?) (? & ? & ?). repeat split; congruence.
Qed.

Lemma io_only_rows_kept (s s' : State) : io_only s s' → rows_kept s s'.
Proof. intros [_ _ Hf Ho _ Hv _]. repeat split; congruence. Qed.

Lemma frames_io_rows_kept {A} (m : M A) : frames io_only m → frames rows_kept m.
Proof. apply frames_weaken, io_only_rows_kept. Qed.

Ltac rows_kept_leaf :=
  repeat split; cbn; try reflexivity;
  match goal with |- context [st_video ?s] => destruct (st_video s); reflexivity end.

Ltac frames_rows_kept :=
  repeat first [ solve [eauto with frames]
               | frames_step rows_kept_leaf
               | progress autounfold with prims orm ].

Lemma RowsAre_kept (F : list ProcessedFrame) (O : list DetectedObject) (v : Video)
    (s s' : State) :
  RowsAre F O v s → rows_kept s s' → RowsAre F O v s'.
Proof. intros (? & ? & ?) (? & ? & ?). repeat split; congruence. Qed.

(** A decidable property fails somewhere in a list for which it does not
    hold throughout: the list splits at the first failure. *)
Lemma first_failure {T} (P : T → bool) (l : list T) :
  Forall (λ x, P x = true) l
  ∨ ∃ done x rest, l = (done ++ x :: rest)%list
                   ∧ Forall (λ x, P x = true) done ∧ P x = false.
Proof.
  induction l as [|x l [IH|(done & y & rest & -> & Hdone & Hy)]].
  - left. constructor.
  - destruct (P x) eqn:Hx.
    + left. now constructor.
    + right. exists [], x, l. repeat split; [constructor | exact Hx].
  - destruct (P x) eqn:Hx.
    + right. exists (x :: done), y, rest. repeat split; [now constructor | exact Hy].
    + right. exists [], x, (done ++ y :: rest)%list. repeat split; [constructor | exact Hx].
Qed.

(** With the interval 1 every decoded frame is selected. *)
Lemma selected_one (frames : list Frame) :
  ∀ n, selected 1 n frames = zip (seqZ n (Z.of_nat (length frames))) frames.
Proof.
  induction frames as [|f frames IH]; intros n; [reflexivity|].
  cbn [selected length]. rewrite seqZ_cons by lia.
  replace (Z.pred (Z.of_nat (S (length frames)))) with (Z.of_nat (length frames)) by lia.
  rewrite Z.mod_1_r. cbn. now rewrite IH.
Qed.

Lemma detections_of_length (frs : list FrameResult) :
  length (detections_of frs) = length (concat (fr_objects <$> frs)).
Proof.
  unfold detections_of. induction frs as [|fr frs IH]; [reflexivity|].
  cbn. rewrite !length_app, length_fmap, IH. reflexivity.
Qed.

Section Success.
Context (E : Env).

(** What [process_video] returned, when it returned. *)
Lemma process_video_inversion (video_path : string) (out : option string) (k : Z)
    (s s' : State) (r : Results) :
  k ≠ 0 →
  YOLOProcessor.process_video E video_path out k s = (Ret r, s') →
  ∃ vf, cv_open E video_path = Some vf
        ∧ Forall2 (result_of E) (selected k 0 (decoded (vf_reads vf)))
            (res_detections r)
        ∧ res_processed_frames r = Z.of_nat (length (res_detections r)).
Proof.
  intros Hk Hrun.
  destruct (st_fs s !! video_path) as [file|] eqn:Hfile; cycle 1.
  { unfold YOLOProcessor.process_video in Hrun.
    rewrite run_bind, (exists_false _ _ Hfile) in Hrun. discriminate Hrun. }
  destruct (cv_open E video_path) as [vf|] eqn:Hopen; cycle 1.
  { unfold YOLOProcessor.process_video, cv2_VideoCapture in Hrun.
    rewrite run_bind, (exists_true _ _ _ Hfile) in Hrun. cbn [negb] in Hrun.
    rewrite Hopen in Hrun. discriminate Hrun. }
  exists vf. split; [reflexivity|].
  destruct (first_failure (λ p : Z * Frame, is_Ret (detect E p.2))
              (selected k 0 (decoded (vf_reads vf))))
    as [Hok|(done & p & rest & Hsel & Hdone & Hbad)].
  - destruct (process_video_returns E video_path out k s file vf Hfile Hopen Hk Hok)
      as (r' & Hr' & Hall & Hcount).
    rewrite Hrun in Hr'. cbn in Hr'. injection Hr' as <-.
    split; [exact Hall|]. rewrite Hcount. apply Forall2_length in Hall. lia.
  - destruct (detect E p.2) as [ds|e] eqn:Hd; [discriminate Hbad|].
    pose proof (process_video_raises E video_path out k s file vf Hfile Hopen Hk
                  done p rest e Hsel Hdone Hd) as Hraise.
    rewrite Hrun in Hraise. discriminate Hraise.
Qed.

Lemma load_and_register_rows (task_type : TaskType) (request_id video_id : string)
    (v : Video) (F : list ProcessedFrame) (O : list DetectedObject) :
  hoare (λ s, st_videos s !! video_id = Some v ∧ st_frames s = F ∧ st_objects s = O)
    (Tasks.load_and_register E task_type request_id video_id)
    (λ a s, RowsAre F O v s ∧ a = v) (λ _, True).
Proof.
  intros s (Hv & HF & HO).
  unfold Tasks.load_and_register, ProcessingTask_objects_create, Video_objects_get,
    bind_video, bind_task_record, timezone_now, uuid_uuid4, tick.
  unfold_monad. rewrite Hv. cbn.
  match goal with |- context [task_violations ?a ?b ?c] =>
    destruct (task_violations a b c) end; cbn; [|exact I]. now repeat split.
Qed.

Lemma save_objects_rows (video : Video) (n : Z) (objs : list Detection)
    (F : list ProcessedFrame) :
  ∀ O, hoare (RowsAre F O video)
         (for_each objs (λ obj,
            DetectedObject_objects_create E video n obj;; mret tt))
         (λ _ s, ∃ new, RowsAre F (O ++ new) video s
                        ∧ Forall2 (object_row video) ((λ obj, (n, obj)) <$> objs) new)
         (λ _, True).
Proof.
  induction objs as [|obj objs IH]; intros O; cbn [for_each].
  - apply hoare_ret. intros s Hs. exists []. rewrite app_nil_r. split; [exact Hs|constructor].
  - apply (hoare_bind _ _ (λ _ s, ∃ o, RowsAre F (O ++ [o]) video s
                                       ∧ object_row video (n, obj) o)).
    + clear IH. intros s (HF & HO & Hv).
      unfold DetectedObject_objects_create, timezone_now, tick. unfold_monad. cbn.
      eexists. split; [split; [exact HF|split; [cbn; rewrite HO; reflexivity|exact Hv]]|].
      now repeat split.
    + intros _. apply hoare_exists_pre. intros o. apply hoare_pure_pre. intros Ho.
      eapply hoare_consequence; [apply (IH (O ++ [o])%list) | auto | | auto].
      intros _ s (new & Hs & Hnew). exists (o :: new). rewrite <- app_assoc in Hs.
      split; [exact Hs | now constructor].
Qed.

Lemma frame_create_rows (video : Video) (fr : FrameResult)
    (F : list ProcessedFrame) (O : list DetectedObject) :
  hoare (RowsAre F O video)
    (ProcessedFrame_objects_create E video (fr_frame_number fr)
       (fr_object_count fr) (fr_processing_time fr))
    (λ _, RowsAre (F ++ [frame_row video fr]) O video) (λ _, True).
Proof.
  intros s (HF & HO & Hv). unfold ProcessedFrame_objects_create. unfold_monad.
  destruct (frame_taken _ _ _); [exact I|]. cbn.
  split; [cbn; rewrite HF; reflexivity | split; assumption].
Qed.

Lemma save_frame_results_rows (video : Video) (frs : list FrameResult) :
  ∀ F O, hoare (RowsAre F O video)
           (for_each frs (Tasks.save_frame_result E video))
           (λ _ s, ∃ new, RowsAre (F ++ (frame_row video <$> frs)) (O ++ new) video s
                          ∧ Forall2 (object_row video) (detections_of frs) new)
           (λ _, True).
Proof.
  induction frs as [|fr frs IH]; intros F O; cbn [for_each].
  - apply hoare_ret. intros s Hs. exists []. cbn. rewrite !app_nil_r.
    split; [exact Hs|constructor].
  - apply (hoare_bind _ _
             (λ _ s, ∃ new, RowsAre (F ++ [frame_row video fr]) (O ++ new) video s
                            ∧ Forall2 (object_row video)
                                ((λ obj, (fr_frame_number fr, obj)) <$> fr_objects fr)
                                new)).
    + unfold Tasks.save_frame_result. cbv zeta.
      eapply hoare_bind; [apply frame_create_rows|]. intros ?. apply save_objects_rows.
    + intros _. apply hoare_exists_pre. intros new1. apply hoare_pure_pre. intros H1.
      eapply hoare_consequence;
        [apply (IH (F ++ [frame_row video fr])%list (O ++ new1)%list) | auto | | auto].
      intros _ s (new2 & Hs & H2). exists (new1 ++ new2)%list.
      rewrite <- !app_assoc in Hs. split; [exact Hs|].
      unfold detections_of. cbn. now apply Forall2_app.
Qed.

Lemma complete_task_record_done (P : State → Prop) :
  hoare P (Tasks.complete_task_record E) (λ _, TaskDone) (λ _, True).
Proof.
  intros s _.
  unfold Tasks.complete_task_record, assign_task_record, task_record_save,
    local_task_record, ProcessingTask_save, timezone_now, tick.
  unfold_monad. cbn. destruct (st_task_record s) as [tr|] eqn:Htr; cbn; [|exact I].
  match goal with |- TaskDone (write_task ?t _) => exists t end.
  split; [cbn; rewrite Htr; reflexivity|].
  split; [apply lookup_insert_eq|]. now split.
Qed.

Ltac keep_rows :=
  lazymatch goal with
  | |- hoare ?P (mbind _ ?m) _ _ =>
      apply (hoare_bind P m (λ _, P));
      [solve [apply (hoare_keep rows_kept); [frames_rows_kept | apply RowsAre_kept]]
      | intros ?]
  | |- hoare _ (let _ := _ in _) _ _ => cbv zeta
  end.

Hint Resolve frames_io_rows_kept : frames.

Lemma process_video_task_body_success (request_id video_id : string) (v : Video)
    (F : list ProcessedFrame) (O : list DetectedObject) :
  hoare (λ s, st_videos s !! video_id = Some v ∧ st_frames s = F ∧ st_objects s = O)
    (Tasks.process_video_task_body E request_id video_id)
    (λ summary s,
       ∃ vf frs objs t,
         cv_open E (v_video_file v) = Some vf
         ∧ Forall2 (result_of E) (selected 1 0 (decoded (vf_reads vf))) frs
         ∧ summary = ProcessSummary video_id (Z.of_nat (length frs))
                       (Z.of_nat (length objs)) t
         ∧ st_frames s = (F ++ (frame_row v <$> frs))%list
         ∧ st_objects s = (O ++ objs)%list
         ∧ Forall2 (object_row v) (detections_of frs) objs
         ∧ VideoDone v s ∧ TaskDone s)
    (λ _, True).
Proof.
  unfold Tasks.process_video_task_body.
  eapply hoare_bind; [apply load_and_register_rows|].
  intros video. apply hoare_pure_pre. intros ->.
  repeat keep_rows.
  destruct (PosixPath.splitext _) as [name ext].
  eapply hoare_bind.
  { apply hoare_and.
    - apply (hoare_keep rows_kept); [frames_rows_kept | apply RowsAre_kept].
    - apply hoare_returns. intros s r s' _ Hrun.
      exact (process_video_inversion _ _ 1 s s' r ltac:(discriminate) Hrun). }
  intros results. cbv beta. apply hoare_pure_pre. intros (vf & Hopen & Hall & Hcount).
  eapply hoare_bind; [apply save_frame_results_rows|].
  intros ?. cbv beta. apply hoare_exists_pre. intros objs.
  apply hoare_pure_pre. intros Hobjs.
  do 3 keep_rows.
  eapply hoare_bind.
  { apply hoare_and.
    - apply (hoare_keep rows_kept); [frames_rows_kept | apply RowsAre_kept].
    - apply complete_task_record_done. }
  intros ?. cbv beta.
  intros s ((HF & HO & Hv) & Htask).
  unfold assign_video, video_save, local_video, Video_save, timezone_now, tick.
  unfold_monad.
  destruct (st_video s) as [vv|] eqn:Hvv; [|discriminate Hv].
  cbn. rewrite Hvv. cbn. injection Hv as Hid.
  exists vf, (res_detections results), objs, (res_processing_time results).
  split; [exact Hopen|]. split; [exact Hall|].
  split.
  { rewrite Hcount, <- detections_of_length, (Forall2_length _ _ _ Hobjs).
    reflexivity. }
  split; [exact HF|]. split; [exact HO|]. split; [exact Hobjs|].
  split; [|exact Htask].
  eexists. split; [rewrite <- Hid; apply lookup_insert_eq|]. split; [exact Hid|reflexivity].
Qed.

End Success.

Lemma bind_never_returns {A B} (m : M A) (k : A → M B) :
  (∀ a s, is_Ret (k a s).1 = false) → ∀ s, is_Ret ((m ≫= k) s).1 = false.
Proof.
  intros Hk s. rewrite run_bind. destruct (m s) as [[a|e] s1]; [apply Hk | reflexivity].
Qed.

(** The handlers of the jobs end by raising the exception again: a job
    that returns has returned from its body. *)
Lemma job_returns_from_body {A} (body : M A) (h : Exn → M A) (s : State) :
  (∀ e s, is_Ret (h e s).1 = false) →
  is_Ret ((new_frame;;
           try_except body
             (λ e, if decide (exn_class e = DoesNotExist) then mthrow e else h e)) s).1
  = true →
  ∃ a s1, body (fresh_locals s) = (Ret a, s1)
          ∧ (new_frame;;
             try_except body
               (λ e, if decide (exn_class e = DoesNotExist) then mthrow e else h e)) s
            = (Ret a, s1).
Proof.
  intros Hh. rewrite job_run. destruct (body (fresh_locals s)) as [[a|e] s1]; [eauto|].
  destruct (decide _); [discriminate|]. now rewrite Hh.
Qed.

(** X5. When [process_video_task] returns, the database holds what the
    summary says: the video's file opened; one [ProcessedFrame] row was
    added for each decoded frame, numbered from 0, carrying the result of
    detection on that frame; one [DetectedObject] row was added for each
    detection, in order; [processed_frames] and [total_detections] count
    these rows; the video is stored as [completed], and the job's record
    as [completed] with progress 100. *)
Theorem process_video_task_success (E : Env) (request_id video_id : string)
    (s : State) :
  let run := Tasks.process_video_task E request_id video_id s in
  is_Ret run.1 = true →
  ∃ v vf frs objs t,
    st_videos s !! video_id = Some v
    ∧ cv_open E (v_video_file v) = Some vf
    ∧ Forall2 (result_of E)
        (zip (seqZ 0 (Z.of_nat (length (decoded (vf_reads vf))))) (decoded (vf_reads vf)))
        frs
    ∧ run.1 = Ret (ProcessSummary video_id (Z.of_nat (length frs))
                     (Z.of_nat (length objs)) t)
    ∧ st_frames run.2 = (st_frames s ++ (frame_row v <$> frs))%list
    ∧ st_objects run.2 = (st_objects s ++ objs)%list
    ∧ Forall2 (object_row v) (detections_of frs) objs
    ∧ VideoDone v run.2
    ∧ TaskDone run.2.
Proof.
  intros run Hret. subst run. unfold Tasks.process_video_task in *.
  apply (job_returns_from_body _
           (λ e, Tasks.fail_task_record E e;; Tasks.fail_video e;; mthrow e))
    in Hret as (summary & s1 & Hbody & ->);
    [|intros e s0; apply bind_never_returns; intros ? ?; now apply bind_never_returns].
  cbn [fst snd].
  destruct (st_videos s !! video_id) as [v|] eqn:Hv; cycle 1.
  { unfold Tasks.process_video_task_body in Hbody.
    rewrite run_bind, (load_and_register_missing E _ request_id video_id (fresh_locals s) Hv)
      in Hbody.
    discriminate Hbody. }
  pose proof (process_video_task_body_success E request_id video_id v
                (st_frames s) (st_objects s) (fresh_locals s)
                (conj Hv (conj eq_refl eq_refl))) as H.
  rewrite Hbody in H.
  destruct H as (vf & frs & objs & t & Hopen & Hall & -> & HF & HO & Hobjs & Hvid & Htask).
  rewrite selected_one in Hall.
  exists v, vf, frs, objs, t. repeat split; assumption.
Qed.

Lemma process_video_task_success_witness :
  TaskDone (Tasks.process_video_task (Demo.env Demo.steady_model) "celery-1" "3f2b8c1e-5d4a-4e6f-9a7b-0c1d2e3f4a5b"
              Demo.initial).2.
Proof.
  destruct (process_video_task_success (Demo.env Demo.steady_model) "celery-1" "3f2b8c1e-5d4a-4e6f-9a7b-0c1d2e3f4a5b"
              Demo.initial)
    as (v & vf & frs & objs & t & _ & _ & _ & _ & _ & _ & _ & _ & Htask).
  - vm_compute. reflexivity.
  - exact Htask.
Defined.

(** ** [MinIOClient.upload_file]: what it changes *)

Lemma upload_file_cases (E : Env) (file_path : string)
    (bucket_name object_name : option string) (s : State) :
  let bucket := py_or bucket_name (default_bucket E) in
  let run := MinIOClient.upload_file E file_path bucket_name object_name s in
  st_fs run.2 = st_fs s
  ∧ ((∃ e, run.1 = Raise e ∧ st_store run.2 = st_store s)
     ∨ (∃ file name, st_fs s !! file_path = Some file
                     ∧ run.1 = Ret (bucket +:+ "/" +:+ name)
                     ∧ st_store run.2 = <[(bucket, name) := file]> (st_store s))).
Proof.
  intros bucket run. subst run.
  unfold MinIOClient.upload_file, os_path_exists, MinIOClient.fput_object,
    uuid_uuid4, tick.
  unfold_monad. fold bucket.
  destruct (st_fs s !! file_path) as [file|] eqn:Hfile; cbn [negb bool_decide];
    [|split; [reflexivity|left; eauto]].
  rewrite bool_decide_eq_true_2 by eauto. cbn [negb].
  destruct (bool_decide _).
  - destruct (PosixPath.splitext _) as [name ext]. cbn.
    destruct (s3_put_fault E bucket _) as [e|]; cbn;
      [split; [reflexivity|left; eauto]|].
    rewrite Hfile. cbn. split; [reflexivity|right; eauto].
  - cbn. destruct (s3_put_fault E bucket _) as [e|]; cbn;
      [split; [reflexivity|left; eauto]|].
    rewrite Hfile. cbn. split; [reflexivity|right; eauto].
Qed.

(** X6. [upload_file] never changes a local file.  When it raises, the
    blob store is as before; when it returns [bucket/name], the file at
    [file_path] has been stored as the object [name] of the bucket, and
    every other object is as before. *)
Theorem upload_file_atomic (E : Env) (file_path : string)
    (bucket_name object_name : option string) (s : State) :
  let bucket := py_or bucket_name (default_bucket E) in
  let run := MinIOClient.upload_file E file_path bucket_name object_name s in
  st_fs run.2 = st_fs s
  ∧ match run.1 with
    | Raise _ => st_store run.2 = st_store s
    | Ret key =>
        ∃ name, key = bucket +:+ "/" +:+ name
                ∧ st_store run.2 !! (bucket, name) = st_fs s !! file_path
                ∧ ∀ other, other ≠ (bucket, name) →
                           st_store run.2 !! other = st_store s !! other
    end.
Proof.
  intros bucket run.
  destruct (upload_file_cases E file_path bucket_name object_name s)
    as [Hfs [(e & Hrun & Hstore)|(file & name & Hfile & Hrun & Hstore)]];
    fold run in Hfs, Hrun, Hstore; split; try exact Hfs; rewrite Hrun.
  - exact Hstore.
  - exists name. split; [reflexivity|]. rewrite Hstore, Hfile. split.
    + apply lookup_insert_eq.
    + intros other Hne. now apply lookup_insert_ne.
Qed.

(** ** What a successful frame-extraction job has uploaded *)

Lemma hoare_true {A} (P : State → Prop) (m : M A) :
  hoare P m (λ _ _, True) (λ _, True).
Proof. intros s _. now destruct (m s) as [[a|e] s1]. Qed.

Lemma Stored_insert (bucket : string) (keys : list string) (s s' : State)
    (k : string * string) (f : File) :
  Stored bucket keys s → st_store s' = <[k := f]> (st_store s) → Stored bucket keys s'.
Proof.
  intros Hs Hstore. unfold Stored in *. eapply Forall_impl; [exact Hs|].
  intros key (name & Hkey & Hsome). exists name. split; [exact Hkey|].
  rewrite Hstore. apply lookup_insert_is_Some.
  destruct (decide (k = (bucket, name))); [now left | now right].
Qed.

Section ExtractSuccess.
Context (E : Env).

Lemma upload_frame_stored (frame_path : string) (keys : list string) :
  hoare (Stored "extracted-frames" keys)
    (MinIOClient.upload_file E frame_path (Some "extracted-frames") None)
    (λ key, Stored "extracted-frames" (keys ++ [key])) (λ _, True).
Proof.
  intros s Hs.
  destruct (upload_file_cases E frame_path (Some "extracted-frames") None s)
    as [_ [(e & Hrun & _)|(file & name & _ & Hrun & Hstore)]];
    destruct (MinIOClient.upload_file E frame_path _ _ s) as [[key|e'] s1];
    cbn in Hrun; try discriminate Hrun; [exact I|].
  cbn in Hstore. injection Hrun as ->.
  apply Forall_app. split; [exact (Stored_insert _ _ _ _ _ _ Hs Hstore)|].
  constructor; [|constructor]. exists name. split; [reflexivity|].
  rewrite Hstore, lookup_insert_eq. eauto.
Qed.

Lemma upload_frames_stored (frame_paths : list string) :
  ∀ keys,
    hoare (Stored "extracted-frames" keys)
      (Tasks.upload_frames E frame_paths keys)
      (λ r s, Stored "extracted-frames" r s
              ∧ length r = (length keys + length frame_paths)%nat)
      (λ _, True).
Proof.
  induction frame_paths as [|p frame_paths IH]; intros keys; cbn [Tasks.upload_frames].
  - apply hoare_ret. intros s Hs. split; [exact Hs | cbn; lia].
  - eapply hoare_bind; [apply upload_frame_stored|].
    intros key. eapply hoare_consequence; [apply IH | auto | | auto].
    intros r s [Hs Hlen]. split; [exact Hs|].
    rewrite Hlen, length_app. cbn. lia.
Qed.

Lemma complete_task_record_store (s : State) :
  st_store (Tasks.complete_task_record E s).2 = st_store s.
Proof.
  unfold Tasks.complete_task_record, assign_task_record, task_record_save,
    local_task_record, ProcessingTask_save, timezone_now, tick.
  unfold_monad. cbn. now destruct (st_task_record s).
Qed.

Lemma extract_frames_task_body_success (request_id video_id : string) (k : Z) :
  hoare (λ _, True) (Tasks.extract_frames_task_body E request_id video_id k)
    (λ summary s,
       ∃ keys, summary = ExtractSummary video_id (Z.of_nat (length keys)) keys
               ∧ Stored "extracted-frames" keys s ∧ TaskDone s)
    (λ _, True).
Proof.
  unfold Tasks.extract_frames_task_body.
  do 3 (apply (hoare_bind _ _ (λ _ _, True)); [apply hoare_true | intros ?]).
  cbv zeta.
  apply (hoare_bind _ _ (λ _ _, True)); [apply hoare_true | intros frame_paths].
  apply (hoare_bind _ _ (λ _ _, True)); [apply hoare_true | intros ?].
  eapply hoare_bind.
  { apply (hoare_consequence _ (Stored "extracted-frames" []) _ _
             (λ r s, Stored "extracted-frames" r s
                     ∧ length r = (length (@nil string) + length frame_paths)%nat)
             _ (λ _, True));
      [apply (upload_frames_stored frame_paths [])
      | intros s _; constructor
      | intros r s H; exact H
      | auto]. }
  intros keys. cbv beta. apply hoare_pure_pre. intros Hlen. cbn in Hlen.
  intros s Hs. rewrite run_bind.
  pose proof (complete_task_record_done E (λ _, True) s I) as Hdone.
  pose proof (complete_task_record_store s) as Hstore.
  destruct (Tasks.complete_task_record E s) as [[[]|e] s1]; [|exact I].
  cbn in *. exists keys. rewrite Hlen. split; [reflexivity|]. split; [|exact Hdone].
  unfold Stored in *. now rewrite Hstore.
Qed.

End ExtractSuccess.

(** X7. When [extract_frames_task] returns, [extracted_frames] is the
    number of keys in [minio_keys]; every key is [extracted-frames/name]
    for an object that is in the bucket [extracted-frames] when the job
    returns; and the job's record is stored as [completed] with progress
    100. *)
Theorem extract_frames_task_success (E : Env) (request_id video_id : string)
    (frame_interval : Z) (s : State) :
  let run := Tasks.extract_frames_task E request_id video_id frame_interval s in
  is_Ret run.1 = true →
  ∃ keys,
    run.1 = Ret (ExtractSummary video_id (Z.of_nat (length keys)) keys)
    ∧ Stored "extracted-frames" keys run.2
    ∧ TaskDone run.2.
Proof.
  intros run Hret. subst run. unfold Tasks.extract_frames_task in *.
  apply (job_returns_from_body _ (λ e, Tasks.fail_task_record E e;; mthrow e))
    in Hret as (summary & s1 & Hbody & ->);
    [|intros e s0; now apply bind_never_returns].
  cbn [fst snd].
  pose proof (extract_frames_task_body_success E request_id video_id frame_interval
                (fresh_locals s) I) as H.
  rewrite Hbody in H. destruct H as (keys & -> & Hstored & Hdone).
  exists keys. now repeat split.
Qed.

Lemma extract_frames_task_success_witness :
  ∃ keys,
    (Tasks.extract_frames_task (Demo.env Demo.steady_model) "celery-1" "3f2b8c1e-5d4a-4e6f-9a7b-0c1d2e3f4a5b" 3
       Demo.initial).1
    = Ret (ExtractSummary "3f2b8c1e-5d4a-4e6f-9a7b-0c1d2e3f4a5b" (Z.of_nat (length keys)) keys).
Proof.
  destruct (extract_frames_task_success (Demo.env Demo.steady_model) "celery-1" "3f2b8c1e-5d4a-4e6f-9a7b-0c1d2e3f4a5b"
              3 Demo.initial) as (keys & Hrun & _).
  - vm_compute. reflexivity.
  - exists keys. exact Hrun.
Defined.

(** ** The names of extracted frames *)

Lemma digit_value_char (d : N) : (d < 10)%N → digit_value (pretty_N_char d) = d.
Proof.
  intros H.
  assert (d = 0 ∨ d = 1 ∨ d = 2 ∨ d = 3 ∨ d = 4 ∨ d = 5 ∨ d = 6 ∨ d = 7 ∨ d = 8 ∨ d = 9)%N
    as Hd by lia.
  repeat (destruct Hd as [->|Hd]; [reflexivity|]). now subst d.
Qed.

Lemma decimal_value_go (x : N) :
  ∀ s, decimal_value (pretty_N_go x s)
       = (x * 10 ^ N.of_nat (String.length s) + decimal_value s)%N.
Proof.
  induction (N.lt_wf_0 x) as [x _ IH]. intros s.
  destruct (decide (x = 0)%N) as [->|Hx].
  - rewrite pretty_N_go_0. lia.
  - rewrite pretty_N_go_step by lia.
    rewrite IH by (apply N.div_lt; lia).
    cbn [decimal_value String.length].
    rewrite digit_value_char by (apply N.mod_lt; lia).
    rewrite Nat2N.inj_succ, N.pow_succ_r'.
    pose proof (N.div_mod x 10 ltac:(lia)) as Hdm.
    set (p := (10 ^ N.of_nat (String.length s))%N) in *.
    set (q := (x / 10)%N) in *. set (r := (x mod 10)%N) in *.
    rewrite Hdm. lia.
Qed.

Lemma decimal_value_pretty (x : N) : decimal_value (pretty x) = x.
Proof.
  unfold pretty, pretty_N. destruct (decide (x = 0)%N) as [->|Hx]; [reflexivity|].
  rewrite decimal_value_go. cbn. lia.
Qed.

Lemma decimal_value_zeros (k : nat) (s : string) :
  decimal_value (zeros k +:+ s) = decimal_value s.
Proof.
  induction k as [|k IH]; [reflexivity|].
  cbn [zeros]. rewrite string_app_cons. cbn [decimal_value]. rewrite IH.
  cbn. lia.
Qed.

(** The six-digit frame number reads back as the number. *)
Lemma decimal_value_format (n : Z) :
  0 <= n → decimal_value (format_06d n) = Z.to_N n.
Proof.
  intros Hn. unfold format_06d.
  rewrite (proj2 (Z.ltb_ge n 0)) by lia.
  now rewrite decimal_value_zeros, decimal_value_pretty.
Qed.

(** [os.path.join] puts a relative name behind a prefix that depends on
    the directory only. *)
Lemma join_relative (a b : string) :
  PosixPath.startswith_sep b = false →
  PosixPath.join a b
  = (if bool_decide (a = "") || PosixPath.endswith_sep a then a else a +:+ "/") +:+ b.
Proof.
  intros Hb. unfold PosixPath.join. rewrite Hb.
  destruct (_ || _); [reflexivity|]. apply string_app_assoc.
Qed.

Lemma frame_number_of_path (output_dir : string) (n : Z) :
  0 <= n →
  frame_number_of output_dir (YOLOProcessor.frame_path output_dir n) = Z.to_N n.
Proof.
  intros Hn. unfold frame_number_of, YOLOProcessor.frame_path.
  rewrite !join_relative by reflexivity.
  set (prefix := if bool_decide (output_dir = "") || PosixPath.endswith_sep output_dir
                 then output_dir else output_dir +:+ "/").
  rewrite (string_app_assoc prefix "frame_").
  rewrite drop_app_length, string_length_app.
  replace (String.length (format_06d n) + String.length ".jpg" - 4)%nat
    with (String.length (format_06d n)) by (cbn; lia).
  rewrite take_app_length. now apply decimal_value_format.
Qed.

Lemma frame_number_of_path_inj (output_dir : string) (n m : Z) :
  0 <= n → 0 <= m →
  YOLOProcessor.frame_path output_dir n = YOLOProcessor.frame_path output_dir m → n = m.
Proof.
  intros Hn Hm Heq. apply (f_equal (frame_number_of output_dir)) in Heq.
  rewrite !frame_number_of_path in Heq by assumption. lia.
Qed.

(** X8. The frame number can be read back from the path of an extracted
    frame, so the frames of one extraction go to pairwise different
    files. *)
Theorem frame_path_round_trip (output_dir : string) (n m : Z) :
  0 <= n → 0 <= m →
  frame_number_of output_dir (YOLOProcessor.frame_path output_dir n) = Z.to_N n
  ∧ (YOLOProcessor.frame_path output_dir n = YOLOProcessor.frame_path output_dir m
     → n = m).
Proof.
  intros Hn Hm. split; [now apply frame_number_of_path|].
  now apply frame_number_of_path_inj.
Qed.

Lemma frame_path_round_trip_witness :
  frame_number_of "/media/extracted_frames/3f2b8c1e-5d4a-4e6f-9a7b-0c1d2e3f4a5b"
    (YOLOProcessor.frame_path "/media/extracted_frames/3f2b8c1e-5d4a-4e6f-9a7b-0c1d2e3f4a5b" 1234567) = 1234567%N.
Proof.
  apply (frame_path_round_trip "/media/extracted_frames/3f2b8c1e-5d4a-4e6f-9a7b-0c1d2e3f4a5b" 1234567 0); lia.
Defined.

(** ** The files [extract_frames] writes *)


Section ExtractedFiles.
Context (E : Env) (dir : string) (k : Z) (Hk : k ≠ 0).



End ExtractedFiles.



(** ** The output video of [process_video] *)

Lemma numbered_cons (n : Z) (frame : Frame) (frames : list Frame) :
  numbered n (frame :: frames) = (n, frame) :: numbered (n + 1) frames.
Proof.
  unfold numbered. cbn [length]. rewrite seqZ_cons by lia.
  replace (Z.pred (Z.of_nat (S (length frames)))) with (Z.of_nat (length frames)) by lia.
  reflexivity.
Qed.

Section OutputVideo.
Context (E : Env) (out : string) (k : Z) (Hk : k ≠ 0) (Hout : out ≠ "").
Context (Hopens : writer_opens E out = true).

Lemma process_loop_output (reads : list (option Frame)) :
  ∀ n res s written,
    st_fs s !! out = Some (FVideo written) →
    Forall (λ p, is_Ret (detect E p.2) = true) (selected k n (decoded reads)) →
    st_fs (YOLOProcessor.process_loop E (Some out) k reads n res s).2 !! out
    = Some (FVideo (written ++ (written_frame E k <$> numbered n (decoded reads)))).
Proof.
  assert (truthy (Some out) = true) as Htruthy.
  { cbn. now rewrite bool_decide_eq_false_2. }
  induction reads as [|[frame|] reads IH]; intros n res s written Hfile Hok.
  - cbn. now rewrite app_nil_r.
  - cbn [decoded selected] in *. rewrite numbered_cons. cbn [fmap list_fmap].
    cbn [YOLOProcessor.process_loop].
    rewrite run_bind, (py_mod_nonzero _ _ Hk). unfold lift at 1.
    unfold written_frame at 1. cbn [fst snd].
    destruct (n mod k =? 0) eqn:Hmod.
    + cbn [app] in Hok. apply Forall_cons in Hok as [Hhead Hok]. cbn in Hhead.
      destruct (detect E frame) as [ds|e] eqn:Hd; [|discriminate].
      rewrite !run_bind, process_frame_run, Hd. rewrite Htruthy.
      unfold writer_write. unfold_monad. cbn [default fr_objects andb].
      change (id out) with out. rewrite Hopens. cbv beta iota.
      rewrite IH with (written := (written ++ [if nonempty ds
                                              then YOLOProcessor._draw_detections frame ds
                                              else frame])%list);
        [|cbn; rewrite lookup_alter_eq, Hfile; reflexivity|exact Hok].
      rewrite <- app_assoc. now destruct ds.
    + cbn [app] in Hok. unfold_monad. rewrite Htruthy.
      unfold writer_write. unfold_monad. cbn [default]. change (id out) with out. rewrite Hopens. cbv beta iota.
      rewrite IH with (written := (written ++ [frame])%list);
        [|cbn; rewrite lookup_alter_eq, Hfile; reflexivity|exact Hok].
      now rewrite <- app_assoc.
  - cbn. now rewrite app_nil_r.
Qed.

End OutputVideo.

(** X10. With an output path at which the video writer opens and a
    non-zero interval, when detection succeeds on the sampled frames,
    [process_video] leaves at the output path a video with one frame per
    decoded frame, in order: sampled frames with at least one detection
    carry the drawn detections, every other frame is as decoded.  (A
    writer that does not open, as for a path in a directory that does not
    exist, writes nothing and reports nothing; [process_video] does not
    test it.) *)
Theorem process_video_output (E : Env) (video_path out : string) (k : Z)
    (s : State) (file : File) (vf : VideoFile) :
  st_fs s !! video_path = Some file →
  cv_open E video_path = Some vf →
  k ≠ 0 →
  out ≠ "" →
  writer_opens E out = true →
  Forall (λ p, is_Ret (detect E p.2) = true) (selected k 0 (decoded (vf_reads vf))) →
  st_fs (YOLOProcessor.process_video E video_path (Some out) k s).2 !! out
  = Some (FVideo (written_frame E k <$> numbered 0 (decoded (vf_reads vf)))).
Proof.
  intros Hfile Hopen Hk Hout Hopens Hok.
  destruct (duration_of_total E (vf_frame_count vf) (vf_fps vf)) as [d Hd].
  set (s0 := upd_st_ticks S
               (upd_st_fs (<[out := FVideo []]>) (upd_st_writers S (upd_st_caps S s)))).
  pose proof (process_loop_output E out k Hk Hout Hopens (vf_reads vf) 0
                (initial_results vf d) s0 [] (lookup_insert_eq _ _ _) Hok) as Hloop.
  cbn [app] in Hloop. rewrite <- Hloop.
  unfold YOLOProcessor.process_video, os_path_exists, cv2_VideoCapture,
    cv2_VideoWriter, write_file, time_time, tick, cap_release, writer_release.
  unfold_monad. rewrite Hfile, Hopen, Hd.
  cbn [truthy]. rewrite (bool_decide_eq_false_2 (out = "")) by exact Hout. cbn.
  rewrite Hopens. cbn.
  fold s0. unfold initial_results.
  match goal with
  | |- context [YOLOProcessor.process_loop E ?o k ?rd 0 ?r0 s0] =>
      destruct (YOLOProcessor.process_loop E o k rd 0 r0 s0) as [[r|e] s2]
  end; reflexivity.
Qed.

Lemma process_video_output_witness :
  st_fs (YOLOProcessor.process_video (Demo.env Demo.steady_model) Demo.clip_path
           (Some "/media/processed_videos/processed_clip.mp4") 4 Demo.initial).2
    !! "/media/processed_videos/processed_clip.mp4"
  = Some (FVideo (written_frame (Demo.env Demo.steady_model) 4
                    <$> numbered 0 (decoded (vf_reads Demo.clip)))).
Proof.
  apply (process_video_output (Demo.env Demo.steady_model) Demo.clip_path
           "/media/processed_videos/processed_clip.mp4" 4 Demo.initial
           (FBlob 4096) Demo.clip).
  - vm_compute. reflexivity.
  - vm_compute. reflexivity.
  - lia.
  - discriminate.
  - reflexivity.
  - vm_compute. repeat constructor.
Defined.

(** ** Sampling intervals that are not positive *)

(** X11. With the interval 0, [process_video] and [extract_frames] (the
    latter given an output directory that is not the empty string and
    that [os.makedirs] can create) divide by zero on the first frame they
    decode: both raise [ZeroDivisionError].  Only a video without a
    decodable first frame gets through, with empty results.
    [extract_frames] writes no file in any of these cases. *)
Theorem zero_interval (E : Env) (video_path dir : string) (out : option string)
    (s : State) (file : File) (vf : VideoFile) :
  st_fs s !! video_path = Some file →
  cv_open E video_path = Some vf →
  let zero := MkExn ZeroDivisionError "integer modulo by zero" in
  let pv := YOLOProcessor.process_video E video_path out 0 s in
  let ef := YOLOProcessor.extract_frames E video_path dir 0 s in
  let can_create := dir ≠ "" ∧ makedirs_fault E (st_fs s) dir = None in
  st_fs ef.2 = st_fs s
  ∧ match decoded (vf_reads vf) with
    | [] => (∃ r, pv.1 = Ret r ∧ res_detections r = [] ∧ res_processed_frames r = 0)
            ∧ (can_create → ef.1 = Ret [])
    | _ :: _ => pv.1 = Raise zero ∧ (can_create → ef.1 = Raise zero)
    end.
Proof.
  intros Hfile Hopen zero pv ef can_create. subst pv ef.
  destruct (process_video_outcome E video_path s file vf Hfile Hopen out 0)
    as (d & s1 & _ & Hpv).
  assert (can_create → os_makedirs E dir s = (Ret tt, s)) as Hmake.
  { intros [Hdir Hfault]. apply os_makedirs_ok; [exact Hdir | now right]. }
  unfold YOLOProcessor.extract_frames, os_path_exists, cv2_VideoCapture, cap_release.
  unfold_monad. rewrite Hfile. cbn [bool_decide negb].
  rewrite bool_decide_eq_true_2 by eauto. cbn [negb].
  pose proof (os_makedirs_state E dir s) as Hstate.
  destruct (os_makedirs E dir s) as [[[]|e] s0] eqn:Hrun; cbn in Hstate; subst s0.
  - rewrite Hopen.
    destruct (vf_reads vf) as [|[frame|] rest]; cbn in Hpv |- *.
    + split; [reflexivity|]. destruct Hpv as [t Hpv].
      split; [|reflexivity]. eexists. split; [exact Hpv|]. now split.
    + split; [reflexivity|]. split; [exact Hpv | reflexivity].
    + split; [reflexivity|]. destruct Hpv as [t Hpv].
      split; [|reflexivity]. eexists. split; [exact Hpv|]. now split.
  - split; [reflexivity|].
    destruct (vf_reads vf) as [|[frame|] rest]; cbn in Hpv |- *.
    + destruct Hpv as [t Hpv].
      split; [|intros Hc; specialize (Hmake Hc); discriminate].
      eexists. split; [exact Hpv|]. now split.
    + split; [exact Hpv|]. intros Hc. specialize (Hmake Hc). discriminate.
    + destruct Hpv as [t Hpv].
      split; [|intros Hc; specialize (Hmake Hc); discriminate].
      eexists. split; [exact Hpv|]. now split.
Qed.

Lemma zero_interval_witness :
  (YOLOProcessor.extract_frames (Demo.env Demo.steady_model) Demo.clip_path
     "/media/extracted_frames/3f2b8c1e-5d4a-4e6f-9a7b-0c1d2e3f4a5b" 0 Demo.initial).1
  = Raise (MkExn ZeroDivisionError "integer modulo by zero")
  ∧ (YOLOProcessor.process_video (Demo.env Demo.steady_model) Demo.clip_path
       None 0 Demo.initial).1
    = Raise (MkExn ZeroDivisionError "integer modulo by zero").
Proof.
  destruct (zero_interval (Demo.env Demo.steady_model) Demo.clip_path
              "/media/extracted_frames/3f2b8c1e-5d4a-4e6f-9a7b-0c1d2e3f4a5b" None
              Demo.initial (FBlob 4096) Demo.clip eq_refl eq_refl) as [_ [Hpv Hef]].
  split; [|exact Hpv]. apply Hef. split; [discriminate | reflexivity].
Defined.

Lemma py_mod_opp (n k : Z) :
  match py_mod n (- k), py_mod n k with
  | Ret r, Ret r' => (r =? 0) = (r' =? 0)
  | Raise e, Raise e' => e = e'
  | _, _ => False
  end.
Proof.
  unfold py_mod. destruct (decide (k = 0)) as [->|Hk]; [reflexivity|].
  destruct (decide (- k = 0)); [lia|].
  destruct (decide (n mod k = 0)) as [Hz|Hnz].
  - rewrite Hz. rewrite (Z.mod_opp_r_z n k) by assumption. reflexivity.
  - rewrite (proj2 (Z.eqb_neq _ _) Hnz). apply Z.eqb_neq.
    intros Hz. apply Hnz.
    apply Z.mod_divide in Hz; [|lia]. apply Z.mod_divide; [lia|].
    exact (proj1 (Z.divide_opp_l k n) Hz).
Qed.

Section Negative.
Context (E : Env).

Lemma process_loop_opp (out : option string) (k : Z) (reads : list (option Frame)) :
  ∀ n res s,
    YOLOProcessor.process_loop E out (- k) reads n res s
    = YOLOProcessor.process_loop E out k reads n res s.
Proof.
  induction reads as [|[frame|] reads IH]; intros n res s; [reflexivity| |reflexivity].
  cbn [YOLOProcessor.process_loop]. rewrite !run_bind. unfold lift.
  pose proof (py_mod_opp n k) as Hmod.
  destruct (py_mod n (- k)) as [r|e], (py_mod n k) as [r'|e'];
    [|contradiction|contradiction|now subst].
  rewrite Hmod. rewrite !run_bind.
  match goal with
  | |- match ?m with _ => _ end = _ => destruct m as [[[res' frame']|e] s1]
  end; [|reflexivity].
  rewrite !run_bind.
  match goal with
  | |- match ?m with _ => _ end = _ => destruct m as [[[]|e] s2]
  end; [apply IH | reflexivity].
Qed.

Lemma extract_loop_opp (dir : string) (k : Z) (reads : list (option Frame)) :
  ∀ n paths s,
    YOLOProcessor.extract_loop dir (- k) reads n paths s
    = YOLOProcessor.extract_loop dir k reads n paths s.
Proof.
  induction reads as [|[frame|] reads IH]; intros n paths s; [reflexivity| |reflexivity].
  cbn [YOLOProcessor.extract_loop]. rewrite !run_bind. unfold lift.
  pose proof (py_mod_opp n k) as Hmod.
  destruct (py_mod n (- k)) as [r|e], (py_mod n k) as [r'|e'];
    [|contradiction|contradiction|now subst].
  rewrite Hmod. rewrite !run_bind.
  match goal with
  | |- match ?m with _ => _ end = _ => destruct m as [[paths'|e] s1]
  end; [apply IH | reflexivity].
Qed.

End Negative.

(** X12. A negative sampling interval behaves as its absolute value:
    [process_video] and [extract_frames] with the interval [-k] do exactly
    what they do with [k]. *)
Theorem negative_interval (E : Env) (video_path dir : string) (out : option string)
    (k : Z) (s : State) :
  YOLOProcessor.process_video E video_path out (- k) s
  = YOLOProcessor.process_video E video_path out k s
  ∧ YOLOProcessor.extract_frames E video_path dir (- k) s
    = YOLOProcessor.extract_frames E video_path dir k s.
Proof.
  split.
  - unfold YOLOProcessor.process_video.
    rewrite !run_bind. destruct (os_path_exists video_path s) as [[[]|e] s1]; try reflexivity.
    cbn [negb]. rewrite !run_bind.
    destruct (cv2_VideoCapture E video_path s1) as [[[vf|]|e] s2]; try reflexivity.
    rewrite !run_bind.
    match goal with
    | |- match ?m with _ => _ end = _ => destruct m as [[[]|e] s3]
    end; [|reflexivity].
    rewrite !run_bind.
    match goal with
    | |- match ?m with _ => _ end = _ => destruct m as [[d|e] s4]
    end; [|reflexivity].
    rewrite !run_bind.
    match goal with
    | |- match ?m with _ => _ end = _ => destruct m as [[t|e] s5]
    end; [|reflexivity].
    rewrite !run_bind. unfold try_finally. rewrite process_loop_opp. reflexivity.
  - unfold YOLOProcessor.extract_frames.
    rewrite !run_bind. destruct (os_path_exists video_path s) as [[[]|e] s1]; try reflexivity.
    cbn [negb]. rewrite !run_bind.
    destruct (os_makedirs E dir s1) as [[[]|e] s2]; [|reflexivity].
    rewrite !run_bind.
    destruct (cv2_VideoCapture E video_path s2) as [[[vf|]|e] s3]; try reflexivity.
    unfold try_finally. rewrite extract_loop_opp. reflexivity.
Qed.

(** ** Downloads from the blob store *)

(** X13. A file that [upload_file] stored comes back with
    [download_file]: when the transport does not fail on the bucket, the
    upload returns [bucket/name]; downloading the object [name] of the
    bucket to a path whose directory part is not empty and can be created
    returns [True] and puts the uploaded file there, leaving every other
    local file as it was.  For a target without directory part, as
    [copy.mp4], [os.makedirs] is called with the empty string: the
    download raises [FileNotFoundError] and changes nothing. *)
Theorem upload_then_download (E : Env) (source target bucket : string)
    (object_name : option string) (s : State) (file : File) :
  st_fs s !! source = Some file →
  bucket ≠ "" →
  (∀ name, s3_put_fault E bucket name = None ∧ s3_get_fault E bucket name = None) →
  let up := MinIOClient.upload_file E source (Some bucket) object_name s in
  ∃ name,
    up.1 = Ret (bucket +:+ "/" +:+ name)
    ∧ let down := MinIOClient.download_file E bucket name target up.2 in
      (PosixPath.dirname target ≠ "" →
       makedirs_fault E (st_fs s) (PosixPath.dirname target) = None →
       down.1 = Ret true
       ∧ st_fs down.2 !! target = Some file
       ∧ ∀ other, other ≠ target → st_fs down.2 !! other = st_fs s !! other)
      ∧ (PosixPath.dirname target = "" →
         ∃ e, down = (Raise e, up.2) ∧ exn_class e = FileNotFoundError).
Proof.
  intros Hfile Hbucket Hfault up.
  assert (py_or (Some bucket) (default_bucket E) = bucket) as Hb.
  { cbn. now rewrite bool_decide_eq_false_2. }
  pose proof (upload_file_cases E source (Some bucket) object_name s) as H.
  cbv zeta in H. rewrite Hb in H. fold up in H.
  destruct H as [Hfs [(e & Hrun & _)|(file' & name & Hfile' & Hrun & Hstore)]].
  - exfalso. subst up. revert Hrun.
    unfold MinIOClient.upload_file, os_path_exists, MinIOClient.fput_object,
      uuid_uuid4, tick.
    unfold_monad. rewrite Hfile, Hb.
    rewrite bool_decide_eq_true_2 by eauto. cbn [negb].
    destruct (bool_decide _).
    + destruct (PosixPath.splitext _) as [stem ext]. cbn.
      rewrite (proj1 (Hfault _)). cbn. rewrite Hfile. discriminate.
    + cbn. rewrite (proj1 (Hfault _)). cbn. rewrite Hfile. discriminate.
  - rewrite Hfile in Hfile'. injection Hfile' as <-.
    exists name. split; [exact Hrun|]. cbv zeta. split.
    + intros Hdir Hmake.
      rewrite download_file_run.
      2:{ apply os_makedirs_ok; [exact Hdir | right; now rewrite Hfs]. }
      rewrite (proj2 (Hfault name)), Hstore, lookup_insert_eq.
      cbn. split; [reflexivity|]. split; [apply lookup_insert_eq|].
      intros other Hne. rewrite lookup_insert_ne by congruence. now rewrite Hfs.
    + intros Hdir. eexists.
      unfold MinIOClient.download_file, os_makedirs. rewrite Hdir.
      unfold_monad. cbn. split; reflexivity.
Qed.

(** The clip, uploaded and downloaded to "/tmp/copy.mp4", is there. *)
Lemma upload_then_download_witness :
  ∃ name,
    (MinIOClient.upload_file (Demo.env Demo.steady_model) Demo.clip_path
       (Some "videos") None Demo.initial).1
    = Ret ("videos" +:+ "/" +:+ name)
    ∧ st_fs (MinIOClient.download_file (Demo.env Demo.steady_model) "videos" name
               "/tmp/copy.mp4"
               (MinIOClient.upload_file (Demo.env Demo.steady_model) Demo.clip_path
                  (Some "videos") None Demo.initial).2).2 !! "/tmp/copy.mp4"
      = Some (FBlob 4096).
Proof.
  destruct (upload_then_download (Demo.env Demo.steady_model) Demo.clip_path
              "/tmp/copy.mp4" "videos" None Demo.initial (FBlob 4096))
    as (name & Hup & Hdown & _).
  - vm_compute. reflexivity.
  - discriminate.
  - intros name. split; reflexivity.
  - exists name. split; [exact Hup|].
    apply Hdown; [vm_compute; discriminate | reflexivity].
Defined.

(** ** Reading metadata documents *)

(** X14. [MinIOClient.get_video_metadata] never raises.  It returns the
    document exactly when the transport hands over the metadata object of
    the video, the object is a text, and the text parses; in every other
    case the result is [None]. *)
Theorem get_video_metadata_total (E : Env) (video_id : string) (s : State) :
  let bucket := default_bucket E in
  let object_name := MinIOClient.metadata_object_name video_id in
  (MinIOClient.get_video_metadata E video_id s).1
  = Ret match s3_get_fault E bucket object_name,
              st_store s !! (bucket, object_name) with
        | None, Some (FText text) =>
            match json_load E text with
            | Ret metadata => Some metadata
            | Raise _ => None
            end
        | _, _ => None
        end.
Proof.
  intros bucket object_name.
  exact (proj1 (get_video_metadata_run E video_id s)).
Qed.

(** ** The health check *)

(** X15. [health_check_task] never raises and draws the clock once.  It
    reports [healthy] exactly when the model loads and neither the
    connection to the blob store nor the listing of its buckets fails with
    anything but an [S3Error]: errors of that class are absorbed by
    [MinIOClient], so a store that answers every request with an
    [S3Error] is reported healthy.  Otherwise it reports [unhealthy] with
    the text of the first failure: of loading the model, else of the
    connection, else of the listing. *)
Theorem health_check_report (E : Env) (S3 : S3Env) (s : State) :
  let run := Maintenance.health_check_task E S3 s in
  let t := now E (st_ticks s) in
  run.2 = upd_st_ticks S s
  ∧ ∃ report,
      run.1 = Ret report
      ∧ (report = Healthy t
         ↔ yolo_load E = None
           ∧ (∀ e, minio_connect E = Some e → exn_class e = S3Error)
           ∧ (∀ e, s3_list_buckets S3 = Raise e → exn_class e = S3Error))
      ∧ (report ≠ Healthy t → ∃ msg, report = Unhealthy msg t)
      ∧ (∀ e, yolo_load E = Some e → report = Unhealthy (str_exn e) t)
      ∧ (∀ e, yolo_load E = None →
              minio_connect E = Some e → exn_class e ≠ S3Error →
              report = Unhealthy (str_exn e) t)
      ∧ (∀ e, yolo_load E = None →
              (∀ e', minio_connect E = Some e' → exn_class e' = S3Error) →
              s3_list_buckets S3 = Raise e → exn_class e ≠ S3Error →
              report = Unhealthy (str_exn e) t).
Proof.
  intros run t. subst run t.
  unfold Maintenance.health_check_task, YOLOProcessor.init, MinIOClient.init,
    MinIOBuckets.list_buckets, timezone_now, tick.
  unfold_monad.
  destruct (yolo_load E) as [e1|]; cbn.
  { split; [reflexivity|]. eexists. split; [reflexivity|].
    split; [split; [discriminate | intros [[=] _]]|].
    split; [eauto|]. split; [now intros e [= <-]|]. split; discriminate. }
  destruct (minio_connect E) as [e2|]; cbn.
  - destruct (decide (exn_class e2 = S3Error)) as [Hc|Hc]; cbn.
    + destruct (s3_list_buckets S3) as [names|e3]; cbn.
      * split; [reflexivity|]. eexists. split; [reflexivity|].
        split; [|split; [now intros []|]].
        -- split; [|reflexivity]. intros _. repeat split; [|discriminate].
           now intros e [= <-].
        -- split; [discriminate|]. split; [|discriminate].
           intros e _ [= <-] Hne. contradiction.
      * destruct (decide (exn_class e3 = S3Error)) as [Hc3|Hc3]; cbn.
        -- split; [reflexivity|]. eexists. split; [reflexivity|].
           split; [|split; [now intros []|]].
           ++ split; [|reflexivity]. intros _. repeat split.
              ** now intros e [= <-].
              ** now intros e [= <-].
           ++ split; [discriminate|]. split.
              ** intros e _ [= <-] Hne. contradiction.
              ** intros e _ _ [= <-] Hne. contradiction.
        -- split; [reflexivity|]. eexists. split; [reflexivity|].
           split; [|split; [eauto|]].
           ++ split; [discriminate|]. intros (_ & _ & H).
              now destruct (Hc3 (H e3 eq_refl)).
           ++ split; [discriminate|]. split.
              ** intros e _ [= <-] Hne. contradiction.
              ** now intros e _ _ [= <-] _.
    + split; [reflexivity|]. eexists. split; [reflexivity|].
      split; [|split; [eauto|]].
      * split; [discriminate|]. intros (_ & H & _). now destruct (Hc (H e2 eq_refl)).
      * split; [discriminate|]. split.
        -- now intros e _ [= <-] _.
        -- intros e _ H. now destruct (Hc (H e2 eq_refl)).
  - destruct (s3_list_buckets S3) as [names|e3]; cbn.
    + split; [reflexivity|]. eexists. split; [reflexivity|].
      split; [|split; [now intros []|]].
      * split; [|reflexivity]. intros _. repeat split; discriminate.
      * split; [discriminate|]. split; discriminate.
    + destruct (decide (exn_class e3 = S3Error)) as [Hc3|Hc3]; cbn.
      * split; [reflexivity|]. eexists. split; [reflexivity|].
        split; [|split; [now intros []|]].
        -- split; [|reflexivity]. intros _. repeat split; [discriminate|].
           now intros e [= <-].
        -- split; [discriminate|]. split; [discriminate|].
           intros e _ _ [= <-] Hne. contradiction.
      * split; [reflexivity|]. eexists. split; [reflexivity|].
        split; [|split; [eauto|]].
        -- split; [discriminate|]. intros (_ & _ & H). now destruct (Hc3 (H e3 eq_refl)).
        -- split; [discriminate|]. split; [discriminate|].
           now intros e _ _ [= <-] _.
Qed.

(** ** The clean-up of temporary directories *)

Section Cleanup.
Context (E : Env) (D : DirEnv).
Context (Hclock : ∀ i j : nat, (i <= j)%nat → now E i <= now E j).
Context (Hhour : 0 <= hour D).

Lemma cleanup_items_keeps (temp_dir : string) (first : nat) (items : list string) :
  ∀ s, (first <= st_ticks s)%nat →
       let run := Maintenance.cleanup_items E D temp_dir
                    (now E first - 24 * hour D) items s in
       run.1 = Ret tt ∧ st_fs run.2 = st_fs s ∧ (first <= st_ticks run.2)%nat.
Proof.
  induction items as [|item items IH]; intros s Hs; cbn zeta.
  - now repeat split.
  - cbn [Maintenance.cleanup_items]. rewrite run_bind.
    destruct (isdir D (PosixPath.join temp_dir item)).
    + unfold timezone_now, tick. unfold_monad. cbn.
      pose proof (Hclock first (st_ticks s) Hs) as Hle.
      rewrite (proj2 (Z.ltb_ge _ _)) by lia.
      apply (IH (upd_st_ticks S s)). cbn. lia.
    + apply (IH s Hs).
Qed.

Lemma cleanup_dir_keeps (first : nat) (temp_dir : string) (s : State) :
  (first <= st_ticks s)%nat →
  let run := Maintenance.cleanup_dir E D (now E first - 24 * hour D) temp_dir s in
  st_fs run.2 = st_fs s ∧ (first <= st_ticks run.2)%nat
  ∧ (run.1 = Ret tt ∨ ∃ e, listdir D temp_dir = Raise e ∧ run.1 = Raise e).
Proof.
  intros Hs. cbv zeta. unfold Maintenance.cleanup_dir, Maintenance.path_exists, os_path_exists.
  unfold_monad.
  destruct (_ || _); [|now repeat split; try left].
  destruct (listdir D temp_dir) as [items|e] eqn:Hlist; cbn.
  - destruct (cleanup_items_keeps temp_dir first items s Hs) as (Hret & Hfs & Hticks).
    repeat split; [exact Hfs | exact Hticks | now left].
  - repeat split; [exact Hs|]. right. now exists e.
Qed.

Lemma cleanup_dirs_keeps (first : nat) (temp_dirs : list string) :
  ∀ s, (first <= st_ticks s)%nat →
       let run := for_each temp_dirs (Maintenance.cleanup_dir E D (now E first - 24 * hour D)) s in
       st_fs run.2 = st_fs s
       ∧ (run.1 = Ret tt
          ∨ ∃ temp_dir e, listdir D temp_dir = Raise e ∧ run.1 = Raise e).
Proof.
  induction temp_dirs as [|temp_dir temp_dirs IH]; intros s Hs; cbn zeta.
  - split; [reflexivity | now left].
  - cbn [for_each]. rewrite run_bind.
    destruct (cleanup_dir_keeps first temp_dir s Hs) as (Hfs & Hticks & Hout).
    destruct (Maintenance.cleanup_dir E D (now E first - 24 * hour D) temp_dir s) as [[[]|e] s1]; cbn in Hfs, Hticks, Hout.
    + destruct (IH s1 Hticks) as [Hfs' Hout']. split; [congruence | exact Hout'].
    + split; [exact Hfs|]. right.
      destruct Hout as [[=]|(e' & He & [= ->])]. now exists temp_dir, e'.
Qed.

End Cleanup.

(** X16. While the clock does not run backwards, [cleanup_temp_files_task]
    removes nothing, however old the directories are: the age it compares
    with the 24 hours is always one hour.  Local files are as before, and
    the task ends normally unless listing one of the two directories
    fails. *)
Theorem cleanup_removes_nothing (E : Env) (D : DirEnv) (s : State) :
  (∀ i j : nat, (i <= j)%nat → now E i <= now E j) →
  0 <= hour D →
  let run := Maintenance.cleanup_temp_files_task E D s in
  st_fs run.2 = st_fs s
  ∧ (run.1 = Ret tt
     ∨ ∃ temp_dir e, listdir D temp_dir = Raise e ∧ run.1 = Raise e).
Proof.
  intros Hclock Hhour run. subst run.
  unfold Maintenance.cleanup_temp_files_task. cbv zeta.
  rewrite run_bind. unfold timezone_now at 1, tick at 1. unfold_monad.
  destruct (cleanup_dirs_keeps E D Hclock Hhour (st_ticks s)
              [PosixPath.join (media_root E) "extracted_frames";
               PosixPath.join (media_root E) "temp"]
              (upd_st_ticks S s) ltac:(cbn; lia)) as [Hfs Hout].
  split; [exact Hfs|].
  exact Hout.
Qed.

(** Every directory under [/media/extracted_frames] is due for removal by
    any reading of "older than 24 hours" at a clock that starts at 1000:
    the frames extracted earlier stay. *)
Lemma cleanup_removes_nothing_witness :
  let D := {| hour := 3600; isdir := λ _, true;
              listdir := λ _, Ret ["3f2b8c1e-5d4a-4e6f-9a7b-0c1d2e3f4a5b"]; rmtree_fault := λ _, None |} in
  let s := upd_st_fs (<["/media/extracted_frames/3f2b8c1e-5d4a-4e6f-9a7b-0c1d2e3f4a5b/frame_000000.jpg"
                        := FImage (RawFrame 0)]>) Demo.initial in
  st_fs (Maintenance.cleanup_temp_files_task (Demo.env Demo.steady_model) D s).2
  = st_fs s.
Proof.
  intros D s.
  apply (cleanup_removes_nothing (Demo.env Demo.steady_model) D s).
  - intros i j Hij. cbn. lia.
  - cbn. lia.
Defined.

(** ** Deleting stored objects *)

(** X17. [delete_file] raises only what the transport raises outside
    [S3Error].  When it returns [True] the object is gone, so that no
    later [download_file] of it returns [True], and every other object is
    as before; when it returns [False] or raises, the store is
    unchanged. *)
Theorem delete_file_removes (E : Env) (S3 : S3Env) (bucket_name object_name : string)
    (s : State) :
  let del := MinIOBuckets.delete_file S3 bucket_name object_name s in
  match del.1 with
  | Ret true =>
      st_store del.2 !! (bucket_name, object_name) = None
      ∧ (∀ other, other ≠ (bucket_name, object_name) →
                  st_store del.2 !! other = st_store s !! other)
      ∧ (∀ target, (MinIOClient.download_file E bucket_name object_name target del.2).1
                   ≠ Ret true)
  | Ret false =>
      del.2 = s ∧ ∃ e, s3_remove_fault S3 bucket_name object_name = Some e
                       ∧ exn_class e = S3Error
  | Raise e =>
      del.2 = s ∧ s3_remove_fault S3 bucket_name object_name = Some e
      ∧ exn_class e ≠ S3Error
  end.
Proof.
  intros del. subst del.
  unfold MinIOBuckets.delete_file, MinIOBuckets.remove_object. unfold_monad.
  destruct (s3_remove_fault S3 bucket_name object_name) as [e|]; cbn.
  - destruct (decide (exn_class e = S3Error)) as [Hc|Hc]; cbn; eauto.
  - split; [apply lookup_delete_eq|]. split.
    + intros other Hne. now apply lookup_delete_ne.
    + intros target.
      set (s1 := upd_st_store (delete (bucket_name, object_name)) s).
      pose proof (os_makedirs_state E (PosixPath.dirname target) s1) as Hstate.
      destruct (os_makedirs E (PosixPath.dirname target) s1) as [[[]|e] s2] eqn:Hmake;
        cbn in Hstate; subst s2.
      * rewrite (download_file_run E _ _ _ _ Hmake).
        destruct (s3_get_fault E bucket_name object_name) as [e|].
        -- now destruct (decide _).
        -- subst s1. cbn. now rewrite lookup_delete_eq.
      * unfold MinIOClient.download_file. unfold_monad. rewrite Hmake.
        now destruct (decide _).
Qed.

(** ** Where uploads are stored *)

(** The last part of a split is what follows the last separator, and the
    split has one part exactly when there is no separator. *)
Lemma split_last (c : ascii) (s : string) :
  last (Models.split c s)
  = Some (PosixPath.drop (Z.to_nat (PosixPath.rfind c s + 1)) s)
  ∧ (PosixPath.rfind c s = -1 → Models.split c s = [s])
  ∧ (0 <= PosixPath.rfind c s → ∃ p q ps, Models.split c s = p :: q :: ps).
Proof.
  induction s as [|a s (IHlast & IHnone & IHsome)]; [cbn; repeat split; lia|].
  pose proof (PosixPathFacts.rfind_lower c s) as Hlow.
  cbn [Models.split PosixPath.rfind].
  destruct (Z.leb_spec 0 (PosixPath.rfind c s)) as [Hge|Hlt].
  - destruct (IHsome Hge) as (p & q & ps & Hsplit). rewrite Hsplit in IHlast |- *.
    replace (Z.to_nat (PosixPath.rfind c s + 1 + 1))
      with (S (Z.to_nat (PosixPath.rfind c s + 1))) by lia.
    cbn [PosixPath.drop].
    destruct (decide (a = c)); (split; [exact IHlast|]); (split; [lia|]); eauto.
  - assert (PosixPath.rfind c s = -1) as Hr by lia.
    rewrite (IHnone Hr) in IHlast |- *. rewrite Hr in IHlast. cbn in IHlast.
    destruct (decide (a = c)) as [->|Hne]; cbn.
    + repeat split; [lia | eauto].
    + repeat split; lia.
Qed.

Lemma extension_drop (filename : string) :
  Models.extension filename
  = PosixPath.drop (Z.to_nat (PosixPath.rfind "." filename + 1)) filename.
Proof.
  unfold Models.extension. now rewrite (proj1 (split_last "." filename)).
Qed.

(** What [filename.split('.')[-1]] is: the text after the last dot, or
    the whole name when there is no dot. *)
Lemma extension_spec (filename : string) :
  PosixPath.rfind "." (Models.extension filename) = -1
  ∧ (PosixPath.rfind "." filename = -1 → Models.extension filename = filename)
  ∧ (0 <= PosixPath.rfind "." filename →
     ∃ stem, filename = stem +:+ "." +:+ Models.extension filename).
Proof.
  rewrite extension_drop. split; [apply PosixPathFacts.rfind_drop_past_last|]. split.
  - intros ->. reflexivity.
  - intros Hdot. exists (PosixPath.take (Z.to_nat (PosixPath.rfind "." filename)) filename).
    rewrite <- (PosixPathFacts.take_drop (Z.to_nat (PosixPath.rfind "." filename)) filename)
      at 1.
    now rewrite (PosixPathFacts.drop_at_rfind _ _ Hdot).
Qed.

(** A UUID prints as 36 characters, the first of them a hexadecimal
    digit. *)
Lemma uuid_str_spec (u : N) :
  String.length (Models.uuid_str u) = 36%nat
  ∧ ∃ c rest, Models.uuid_str u = String c rest ∧ is_hex c = true.
Proof.
  unfold Models.uuid_str.
  destruct (hex_go_spec 32 u "") as [Hlen Hhex]. fold (uuid_hex u) in Hlen, Hhex.
  specialize (Hhex eq_refl). cbn in Hlen.
  destruct (uuid_hex u) as [|c0 h]; [discriminate|].
  do 31 (destruct h as [|? h]; [discriminate|]).
  destruct h; [|discriminate]. cbn.
  split; [reflexivity|]. eexists _, _. split; [reflexivity|].
  cbn in Hhex. now apply andb_true_iff in Hhex as [-> _].
Qed.

Lemma rfind_app_both (c : ascii) (a b : string) :
  PosixPath.rfind c a = -1 → PosixPath.rfind c b = -1 →
  PosixPath.rfind c (a +:+ b) = -1.
Proof. intros Ha Hb. now rewrite PosixPathFacts.rfind_app_none. Qed.

Lemma all_hex_drop (n : nat) (s : string) :
  all_hex s = true → all_hex (PosixPath.drop n s) = true.
Proof.
  revert s; induction n as [|n IH]; intros [|a s]; simpl; try reflexivity; [tauto|].
  intros [_ Hs]%andb_true_iff. now apply IH.
Qed.

Lemma all_hex_no_sep (s : string) : all_hex s = true → PosixPath.rfind "/" s = -1.
Proof.
  induction s as [|a s IH]; [reflexivity|]. cbn [all_hex PosixPath.rfind].
  intros [Ha Hs]%andb_true_iff. rewrite (IH Hs). cbn.
  destruct (decide (a = "/"%char)) as [->|]; [discriminate Ha | reflexivity].
Qed.

Lemma uuid_str_no_sep (u : N) : PosixPath.rfind "/" (Models.uuid_str u) = -1.
Proof.
  unfold Models.uuid_str.
  destruct (hex_go_spec 32 u "") as [_ Hhex]. fold (uuid_hex u) in Hhex.
  specialize (Hhex eq_refl).
  repeat (apply rfind_app_both;
          [first [reflexivity
                 | apply all_hex_no_sep; repeat first [apply all_hex_take | apply all_hex_drop];
                   exact Hhex]|]).
  apply all_hex_no_sep, all_hex_drop, Hhex.
Qed.

(** The base name of a path made of a directory name without separator,
    a separator, and a name without separator. *)
Lemma basename_join (dir name : string) :
  PosixPath.rfind "/" name = -1 →
  PosixPath.basename (dir +:+ "/" +:+ name) = name.
Proof.
  intros Hname. change ("/" +:+ name) with (String "/" name).
  unfold PosixPath.basename.
  induction dir as [|a dir IH].
  - change ("" +:+ String "/" name) with (String "/" name).
    cbn [PosixPath.rfind]. rewrite Hname. cbn.
    destruct (decide ("/"%char = "/"%char)); [reflexivity | contradiction].
  - rewrite string_app_cons. cbn [PosixPath.rfind].
    assert (0 <= PosixPath.rfind "/" (dir +:+ String "/" name)) as Hge.
    { clear IH. induction dir as [|b dir IH'].
      - apply PosixPathFacts.rfind_head.
      - rewrite string_app_cons. now apply PosixPathFacts.rfind_tail. }
    rewrite (proj2 (Z.leb_le _ _) Hge).
    replace (Z.to_nat (PosixPath.rfind "/" (dir +:+ String "/" name) + 1 + 1))
      with (S (Z.to_nat (PosixPath.rfind "/" (dir +:+ String "/" name) + 1))) by lia.
    exact IH.
Qed.

Lemma join_plain (dir name : string) (c : ascii) (rest : string) :
  name = String c rest → c ≠ "/"%char → dir ≠ "" → PosixPath.endswith_sep dir = false →
  PosixPath.join dir name = dir +:+ "/" +:+ name.
Proof.
  intros -> Hc Hdir Hend. unfold PosixPath.join.
  assert (PosixPath.startswith_sep (String c rest) = false) as ->.
  { cbn. destruct c as [[] [] [] [] [] [] [] []]; try reflexivity. now destruct Hc. }
  now rewrite bool_decide_eq_false_2, Hend.
Qed.

Section UploadPathRuns.
Context (E : Env) (filename : string) (s : State).

Let u := Models.uuid_str (uuid4 E (st_ticks s)).
Let ext := Models.extension filename.

Lemma video_upload_path_run :
  Models.video_upload_path E filename s
  = (Ret ("videos" +:+ "/" +:+ u +:+ "." +:+ ext), upd_st_ticks S s).
Proof.
  unfold Models.video_upload_path, uuid_uuid4, tick. unfold_monad. cbn zeta.
  fold u. fold ext.
  destruct (uuid_str_spec (uuid4 E (st_ticks s))) as [_ (c & rest & Hu & Hc)].
  fold u in Hu. f_equal. f_equal.
  apply (join_plain _ _ c (rest +:+ "." +:+ ext)); try done.
  - now rewrite Hu, string_app_cons.
  - intros ->. discriminate Hc.
Qed.

Lemma processed_video_upload_path_run :
  Models.processed_video_upload_path E filename s
  = (Ret ("processed_videos" +:+ "/" +:+ "processed_" +:+ u +:+ "." +:+ ext),
     upd_st_ticks S s).
Proof. reflexivity. Qed.

Lemma image_upload_path_run :
  Models.image_upload_path E filename s
  = (Ret ("processed_images" +:+ "/" +:+ "frame_" +:+ u +:+ "." +:+ ext),
     upd_st_ticks S s).
Proof. reflexivity. Qed.

End UploadPathRuns.

Lemma rfind_drop_none (c : ascii) (n : nat) (s : string) :
  PosixPath.rfind c s = -1 → PosixPath.rfind c (PosixPath.drop n s) = -1.
Proof.
  revert s; induction n as [|n IH]; intros [|a s]; cbn [PosixPath.drop]; try done.
  cbn [PosixPath.rfind]. pose proof (PosixPathFacts.rfind_lower c s) as Hlow.
  destruct (Z.leb_spec 0 (PosixPath.rfind c s)); [lia|].
  intros _. apply IH. lia.
Qed.

(** X18. [video_upload_path] stores an upload as [videos/<uuid>.<ext>]:
    36 characters of UUID in place of the original stem, and as extension
    the text after the last dot of the original name, or the whole name
    when it has no dot.  For an original name without a directory
    separator, [Video.filename] of the stored path is [<uuid>.<ext>]. *)
Theorem stored_upload_name (E : Env) (filename : string) (s : State) :
  let u := Models.uuid_str (uuid4 E (st_ticks s)) in
  let ext := Models.extension filename in
  let path := "videos/" +:+ u +:+ "." +:+ ext in
  (Models.video_upload_path E filename s).1 = Ret path
  ∧ String.length u = 36%nat
  ∧ PosixPath.rfind "." ext = -1
  ∧ (PosixPath.rfind "." filename = -1 → ext = filename)
  ∧ (0 <= PosixPath.rfind "." filename → ∃ stem, filename = stem +:+ "." +:+ ext)
  ∧ (PosixPath.rfind "/" filename = -1 → Models.filename path = u +:+ "." +:+ ext).
Proof.
  intros u ext path.
  destruct (extension_spec filename) as (Hnodot & Hwhole & Hstem).
  split; [now rewrite video_upload_path_run|].
  split; [apply uuid_str_spec|].
  split; [exact Hnodot|]. split; [exact Hwhole|]. split; [exact Hstem|].
  intros Hsep. unfold Models.filename.
  apply (basename_join "videos" (u +:+ "." +:+ ext)).
  apply rfind_app_both; [apply uuid_str_no_sep|].
  apply (rfind_app_both "/" "." ext); [reflexivity|].
  subst ext. rewrite extension_drop. now apply rfind_drop_none.
Qed.

(** ** Validation of uploads *)

Lemma splitext_extension (p : string) :
  (PosixPath.splitext p).2 = ""
  ∨ (PosixPath.splitext p).2 = "." +:+ Models.extension p
    ∧ 0 <= PosixPath.rfind "." p.
Proof.
  unfold PosixPath.splitext.
  pose proof (PosixPathFacts.rfind_lower "/" p) as Hsep.
  destruct (Z.ltb_spec (PosixPath.rfind "/" p) (PosixPath.rfind "." p)) as [Hlt|Hge];
    [|now left].
  destruct (PosixPath.has_non_dot _ _ _); [|now left].
  right. cbn [snd]. split; [|lia].
  rewrite PosixPathFacts.drop_at_rfind by lia. now rewrite extension_drop.
Qed.

(** X19. An upload that [validate_video_file] accepts is not larger than
    [MAX_UPLOAD_SIZE], and its name ends in a dot and an extension whose
    lower-case form is one of [ALLOWED_VIDEO_EXTENSIONS]; this extension,
    in its original case, is the one [video_upload_path] keeps.  (The
    empty string is taken not to be an allowed extension.) *)
Theorem accepted_upload (E : Env) (MAX_UPLOAD_SIZE : Z)
    (ALLOWED_VIDEO_EXTENSIONS : list string) (format_1f : Q → string)
    (value accepted : UploadedFile) :
  "" ∉ ALLOWED_VIDEO_EXTENSIONS →
  Serializers.validate_video_file E MAX_UPLOAD_SIZE ALLOWED_VIDEO_EXTENSIONS format_1f value
  = Valid accepted →
  let ext := Models.extension (uf_name value) in
  accepted = value
  ∧ uf_size value <= MAX_UPLOAD_SIZE
  ∧ lower ("." +:+ ext) ∈ ALLOWED_VIDEO_EXTENSIONS
  ∧ ∃ stem, uf_name value = stem +:+ "." +:+ ext.
Proof.
  intros Hempty Hvalid ext. unfold Serializers.validate_video_file in Hvalid.
  destruct (Z.ltb_spec MAX_UPLOAD_SIZE (uf_size value)) as [Hbig|Hsize];
    [discriminate Hvalid|].
  destruct (bool_decide _) eqn:Hin in Hvalid; [discriminate Hvalid|].
  apply bool_decide_eq_false in Hin. apply dec_stable in Hin.
  injection Hvalid as <-.
  destruct (splitext_extension (uf_name value)) as [Hnone|[Hext Hdot]].
  - rewrite Hnone in Hin. now destruct Hempty.
  - rewrite Hext in Hin. repeat split; [exact Hsize | exact Hin |].
    now apply extension_spec.
Qed.

Lemma accepted_upload_witness :
  lower ("." +:+ Models.extension "Holiday.2024.MP4") ∈ [".mp4"; ".avi"].
Proof.
  refine (proj1 (proj2 (proj2 (accepted_upload (Demo.env Demo.steady_model) 1000
                                 [".mp4"; ".avi"] (λ _, "0.0")
                                 {| uf_name := "Holiday.2024.MP4"; uf_size := 10 |}
                                 {| uf_name := "Holiday.2024.MP4"; uf_size := 10 |}
                                 _ _)))).
  - vm_compute. intros H. repeat (apply elem_of_cons in H as [H|H]; [discriminate H|]).
    inversion H.
  - vm_compute. reflexivity.
Defined.

(** ** The displayed duration *)

Lemma Qfloor_unique (x : Q) (z : Z) :
  (inject_Z z <= x)%Q → (x < inject_Z (z + 1))%Q → Qfloor x = z.
Proof.
  intros Hle Hlt.
  pose proof (Qfloor_le x) as Hfl. pose proof (Qlt_floor x) as Hfu.
  assert (inject_Z (Qfloor x) < inject_Z (z + 1))%Q as H1 by lra.
  assert (inject_Z z < inject_Z (Qfloor x + 1))%Q as H2 by lra.
  rewrite <- Zlt_Qlt in H1, H2. lia.
Qed.

Lemma py_int_inject (z : Z) : py_int (inject_Z z) = z.
Proof. unfold py_int. cbn. apply Z.quot_1_r. Qed.

Section Clock.
Context (x : Q) (Hx : (0 <= x)%Q).

Let whole := Qfloor x.

Lemma whole_nonneg : 0 <= whole.
Proof.
  subst whole. change 0 with (Qfloor 0). now apply Qfloor_resp_le.
Qed.

Lemma floor_of_quotient : Qfloor (x / 60) = whole / 60.
Proof.
  apply Qfloor_unique.
  - pose proof (Qfloor_le x) as Hfl. fold whole in Hfl.
    pose proof (Z.mul_div_le whole 60 ltac:(lia)) as Hdiv.
    apply Qle_shift_div_l; [reflexivity|].
    rewrite Zle_Qle, inject_Z_mult in Hdiv. change (inject_Z 60) with 60%Q in Hdiv.
    lra.
  - pose proof (Qlt_floor x) as Hfu. fold whole in Hfu.
    pose proof (Z.mul_succ_div_gt whole 60 ltac:(lia)) as Hdiv.
    apply Qlt_shift_div_r; [reflexivity|].
    assert (whole + 1 <= (whole / 60 + 1) * 60) as Hle by (unfold Z.succ in Hdiv; lia).
    rewrite Zle_Qle, inject_Z_mult in Hle. change (inject_Z 60) with 60%Q in Hle.
    lra.
Qed.

Lemma floor_of_remainder : py_int (x - 60 * inject_Z (Qfloor (x / 60))) = whole mod 60.
Proof.
  pose proof (Qfloor_le x) as Hfl. pose proof (Qlt_floor x) as Hfu.
  fold whole in Hfl, Hfu.
  pose proof (Z.mod_eq whole 60 ltac:(lia)) as Hmod.
  pose proof (Z.mod_pos_bound whole 60 ltac:(lia)) as Hbound.
  assert (inject_Z (whole mod 60) == inject_Z whole - 60 * inject_Z (whole / 60))%Q as Hr.
  { rewrite Hmod at 1. unfold Z.sub.
    rewrite inject_Z_plus, inject_Z_opp, inject_Z_mult.
    change (inject_Z 60) with 60%Q. ring. }
  assert (inject_Z (whole mod 60 + 1) == inject_Z (whole + 1) - 60 * inject_Z (whole / 60))%Q
    as Hr1.
  { rewrite !inject_Z_plus. rewrite Hr. ring. }
  rewrite floor_of_quotient.
  assert (0 <= inject_Z (whole mod 60))%Q as Hpos.
  { rewrite <- (Zle_Qle 0). lia. }
  rewrite py_int_floor by lra.
  apply Qfloor_unique; lra.
Qed.

End Clock.

Lemma Qfloor_inject (z : Z) : Qfloor (inject_Z z) = z.
Proof. unfold Qfloor, inject_Z. apply Z.div_1_r. Qed.

(** Minutes and seconds of a duration that is an int, or a float on which
    [//] and [%] are exact. *)
Lemma minutes_seconds (F : FloatOps) (d : PyNum) :
  (0 <= pynum_value d)%Q →
  (∀ q, d = PFloat q → (q < inject_Z (2 ^ 53))%Q) →
  py_int (floordiv F d 60) = Qfloor (pynum_value d) / 60
  ∧ py_int (py_fmod F d 60) = Qfloor (pynum_value d) mod 60.
Proof.
  intros Hpos Hsmall. destruct d as [z|q]; cbn [pynum_value floordiv py_fmod] in *.
  - now rewrite Qfloor_inject, !py_int_inject.
  - assert (float_exact q = true) as ->.
    { unfold float_exact. apply andb_true_iff. split.
      - now apply Qle_bool_iff.
      - apply Qltb_lt. now apply Hsmall. }
    change (inject_Z 60) with 60%Q.
    rewrite (floor_of_remainder q), py_int_inject, (floor_of_quotient q).
    split; reflexivity.
Qed.

Lemma format_02d_value (n : Z) : 0 <= n → decimal_value (format_02d n) = Z.to_N n.
Proof.
  intros Hn. unfold format_02d.
  rewrite (proj2 (Z.ltb_ge n 0)) by lia.
  now rewrite decimal_value_zeros, decimal_value_pretty.
Qed.

Lemma format_02d_width (n : Z) : 0 <= n < 100 → String.length (format_02d n) = 2%nat.
Proof.
  intros Hn.
  assert (Forall (λ i, String.length (format_02d i) = 2%nat) (seqZ 0 100)) as Hall.
  { refine (bool_decide_eq_true_1 _ _). vm_compute. reflexivity. }
  rewrite Forall_forall in Hall. apply Hall, elem_of_seqZ. lia.
Qed.

(** X20. [get_duration_formatted] shows the whole seconds of a duration
    that is not negative (and, when it is a float, below 2^53, where the
    float operations [//] and [%] are exact) as minutes and seconds: the
    minutes are the whole seconds divided by 60 (they are not split into
    hours), the seconds are the remainder, in two digits; both numbers
    read back from the text.  A duration that is missing or zero is shown
    as [None]. *)
Theorem duration_formatted (F : FloatOps) (duration : option PyNum) :
  (∀ d, duration = Some d → (0 <= pynum_value d)%Q) →
  (∀ q, duration = Some (PFloat q) → (q < inject_Z (2 ^ 53))%Q) →
  match duration with
  | None => Serializers.get_duration_formatted F duration = None
  | Some d =>
      if Qeq_bool (pynum_value d) 0
      then Serializers.get_duration_formatted F duration = None
      else
        let whole := Qfloor (pynum_value d) in
        let minutes := format_02d (whole / 60) in
        let seconds := format_02d (whole mod 60) in
        Serializers.get_duration_formatted F duration = Some (minutes +:+ ":" +:+ seconds)
        ∧ String.length seconds = 2%nat
        ∧ decimal_value minutes = Z.to_N (whole / 60)
        ∧ decimal_value seconds = Z.to_N (whole mod 60)
  end.
Proof.
  intros Hnonneg Hsmall. destruct duration as [d|]; [|reflexivity].
  specialize (Hnonneg d eq_refl). unfold Serializers.get_duration_formatted.
  destruct (Qeq_bool (pynum_value d) 0); [reflexivity|]. cbn [negb]. cbv zeta.
  destruct (minutes_seconds F d Hnonneg) as [-> ->].
  { intros q ->. now apply Hsmall. }
  pose proof (whole_nonneg _ Hnonneg) as Hwhole.
  pose proof (Z.mod_pos_bound (Qfloor (pynum_value d)) 60 ltac:(lia)) as Hbound.
  split; [reflexivity|].
  split; [apply format_02d_width; lia|].
  split; apply format_02d_value; [apply Z.div_pos|]; lia.
Qed.

(** A duration of 125.5 seconds is shown as 02:05, one of 2 hours as
    120:00, whatever the float operations do beyond 2^53. *)
Lemma duration_formatted_witness :
  let F := {| float_floordiv := λ _ _, 0%Q; float_mod := λ _ _, 0%Q |} in
  Serializers.get_duration_formatted F (Some (PFloat (251 # 2))) = Some "02:05"
  ∧ Serializers.get_duration_formatted F (Some (PFloat 7200)) = Some "120:00".
Proof.
  intros F. split.
  - refine (proj1 (duration_formatted F (Some (PFloat (251 # 2))) _ _)).
    + intros d [= <-]. unfold Qle. cbn. lia.
    + intros q [= <-]. unfold Qlt. cbn. lia.
  - refine (proj1 (duration_formatted F (Some (PFloat 7200)) _ _)).
    + intros d [= <-]. unfold Qle. cbn. lia.
    + intros q [= <-]. unfold Qlt. cbn. lia.
Defined.

(** ** Processing a video a second time *)

(** X21. [process_video_task] cannot succeed on a video that already has
    a [ProcessedFrame] row for frame 0, as every video with a decodable
    first frame has after one successful run: the job numbers the frames
    from 0 again, and the row for frame 0 cannot be created twice. *)
Theorem process_video_task_not_repeatable (E : Env) (request_id video_id : string)
    (s : State) (v : Video) (vf : VideoFile) :
  unique_frames s →
  st_videos s !! video_id = Some v →
  (v_id v, 0) ∈ frame_key <$> st_frames s →
  cv_open E (v_video_file v) = Some vf →
  decoded (vf_reads vf) ≠ [] →
  is_Ret (Tasks.process_video_task E request_id video_id s).1 = false.
Proof.
  intros Hunique Hv Hstale Hopen Hframes.
  destruct (is_Ret _) eqn:Hret; [exfalso|reflexivity].
  unfold Tasks.process_video_task in Hret.
  apply (job_returns_from_body _
           (λ e, Tasks.fail_task_record E e;; Tasks.fail_video e;; mthrow e))
    in Hret as (summary & s1 & Hbody & Hrun);
    [|intros e s0; apply bind_never_returns; intros ? ?; now apply bind_never_returns].
  pose proof (process_video_task_body_success E request_id video_id v
                (st_frames s) (st_objects s) (fresh_locals s)
                (conj Hv (conj eq_refl eq_refl))) as H.
  rewrite Hbody in H.
  destruct H as (vf' & frs & objs & t & Hopen' & Hall & _ & HF & _).
  rewrite Hopen in Hopen'. injection Hopen' as <-.
  rewrite selected_one in Hall.
  pose proof (run_job_unique E Tasks.tasks_globals request_id
                (Tasks.RunVideoProcessing video_id) s Hunique) as Hafter.
  cbn in Hafter. unfold Tasks.process_video_task in Hafter. rewrite Hrun in Hafter.
  unfold unique_frames in Hafter. cbn [snd] in Hafter. rewrite HF, fmap_app in Hafter.
  apply NoDup_app in Hafter as (_ & Hdisjoint & _).
  apply (Hdisjoint _ Hstale).
  destruct (decoded (vf_reads vf)) as [|frame frames]; [contradiction|].
  cbn [length] in Hall. rewrite seqZ_cons in Hall by lia. cbn [zip zip_with] in Hall.
  apply Forall2_cons_inv_l in Hall as (fr & frs' & [Hn _] & _ & ->).
  cbn in Hn. cbn [fmap list_fmap].
  replace (v_id v, 0) with (frame_key (frame_row v fr)); [left|].
  unfold frame_key. cbn. now rewrite Hn.
Qed.

(** With the row of frame 3 in place of that of frame 0 the run fails
    later; with the row of frame 0 it cannot succeed either. *)
Lemma process_video_task_not_repeatable_witness :
  let s := upd_st_frames (λ _, [ {| pf_video := "3f2b8c1e-5d4a-4e6f-9a7b-0c1d2e3f4a5b"; pf_frame_number := 0;
                                    pf_objects_detected := 1;
                                    pf_processing_time := None;
                                    pf_minio_key := "" |} ]) Demo.initial in
  is_Ret (Tasks.process_video_task (Demo.env Demo.steady_model) "celery-2" "3f2b8c1e-5d4a-4e6f-9a7b-0c1d2e3f4a5b" s).1
  = false.
Proof.
  intros s.
  apply (process_video_task_not_repeatable (Demo.env Demo.steady_model) "celery-2"
           "3f2b8c1e-5d4a-4e6f-9a7b-0c1d2e3f4a5b" s Demo.video Demo.clip).
  - unfold unique_frames. vm_compute. apply NoDup_singleton.
  - vm_compute. reflexivity.
  - vm_compute. left.
  - vm_compute. reflexivity.
  - vm_compute. discriminate.
Defined.
